(** * unisportbern-calendar: the text-to-schedule pipeline of
      [scripts/scrape_unisport.py]

    A shallow embedding of the field normalisers ([parse_time_range],
    [parse_dateinfo]), of the occurrence expander ([next_date_for_weekday],
    [daterange_weekly], [build_events]) and of the final sort, together with
    the parts of the Python standard library they rest on (regular
    expressions, [int], [datetime.date], [datetime.time], [strptime],
    [isoformat]).

    Modelling conventions.
    - A Python [str] is a [string]; a character is a code point below 256
      (Latin-1), so [\s], [\d], [\w] and case folding are the restrictions of
      the Unicode classes of [re] to that range.
    - A Python exception is a value [Raise e] of the type [result]; a call
      that returns normally is [Ok v].
    - [date.today()] and the module constant [PHASE_LOOKAHEAD_DAYS] are
      explicit parameters of [build_events].
    - [while] loops carry a loop bound computed from their arguments; running
      out of it is the outcome [Raise Diverged], which no Python run has and
      which [build_events] never yields ([build_events_not_diverged]). *)

From Stdlib Require Import ZArith Lia List Bool Ascii String.
From Stdlib Require Import Sorting.Sorted Sorting.Permutation.
Import ListNotations.

Local Open Scope string_scope.
Local Open Scope Z_scope.

(* ================================================================== *)
(** ** Exceptions *)

Inductive exn : Type :=
| ValueError
| OverflowError
| Diverged.

Inductive result (A : Type) : Type :=
| Ok (a : A)
| Raise (e : exn).

Arguments Ok {A} a.
Arguments Raise {A} e.

Definition bind {A B : Type} (m : result A) (k : A -> result B) : result B :=
  match m with
  | Ok a => k a
  | Raise e => Raise e
  end.

Notation "x <- m ;; k" := (bind m (fun x => k))
  (at level 61, m at next level, right associativity).
Notation "' p <- m ;; k" := (bind m (fun x => let p := x in k))
  (at level 61, p pattern, m at next level, right associativity).

(* ================================================================== *)
(** ** Characters and strings *)

Definition code (c : ascii) : Z := Z.of_N (N_of_ascii c).

Definition in_range (lo hi : Z) (c : ascii) : bool :=
  (lo <=? code c) && (code c <=? hi).

(** [str.isspace] and the class [\s]: TAB..CR, FS..US, space, NEL, NBSP. *)
Definition is_space (c : ascii) : bool :=
  in_range 9 13 c || in_range 28 32 c || (code c =? 133) || (code c =? 160).

(** The class [\d] (Unicode category Nd) below 256: the ASCII digits. *)
Definition is_digit (c : ascii) : bool := in_range 48 57 c.

(** The class [\w] below 256: alphanumeric code points and the underscore. *)
Definition is_word (c : ascii) : bool :=
  in_range 48 57 c || in_range 65 90 c || in_range 97 122 c || (code c =? 95)
  || (code c =? 170) || (code c =? 178) || (code c =? 179) || (code c =? 181)
  || in_range 185 186 c || in_range 188 190 c
  || in_range 192 214 c || in_range 216 246 c || in_range 248 255 c.

(** Simple case folding below 256, as [re.IGNORECASE] compares characters. *)
Definition lower (c : ascii) : ascii :=
  if in_range 65 90 c || in_range 192 214 c || in_range 216 222 c
  then ascii_of_N (N_of_ascii c + 32)
  else c.

Definition char_eqb (ignorecase : bool) (a b : ascii) : bool :=
  if ignorecase then Ascii.eqb (lower a) (lower b) else Ascii.eqb a b.

Definition digit_val (c : ascii) : Z := code c - 48.

Definition digit_char (n : Z) : ascii := ascii_of_N (Z.to_N (48 + n)).

Fixpoint rev_app (s acc : string) : string :=
  match s with
  | EmptyString => acc
  | String c s' => rev_app s' (String c acc)
  end.

Definition srev (s : string) : string := rev_app s EmptyString.

Fixpoint lstrip (s : string) : string :=
  match s with
  | String c s' => if is_space c then lstrip s' else s
  | EmptyString => EmptyString
  end.

(** [s.strip()] *)
Definition strip (s : string) : string := srev (lstrip (srev (lstrip s))).

(** [re.sub(r"\s+", " ", s)]: every maximal run of white space becomes one
    space; [in_run] tells that the previous character was white space. *)
Fixpoint sub_spaces (in_run : bool) (s : string) : string :=
  match s with
  | EmptyString => EmptyString
  | String c s' =>
      if is_space c
      then if in_run then sub_spaces true s'
           else String " " (sub_spaces true s')
      else String c (sub_spaces false s')
  end.

Definition normalize_space (s : string) : string :=
  strip (sub_spaces false s).

(** [s.split(sep)] for a one-character separator. *)
Fixpoint split_on (sep : ascii) (s : string) (cur : string) : list string :=
  match s with
  | EmptyString => [srev cur]
  | String c s' =>
      if Ascii.eqb c sep
      then srev cur :: split_on sep s' EmptyString
      else split_on sep s' (String c cur)
  end.

Definition str_split (s : string) (sep : ascii) : list string :=
  split_on sep s EmptyString.

Fixpoint all_digits (s : string) : bool :=
  match s with
  | EmptyString => true
  | String c s' => is_digit c && all_digits s'
  end.

Fixpoint digits_val (s : string) (acc : Z) : Z :=
  match s with
  | EmptyString => acc
  | String c s' => digits_val s' (10 * acc + digit_val c)
  end.

(** [int(s)] on the texts the patterns below can capture: a non-empty run of
    decimal digits converts, anything else is a [ValueError]. *)
Definition int (s : string) : result Z :=
  match s with
  | EmptyString => Raise ValueError
  | _ => if all_digits s then Ok (digits_val s 0) else Raise ValueError
  end.

Fixpoint digits_of (fuel : nat) (n : Z) (acc : string) : string :=
  match fuel with
  | O => acc
  | S fuel' =>
      let acc' := String (digit_char (n mod 10)) acc in
      if n <? 10 then acc' else digits_of fuel' (n / 10) acc'
  end.

(** [str(n)] for an integer [n]. *)
Definition str_of_int (n : Z) : string :=
  if n <? 0
  then String "-" (digits_of (S (Z.to_nat (Z.log2 (- n)))) (- n) EmptyString)
  else digits_of (S (Z.to_nat (Z.log2 n))) n EmptyString.

Fixpoint zeros (k : nat) (s : string) : string :=
  match k with
  | O => s
  | S k' => String "0" (zeros k' s)
  end.

(** ["%0wd" % n] for [0 <= n]. *)
Definition zfill (w : nat) (n : Z) : string :=
  let s := str_of_int n in zeros (w - String.length s) s.

(* ================================================================== *)
(** ** Regular expressions: the fragment of [re] the script uses

    A backtracking matcher that lists the ways a pattern can match a prefix
    of the input, in the order in which [re] tries them (alternatives left
    to right, greedy repetition longest first); [re.match] takes the first.
    The matcher sees characters through the tests of an [alphabet] only;
    the script runs it on [chars], the alphabet of the characters of a
    [str]. *)

Record alphabet (A : Type) : Type := Alphabet {
  a_is : bool -> ascii -> A -> bool;       (* a literal; IGNORECASE first *)
  a_digit : A -> bool;                     (* \d *)
  a_space : A -> bool;                     (* \s *)
  a_word : A -> bool;                      (* \w *)
  a_between : ascii -> ascii -> A -> bool  (* [lo-hi] *)
}.

Arguments a_is {A} _ _ _ _.
Arguments a_digit {A} _ _.
Arguments a_space {A} _ _.
Arguments a_word {A} _ _.
Arguments a_between {A} _ _ _ _.

Definition chars : alphabet ascii :=
  Alphabet ascii char_eqb is_digit is_space is_word
           (fun lo hi => in_range (code lo) (code hi)).

Inductive regex : Type :=
| Chr (c : ascii)                                (* a literal character *)
| Digit                                          (* \d *)
| Space                                          (* \s *)
| Between (lo hi : ascii)                        (* [lo-hi] *)
| Bol                                            (* ^ *)
| Eol                                            (* $ *)
| WordB                                          (* \b *)
| Cat (r1 r2 : regex)
| Alt (r1 r2 : regex)                            (* r1|r2 *)
| Rep (r : regex) (lo : nat) (hi : option nat)   (* r{lo,hi}, r*, r+ *)
| Grp (n : nat) (r : regex).                     (* capturing group n *)

Record mstate (A : Type) : Type := MState {
  m_prev : option A;               (* the character before the position *)
  m_rest : list A;                 (* the input from the position on *)
  m_caps : list (nat * list A)     (* the groups captured so far *)
}.

Arguments MState {A} _ _ _.
Arguments m_prev {A} _.
Arguments m_rest {A} _.
Arguments m_caps {A} _.

Section Matcher.
Context {A : Type} (al : alphabet A).

Definition opt_word (c : option A) : bool :=
  match c with
  | Some c => a_word al c
  | None => false
  end.

(** The text consumed between two states of one match. *)
Definition consumed (st st' : mstate A) : list A :=
  firstn (List.length (m_rest st) - List.length (m_rest st')) (m_rest st).

(** One character that passes the test [p]. *)
Definition one (p : A -> bool) (st : mstate A) : list (mstate A) :=
  match m_rest st with
  | x :: s' => if p x then [MState (Some x) s' (m_caps st)] else []
  | [] => []
  end.

(** Greedy repetition; a turn that consumes nothing ends the loop. *)
Fixpoint rep_loop (step : mstate A -> list (mstate A)) (lo : nat)
    (hi : option nat) (fuel : nat) (st : mstate A) : list (mstate A) :=
  let stop := if Nat.eqb lo 0 then [st] else [] in
  match fuel with
  | O => stop
  | S fuel' =>
      let again st' :=
        if (List.length (m_rest st') <? List.length (m_rest st))%nat
        then rep_loop step (Nat.pred lo) (option_map Nat.pred hi) fuel' st'
        else [] in
      match hi with
      | Some O => stop
      | _ => (flat_map again (step st) ++ stop)%list
      end
  end.

Fixpoint rmatch (ic : bool) (r : regex) (st : mstate A)
  : list (mstate A) :=
  match r with
  | Chr c => one (a_is al ic c) st
  | Digit => one (a_digit al) st
  | Space => one (a_space al) st
  | Between lo hi => one (a_between al lo hi) st
  | Bol => match m_prev st with None => [st] | Some _ => [] end
  | Eol =>
      match m_rest st with
      | [] => [st]
      | [c] => if a_is al false "010" c then [st] else []
      | _ => []
      end
  | WordB =>
      if xorb (opt_word (m_prev st)) (opt_word (hd_error (m_rest st)))
      then [st] else []
  | Cat r1 r2 => flat_map (rmatch ic r2) (rmatch ic r1 st)
  | Alt r1 r2 => (rmatch ic r1 st ++ rmatch ic r2 st)%list
  | Rep r' lo hi =>
      rep_loop (rmatch ic r') lo hi (S (List.length (m_rest st))) st
  | Grp n r' =>
      map (fun st' =>
             MState (m_prev st') (m_rest st')
                    ((n, consumed st st') :: m_caps st'))
          (rmatch ic r' st)
  end.

Fixpoint lookup_group (n : nat) (cs : list (nat * list A)) : list A :=
  match cs with
  | [] => []
  | (k, v) :: cs' => if Nat.eqb k n then v else lookup_group n cs'
  end.
End Matcher.

(** [re.compile(r, flags).match(s)]: the groups and the unread input of the
    first match, or [None]. *)
Definition re_match (ic : bool) (r : regex) (s : string)
  : option (mstate ascii) :=
  hd_error (rmatch chars ic r (MState None (list_ascii_of_string s) [])).

(** [m.group(n)] *)
Definition group (m : mstate ascii) (n : nat) : string :=
  string_of_list_ascii (lookup_group n (m_caps m)).

Fixpoint seq_re (rs : list regex) : regex :=
  match rs with
  | [] => Rep (Chr "000") 0 (Some 0%nat)
  | [r] => r
  | r :: rs' => Cat r (seq_re rs')
  end.

Fixpoint lit (s : string) : list regex :=
  match s with
  | EmptyString => []
  | String c s' => Chr c :: lit s'
  end.

Definition star (r : regex) : regex := Rep r 0 None.
Definition plus (r : regex) : regex := Rep r 1 None.
Definition times (r : regex) (n : nat) : regex := Rep r n (Some n).
Definition d_ : regex := Digit.
Definition s_ : regex := Space.
Definition dot_ : regex := Chr ".".
Definition between (a b : ascii) : regex := Between a b.

(** [DATE_SINGLE_RE = ^\s*(\d{2}\.\d{2}\.\d{4})\s*$] *)
Definition DATE_SINGLE_RE : regex :=
  seq_re [Bol; star s_;
          Grp 1 (seq_re [times d_ 2; dot_; times d_ 2; dot_; times d_ 4]);
          star s_; Eol].

(** [DATE_RANGE_RE = ^\s*(\d{2}\.\d{2})\.\s*-\s*(\d{2}\.\d{2}\.\d{4})\s*$] *)
Definition DATE_RANGE_RE : regex :=
  seq_re [Bol; star s_;
          Grp 1 (seq_re [times d_ 2; dot_; times d_ 2]);
          dot_; star s_; Chr "-"; star s_;
          Grp 2 (seq_re [times d_ 2; dot_; times d_ 2; dot_; times d_ 4]);
          star s_; Eol].

(** [PHASE_RE = ^\s*Phase\b], [re.IGNORECASE] *)
Definition PHASE_RE : regex :=
  seq_re ([Bol; star s_] ++ lit "Phase" ++ [WordB]).

(** [TIME_RE = ^\s*(\d{1,2}:\d{2})\s*-\s*(\d{1,2}:\d{2})\s*Uhr\s*$],
    [re.IGNORECASE] *)
Definition TIME_RE : regex :=
  seq_re ([Bol; star s_;
           Grp 1 (seq_re [Rep d_ 1 (Some 2%nat); Chr ":"; times d_ 2]);
           star s_; Chr "-"; star s_;
           Grp 2 (seq_re [Rep d_ 1 (Some 2%nat); Chr ":"; times d_ 2]);
           star s_] ++ lit "Uhr" ++ [star s_; Eol]).

(** [ALLDAY_RE = ^\s*ganzer\s+Tag\s*$], [re.IGNORECASE] *)
Definition ALLDAY_RE : regex :=
  seq_re ([Bol; star s_] ++ lit "ganzer" ++ [plus s_] ++ lit "Tag"
          ++ [star s_; Eol]).

(* ================================================================== *)
(** ** [datetime.time], [datetime.date], [datetime.timedelta] *)

(** A [time(h, m)]: second and microsecond are 0 throughout the script. *)
Record time : Type := Time { hour : Z; minute : Z }.

(** [time(h, m)] checks its fields. *)
Definition time_new (h m : Z) : result time :=
  if (0 <=? h) && (h <=? 23) && (0 <=? m) && (m <=? 59)
  then Ok (Time h m)
  else Raise ValueError.

Record date : Type := Date { year : Z; month : Z; day : Z }.

Definition MINYEAR : Z := 1.
Definition MAXYEAR : Z := 9999.
Definition MAXORDINAL : Z := 3652059.

Definition is_leap (y : Z) : bool :=
  (y mod 4 =? 0) && (negb (y mod 100 =? 0) || (y mod 400 =? 0)).

Definition DAYS_IN_MONTH (m : Z) : Z :=
  match m with
  | 1 => 31 | 2 => 28 | 3 => 31 | 4 => 30 | 5 => 31 | 6 => 30
  | 7 => 31 | 8 => 31 | 9 => 30 | 10 => 31 | 11 => 30 | 12 => 31
  | _ => -1
  end.

Definition DAYS_BEFORE_MONTH (m : Z) : Z :=
  match m with
  | 1 => 0 | 2 => 31 | 3 => 59 | 4 => 90 | 5 => 120 | 6 => 151
  | 7 => 181 | 8 => 212 | 9 => 243 | 10 => 273 | 11 => 304 | 12 => 334
  | _ => -1
  end.

Definition days_before_year (y : Z) : Z :=
  let y1 := y - 1 in y1 * 365 + y1 / 4 - y1 / 100 + y1 / 400.

Definition days_in_month (y m : Z) : Z :=
  if (m =? 2) && is_leap y then 29 else DAYS_IN_MONTH m.

Definition days_before_month (y m : Z) : Z :=
  DAYS_BEFORE_MONTH m + (if (2 <? m) && is_leap y then 1 else 0).

Definition ymd2ord (y m d : Z) : Z :=
  days_before_year y + days_before_month y m + d.

Definition DI400Y : Z := 146097.
Definition DI100Y : Z := 36524.
Definition DI4Y : Z := 1461.

Definition ord2ymd (n0 : Z) : date :=
  let n := n0 - 1 in
  let n400 := n / DI400Y in
  let n := n mod DI400Y in
  let n100 := n / DI100Y in
  let n := n mod DI100Y in
  let n4 := n / DI4Y in
  let n := n mod DI4Y in
  let n1 := n / 365 in
  let n := n mod 365 in
  let y := n400 * 400 + 1 + n100 * 100 + n4 * 4 + n1 in
  if (n1 =? 4) || (n100 =? 4) then Date (y - 1) 12 31
  else
    let leapyear := (n1 =? 3) && (negb (n4 =? 24) || (n100 =? 3)) in
    let m := Z.shiftr (n + 50) 5 in
    let preceding :=
      DAYS_BEFORE_MONTH m + (if (2 <? m) && leapyear then 1 else 0) in
    if n <? preceding
    then
      let m' := m - 1 in
      let preceding' :=
        preceding
        - (DAYS_IN_MONTH m' + (if (m' =? 2) && leapyear then 1 else 0)) in
      Date y m' (n - preceding' + 1)
    else Date y m (n - preceding + 1).

(** The field checks of [date(y, m, d)]. *)
Definition date_valid (d : date) : bool :=
  (MINYEAR <=? year d) && (year d <=? MAXYEAR)
  && (1 <=? month d) && (month d <=? 12)
  && (1 <=? day d) && (day d <=? days_in_month (year d) (month d)).

Definition date_new (y m d : Z) : result date :=
  if date_valid (Date y m d) then Ok (Date y m d) else Raise ValueError.

Definition toordinal (d : date) : Z := ymd2ord (year d) (month d) (day d).

Definition fromordinal (n : Z) : date := ord2ymd n.

(** [d.weekday()]: Monday is 0. *)
Definition weekday (d : date) : Z := (toordinal d + 6) mod 7.

(** [timedelta(days=n)], as the number of days it holds. *)
Definition timedelta (days : Z) : result Z :=
  if Z.abs days <=? 999999999 then Ok days else Raise OverflowError.

(** [d + delta] *)
Definition date_add (d : date) (delta : Z) : result date :=
  let o := toordinal d + delta in
  if (0 <? o) && (o <=? MAXORDINAL) then Ok (fromordinal o)
  else Raise OverflowError.

(** [d + timedelta(days=n)] *)
Definition date_add_days (d : date) (n : Z) : result date :=
  delta <- timedelta n ;; date_add d delta.

(** Dates compare as the triples (year, month, day). *)
Definition date_cmp (a b : date) : comparison :=
  match year a ?= year b with
  | Eq => match month a ?= month b with
          | Eq => day a ?= day b
          | c => c
          end
  | c => c
  end.

Definition date_ltb (a b : date) : bool :=
  match date_cmp a b with Lt => true | _ => false end.

Definition date_leb (a b : date) : bool :=
  match date_cmp a b with Gt => false | _ => true end.

(** [d.isoformat()] *)
Definition date_isoformat (d : date) : string :=
  zfill 4 (year d) ++ "-" ++ zfill 2 (month d) ++ "-" ++ zfill 2 (day d).

(** [t.isoformat()] for a time without seconds. *)
Definition time_isoformat (t : time) : string :=
  zfill 2 (hour t) ++ ":" ++ zfill 2 (minute t) ++ ":00".

(** [datetime.combine(d, t).isoformat()] *)
Definition datetime_isoformat (d : date) (t : time) : string :=
  date_isoformat d ++ "T" ++ time_isoformat t.

(** The pattern [_strptime] builds for the format ["%d.%m.%Y"], matched
    with [re.IGNORECASE]:
    [(?P<d>3[0-1]|[1-2]\d|0[1-9]|[1-9]| [1-9])\.]
    [(?P<m>1[0-2]|0[1-9]|[1-9])\.(?P<Y>\d\d\d\d)]. *)
Definition STRPTIME_DMY_RE : regex :=
  seq_re
    [Grp 1 (Alt (Cat (Chr "3") (between "0" "1"))
           (Alt (Cat (between "1" "2") d_)
           (Alt (Cat (Chr "0") (between "1" "9"))
           (Alt (between "1" "9")
                (Cat (Chr " ") (between "1" "9"))))));
     dot_;
     Grp 2 (Alt (Cat (Chr "1") (between "0" "2"))
           (Alt (Cat (Chr "0") (between "1" "9"))
                (between "1" "9")));
     dot_;
     Grp 3 (seq_re [d_; d_; d_; d_])].

(** [datetime.strptime(s, "%d.%m.%Y").date()]: the text must match the
    pattern and be used up, and the fields must form a date. *)
Definition strptime_dmY (s : string) : result date :=
  match re_match true STRPTIME_DMY_RE s with
  | None => Raise ValueError
  | Some found =>
      match m_rest found with
      | [] =>
          d <- int (strip (group found 1)) ;;
          m <- int (group found 2) ;;
          y <- int (group found 3) ;;
          date_new y m d
      | _ => Raise ValueError
      end
  end.

(* ================================================================== *)
(** ** The script *)

Definition SEARCH_URL : string :=
  "https://www.zssw.unibe.ch/usp/zms/search.php".
Definition DEFAULT_TIMEZONE : string := "Europe/Zurich".

Definition DOW_MAP : list (string * Z) :=
  [("Mo", 0); ("Di", 1); ("Mi", 2); ("Do", 3); ("Fr", 4); ("Sa", 5);
   ("So", 6)].

(** [d.get(k)] on a dictionary given by its items. *)
Fixpoint dict_get (d : list (string * Z)) (k : string) : option Z :=
  match d with
  | [] => None
  | (k', v) :: d' => if String.eqb k' k then Some v else dict_get d' k
  end.

Record RawRow : Type := mkRawRow {
  title : string;
  href : option string;
  dow : string;
  time_str : string;
  dateinfo : string;
  location : string;
  rest : string
}.

(** [a, b = map(int, parts)] *)
Definition unpack2 (parts : list string) : result (Z * Z) :=
  match parts with
  | [a; b] => x <- int a ;; y <- int b ;; Ok (x, y)
  | _ => Raise ValueError
  end.

Definition parse_time_range (time_str : string)
  : result (option time * option time * bool) :=
  let t := normalize_space time_str in
  match re_match true ALLDAY_RE t with
  | Some _ => Ok (None, None, true)
  | None =>
      match re_match true TIME_RE t with
      | None => Ok (None, None, false)
      | Some m =>
          let start_s := group m 1 in
          let end_s := group m 2 in
          '(sh, sm) <- unpack2 (str_split start_s ":") ;;
          '(eh, em) <- unpack2 (str_split end_s ":") ;;
          start_t <- time_new sh sm ;;
          end_t <- time_new eh em ;;
          Ok (Some start_t, Some end_t, false)
      end
  end.

Inductive kind : Type := single | range | phase.

Definition parse_dateinfo (dateinfo : string)
  : result (kind * option date * option date) :=
  let di := normalize_space dateinfo in
  match re_match false DATE_SINGLE_RE di with
  | Some m1 =>
      d <- strptime_dmY (group m1 1) ;;
      Ok (single, Some d, None)
  | None =>
      match re_match false DATE_RANGE_RE di with
      | Some m2 =>
          let start_dm := group m2 1 in
          let end_dmy := group m2 2 in
          end_d <- strptime_dmY end_dmy ;;
          start_d <-
            strptime_dmY (start_dm ++ "." ++ str_of_int (year end_d)) ;;
          Ok (range, Some start_d, Some end_d)
      | None =>
          match re_match true PHASE_RE di with
          | Some _ => Ok (phase, None, None)
          | None => Ok (phase, None, None)
          end
      end
  end.

Definition next_date_for_weekday (from_date : date) (weekday_idx : Z)
  : result date :=
  let delta := (weekday_idx - weekday from_date) mod 7 in
  date_add_days from_date delta.

(** [while d <= end: body(d); d += timedelta(days=7)], threading the state
    the body updates. *)
Fixpoint weekly_while {S : Type} (fuel : nat) (body : date -> S -> S)
    (d end_ : date) (s : S) : result S :=
  match fuel with
  | O => Raise Diverged
  | S fuel' =>
      if date_leb d end_
      then d' <- date_add_days d 7 ;;
           weekly_while fuel' body d' end_ (body d s)
      else Ok s
  end.

(** A bound on the number of tests of the loop condition. *)
Definition weekly_fuel (d end_ : date) : nat :=
  S (Z.to_nat ((toordinal end_ - toordinal d) / 7 + 1)).

Definition daterange_weekly (start end_ : date) (weekday_idx : Z)
  : result (list date) :=
  first <- next_date_for_weekday start weekday_idx ;;
  first <- (if date_ltb first start then date_add_days first 7
            else Ok first) ;;
  weekly_while (weekly_fuel first end_) (fun d out => (out ++ [d])%list)
    first end_ [].

Record ExtendedProps : Type := mkProps {
  xp_dow : string;
  xp_time : string;
  xp_dateinfo : string;
  xp_location : string;
  xp_notes : string;
  xp_source : string;
  xp_tz : string
}.

(** An event dictionary; [ev_end] is [None] when the key ["end"] is absent. *)
Record Event : Type := mkEvent {
  ev_title : string;
  ev_url : option string;
  ev_extendedProps : ExtendedProps;
  ev_start : string;
  ev_end : option string;
  ev_allDay : bool
}.

Definition base_props (r : RawRow) : ExtendedProps :=
  mkProps (dow r) (time_str r) (dateinfo r) (location r) (rest r)
          SEARCH_URL DEFAULT_TIMEZONE.

(** The closure [add_event] of [build_events], as a function of the
    variables it captures and of the list it appends to. *)
Definition add_event (r : RawRow) (start_t end_t : option time)
    (all_day : bool) (day : date) (events : list Event) : list Event :=
  if all_day
  then (events ++ [mkEvent (title r) (href r) (base_props r)
                           (date_isoformat day) None true])%list
  else
    match start_t, end_t with
    | Some st, Some et =>
        (events ++ [mkEvent (title r) (href r) (base_props r)
                            (datetime_isoformat day st)
                            (Some (datetime_isoformat day et)) false])%list
    | _, _ => events
    end.

(** One turn of the loop over the rows. *)
Definition process_row (today : date) (PHASE_LOOKAHEAD_DAYS : Z)
    (events : list Event) (r : RawRow) : result (list Event) :=
  match dict_get DOW_MAP (dow r) with
  | None => Ok events
  | Some weekday_idx =>
      '(start_t, end_t, all_day) <- parse_time_range (time_str r) ;;
      '(k, d1, d2) <- parse_dateinfo (dateinfo r) ;;
      let add := add_event r start_t end_t all_day in
      match k, d1, d2 with
      | single, Some d1, _ => Ok (add d1 events)
      | range, Some d1, Some d2 =>
          days <- daterange_weekly d1 d2 weekday_idx ;;
          Ok (fold_left (fun evs day => add day evs) days events)
      | _, _, _ =>
          delta <- timedelta PHASE_LOOKAHEAD_DAYS ;;
          horizon <- date_add today delta ;;
          first <- next_date_for_weekday today weekday_idx ;;
          weekly_while (weekly_fuel first horizon) add first horizon events
      end
  end.

Fixpoint for_rows (today : date) (PHASE_LOOKAHEAD_DAYS : Z)
    (rows : list RawRow) (events : list Event) : result (list Event) :=
  match rows with
  | [] => Ok events
  | r :: rows' =>
      events' <- process_row today PHASE_LOOKAHEAD_DAYS events r ;;
      for_rows today PHASE_LOOKAHEAD_DAYS rows' events'
  end.

(** [sort_key]: the pair (start, title). *)
Definition sort_key (ev : Event) : string * string :=
  (ev_start ev, ev_title ev).

(** The order of Python tuples of strings. *)
Definition key_cmp (a b : string * string) : comparison :=
  match String.compare (fst a) (fst b) with
  | Eq => String.compare (snd a) (snd b)
  | c => c
  end.

Definition key_ltb (a b : string * string) : bool :=
  match key_cmp a b with Lt => true | _ => false end.

(** [events.sort(key=sort_key)]: the stable sort, by insertion. *)
Fixpoint insert_event (e : Event) (l : list Event) : list Event :=
  match l with
  | [] => [e]
  | x :: l' =>
      if key_ltb (sort_key x) (sort_key e)
      then x :: insert_event e l'
      else e :: l
  end.

Fixpoint sort_events (l : list Event) : list Event :=
  match l with
  | [] => []
  | e :: l' => insert_event e (sort_events l')
  end.

Definition build_events (today : date) (PHASE_LOOKAHEAD_DAYS : Z)
    (rows : list RawRow) : result (list Event) :=
  events <- for_rows today PHASE_LOOKAHEAD_DAYS rows [] ;;
  Ok (sort_events events).

(* ================================================================== *)
(** * Vocabulary of the specification *)

(** The ordinals [o, o + 7, ...], [k] of them. *)
Fixpoint ord_seq (o : Z) (k : nat) : list Z :=
  match k with
  | O => []
  | S k' => o :: ord_seq (o + 7) k'
  end.

(** The number of ordinals [o, o + 7, ...] that do not exceed [e]. *)
Definition weeks_upto (o e : Z) : nat :=
  if e <? o then O else Z.to_nat ((e - o) / 7 + 1).

(** Consecutive dates of the list are exactly seven days apart. *)
Fixpoint spaced7 (l : list date) : Prop :=
  match l with
  | d1 :: ((d2 :: _) as l') => toordinal d2 = toordinal d1 + 7 /\ spaced7 l'
  | _ => True
  end.

(** [l] is the weekly expansion of the span from [start] to [end_] on the
    weekday [w]: it holds exactly the dates of the span that fall on [w],
    in ascending order seven days apart, and it begins with the first
    occurrence of [w] on or after [start]. *)
Definition weekly_expansion (start end_ : date) (w : Z) (l : list date)
  : Prop :=
  (forall d, In d l <->
             date_valid d = true /\ date_leb start d = true
             /\ date_leb d end_ = true /\ weekday d = w)
  /\ spaced7 l
  /\ (forall f, hd_error l = Some f ->
                next_date_for_weekday start w = Ok f
                /\ forall d, date_valid d = true -> date_leb start d = true ->
                             weekday d = w -> date_leb f d = true).

(** The events one row contributes. *)
Definition row_events (today : date) (lookahead : Z) (r : RawRow)
  : result (list Event) :=
  process_row today lookahead [] r.

(** The events of all rows, in the order of the rows, before the sort. *)
Fixpoint all_row_events (today : date) (lookahead : Z) (rows : list RawRow)
  : result (list Event) :=
  match rows with
  | [] => Ok []
  | r :: rows' =>
      new <- row_events today lookahead r ;;
      more <- all_row_events today lookahead rows' ;;
      Ok (new ++ more)%list
  end.

(** The order of the sort: [a] does not come after [b]. *)
Definition key_le (a b : Event) : Prop :=
  key_cmp (sort_key a) (sort_key b) <> Gt.

Definition key_lt (a b : Event) : Prop :=
  key_cmp (sort_key a) (sort_key b) = Lt.

(** [time] values compare as the pairs (hour, minute). *)
Definition time_cmp (a b : time) : comparison :=
  match hour a ?= hour b with
  | Eq => minute a ?= minute b
  | c => c
  end.

Definition time_valid (t : time) : Prop :=
  0 <= hour t <= 23 /\ 0 <= minute t <= 59.





(** Equality of comparisons, for checks by computation. *)
Definition cmp_eqb (c1 c2 : comparison) : bool :=
  match c1, c2 with
  | Eq, Eq | Lt, Lt | Gt, Gt => true
  | _, _ => false
  end.

(** A time range from which an event can be built: all day, or both clock
    times. *)
Definition usable (tr : option time * option time * bool) : Prop :=
  match tr with
  | (_, _, true) => True
  | (Some _, Some _, false) => True
  | _ => False
  end.

(** The event of a row with a usable time range on the day [d]. *)
Definition occurrence (r : RawRow) (tr : option time * option time * bool)
    (d : date) : Event :=
  match tr with
  | (Some st, Some et, false) =>
      mkEvent (title r) (href r) (base_props r) (datetime_isoformat d st)
              (Some (datetime_isoformat d et)) false
  | _ => mkEvent (title r) (href r) (base_props r) (date_isoformat d) None true
  end.

(** The event [ev] is dated [d]. *)
Definition event_on (ev : Event) (d : date) : Prop :=
  ev_start ev = date_isoformat d
  \/ exists t, ev_start ev = datetime_isoformat d t.

(** The dates [first, first + 7, ... <= end_], where [first] is the first
    date on the weekday [w] on or after [start]. *)
Definition weekly_days (start end_ : date) (w : Z) : list date :=
  let o1 := toordinal start + (w - weekday start) mod 7 in
  map fromordinal (ord_seq o1 (weeks_upto o1 (toordinal end_))).

(** The days of a phase listing on the weekday [w]: weekly from the first
    [w] on or after [today] up to [today] plus the lookahead. *)
Definition phase_days (today : date) (lookahead w : Z) : list date :=
  weekly_days today (fromordinal (toordinal today + lookahead)) w.

(** *** Symbolic characters

    A pattern that tests its input by [\d], [\s], [\w] and literals that are
    not digits cannot tell one digit from another.  To run the matcher on all
    texts of one shape at once, the input is written over the characters
    [sym]: a literal character, or a variable that stands for some digit. *)

Inductive sym : Type :=
| Lit (c : ascii)
| Var (n : nat).

Definition sym_val (rho : nat -> ascii) (x : sym) : ascii :=
  match x with
  | Lit c => c
  | Var n => rho n
  end.

Definition symbols (rho : nat -> ascii) : alphabet sym :=
  Alphabet sym
    (fun ic c x =>
       match x with
       | Lit y => char_eqb ic c y
       | Var n => if is_digit c then char_eqb ic c (rho n) else false
       end)
    (fun x => match x with Lit y => is_digit y | Var _ => true end)
    (fun x => match x with Lit y => is_space y | Var _ => false end)
    (fun x => match x with Lit y => is_word y | Var _ => true end)
    (fun lo hi x => in_range (code lo) (code hi) (sym_val rho x)).

(** The digits a list of characters assigns to the variables. *)
Definition digits_env (l : list ascii) (n : nat) : ascii :=
  nth n l "0"%char.

(** A map of characters, applied to a state of the matcher. *)
Definition smap {A B : Type} (f : A -> B) (st : mstate A) : mstate B :=
  MState (option_map f (m_prev st)) (map f (m_rest st))
         (map (fun c => (fst c, map f (snd c))) (m_caps st)).

(** [f] carries the tests of the alphabet [al] to those of [bl]. *)
Definition respects {A B : Type} (al : alphabet A) (bl : alphabet B)
    (f : A -> B) : Prop :=
  (forall ic c x, a_is bl ic c (f x) = a_is al ic c x)
  /\ (forall x, a_digit bl (f x) = a_digit al x)
  /\ (forall x, a_space bl (f x) = a_space al x)
  /\ (forall x, a_word bl (f x) = a_word al x)
  /\ (forall lo hi x, a_between bl lo hi (f x) = a_between al lo hi x).

(** All characters. *)
Definition all_chars : list ascii := map ascii_of_nat (seq 0 256).

Definition digit_chars : list ascii :=
  ["0"; "1"; "2"; "3"; "4"; "5"; "6"; "7"; "8"; "9"]%char.

(** *** The forms of the texts *)

Fixpoint no_space (s : string) : bool :=
  match s with
  | EmptyString => true
  | String c s' => negb (is_space c) && no_space s'
  end.

Fixpoint no_char (sep : ascii) (s : string) : bool :=
  match s with
  | EmptyString => true
  | String c s' => negb (Ascii.eqb c sep) && no_char sep s'
  end.

(** The text in lower case. *)
Fixpoint slower (s : string) : string :=
  match s with
  | EmptyString => EmptyString
  | String c s' => String (lower c) (slower s')
  end.

(** Two texts are equal up to the case of their letters. *)
Definition eq_nocase (a b : string) : Prop := slower a = slower b.

(** The hour of a clock time: one or two digits, 0 to 23. *)
Definition hour_text (s : string) : Prop :=
  (String.length s = 1%nat \/ String.length s = 2%nat)
  /\ all_digits s = true /\ digits_val s 0 <= 23.

(** The minute of a clock time: two digits, 0 to 59. *)
Definition minute_text (s : string) : Prop :=
  String.length s = 2%nat /\ all_digits s = true /\ digits_val s 0 <= 59.

(** The form ["<H:MM>-<H:MM> Uhr"] and the clock times it names. *)
Definition timed_text (s : string) (t1 t2 : time) : Prop :=
  exists h1 m1 h2 m2 u,
    hour_text h1 /\ minute_text m1 /\ hour_text h2 /\ minute_text m2
    /\ eq_nocase u "Uhr"
    /\ s = h1 ++ ":" ++ m1 ++ "-" ++ h2 ++ ":" ++ m2 ++ " " ++ u
    /\ t1 = Time (digits_val h1 0) (digits_val m1 0)
    /\ t2 = Time (digits_val h2 0) (digits_val m2 0).

(** The form ["ganzer Tag"]. *)
Definition all_day_text (s : string) : Prop := eq_nocase s "ganzer Tag".

(** The characters a character of a lower-case text can stand for, and the
    texts a lower-case text can stand for. *)
Definition case_preimage (c : ascii) : list ascii :=
  filter (fun y => Ascii.eqb (lower y) c) all_chars.

Fixpoint case_variants (s : string) : list string :=
  match s with
  | EmptyString => [EmptyString]
  | String c s' =>
      flat_map (fun x => map (String x) (case_variants s')) (case_preimage c)
  end.

Definition is_all_day (r : result (option time * option time * bool))
  : bool :=
  match r with
  | Ok (None, None, true) => true
  | _ => false
  end.

(** A text of [n] digits. *)
Definition digits_text (n : nat) (s : string) : Prop :=
  String.length s = n /\ all_digits s = true.

(** The form [DD.MM.-DD.MM.YYYY] and the numbers it names. *)
Definition range_text (s : string) (d1 m1 d2 m2 y : Z) : Prop :=
  exists D1 M1 D2 M2 Y,
    digits_text 2 D1 /\ digits_text 2 M1 /\ digits_text 2 D2
    /\ digits_text 2 M2 /\ digits_text 4 Y
    /\ s = D1 ++ "." ++ M1 ++ ".-" ++ D2 ++ "." ++ M2 ++ "." ++ Y
    /\ d1 = digits_val D1 0 /\ m1 = digits_val M1 0
    /\ d2 = digits_val D2 0 /\ m2 = digits_val M2 0
    /\ y = digits_val Y 0.

(** What [_strptime]'s pattern finds in a text [ab.cd.efgh] whose last four
    characters are the digit variables 0..3. *)
Definition strptime_syms (a b c d : ascii) : list sym :=
  [Lit a; Lit b; Lit "."; Lit c; Lit d; Lit "."; Var 0; Var 1; Var 2; Var 3].

Definition day_month_ok (a b c d : ascii) : bool :=
  let dd := 10 * digit_val a + digit_val b in
  let mm := 10 * digit_val c + digit_val d in
  (1 <=? dd) && (dd <=? 31) && (1 <=? mm) && (mm <=? 12).

Definition strptime_found (a b c d : ascii) : option (mstate sym) :=
  if day_month_ok a b c d
  then Some (MState (Some (Var 3)) []
               [(3%nat, [Var 0; Var 1; Var 2; Var 3]);
                (2%nat, [Lit c; Lit d]); (1%nat, [Lit a; Lit b])])
  else None.

(* ================================================================== *)
(** * Sample inputs *)



(** Two listings that differ in the location only. *)
Definition hall_row (loc : string) : RawRow :=
  mkRawRow "Yoga" None "Mo" "18:15-19:45 Uhr" "05.01.2026" loc EmptyString.

Definition hall_event (loc : string) : Event :=
  mkEvent "Yoga" None (base_props (hall_row loc))
          "2026-01-05T18:15:00" (Some "2026-01-05T19:45:00") false.

(** An all-day listing and a timed one. *)
Definition swim_row : RawRow :=
  mkRawRow "Aqua" None "Mo" "ganzer Tag" "05.01.2026" "Bad" EmptyString.

Definition swim_event : Event :=
  mkEvent "Aqua" None (base_props swim_row) "2026-01-05" None true.

(** A listing coded as Tuesday on a date that is a Monday. *)
Definition tuesday_row : RawRow :=
  mkRawRow "Judo" None "Di" "18:15-19:45 Uhr" "05.01.2026" "Dojo" EmptyString.

(** A phase listing on Mondays. *)
Definition monday_phase_row : RawRow :=
  mkRawRow "Yoga" None "Mo" "18:15-19:45 Uhr" "Phase 1" "Halle" EmptyString.

(** Listings with a clock time out of range, and with an unknown time text
    next to a date that does not exist. *)
Definition late_row : RawRow :=
  mkRawRow "Judo" None "Mo" "25:00-26:00 Uhr" "Phase 1" "Dojo" EmptyString.

Definition odd_row : RawRow :=
  mkRawRow "Judo" None "Mo" "nach Ansage" "31.02.2026" "Dojo" EmptyString.

(** A listing with an unknown weekday code. *)
Definition someday_row : RawRow :=
  mkRawRow "Judo" None "Xx" "25:00-26:00 Uhr" "31.02.2026" "Dojo" EmptyString.

(* ================================================================== *)
(** * [extract_rows]: from the anchors of the page to the rows

    The HTML parser is outside the model: [extract_rows] is given, for
    every [<a>] element in document order, the three things the loop reads
    of it. *)

(** The operators of [LINE_RE] beyond the fragment of the other patterns:
    [.], the lazy [+?], and the optional group. *)
Inductive line_regex : Type :=
| Plain (r : regex)
| AnyChar                              (* . *)
| Then (r1 r2 : line_regex)
| LazyPlus (r : line_regex)            (* r+? *)
| Many (r : line_regex)                (* r* *)
| Opt (r : line_regex)                 (* (?:r)? *)
| Named (n : nat) (r : line_regex).    (* (?P<name>r), the n-th group *)

(** Lazy repetition: the shortest first. *)
Fixpoint lazy_loop (step : mstate ascii -> list (mstate ascii)) (lo : nat)
    (fuel : nat) (st : mstate ascii) : list (mstate ascii) :=
  let stop := if Nat.eqb lo 0 then [st] else [] in
  match fuel with
  | O => stop
  | S fuel' =>
      let again st' :=
        if (List.length (m_rest st') <? List.length (m_rest st))%nat
        then lazy_loop step (Nat.pred lo) fuel' st'
        else [] in
      (stop ++ flat_map again (step st))%list
  end.

Fixpoint line_rmatch (r : line_regex) (st : mstate ascii)
  : list (mstate ascii) :=
  match r with
  | Plain r' => rmatch chars false r' st
  | AnyChar => one (fun c => negb (Ascii.eqb c "010")) st
  | Then r1 r2 => flat_map (line_rmatch r2) (line_rmatch r1 st)
  | LazyPlus r' =>
      lazy_loop (line_rmatch r') 1 (S (List.length (m_rest st))) st
  | Many r' =>
      rep_loop (line_rmatch r') 0 None (S (List.length (m_rest st))) st
  | Opt r' => (line_rmatch r' st ++ [st])%list
  | Named n r' =>
      map (fun st' =>
             MState (m_prev st') (m_rest st')
                    ((n, consumed st st') :: m_caps st'))
          (line_rmatch r' st)
  end.

Fixpoint seq_line (rs : list line_regex) : line_regex :=
  match rs with
  | [] => Plain (seq_re [])
  | [r] => r
  | r :: rs' => Then r (seq_line rs')
  end.

Fixpoint alt_re (rs : list regex) : regex :=
  match rs with
  | [] => Between "001" "000"
  | [r] => r
  | r :: rs' => Alt r (alt_re rs')
  end.

(** The weekday codes of [LINE_RE], in its order. *)
Definition DOW_CODES : list string := ["Mo"; "Di"; "Mi"; "Do"; "Fr"; "Sa"; "So"].

(** [,\s*] *)
Definition comma_ : line_regex := Plain (Cat (Chr ",") (star s_)).

(** The groups of [LINE_RE] by number: title 1, dow 2, time 3, dateinfo 4,
    location 5, rest 6. *)
Definition LINE_RE : line_regex :=
  seq_line [Plain Bol;
            Named 1 (LazyPlus AnyChar); comma_;
            Named 2 (Plain (alt_re (map (fun s => seq_re (lit s)) DOW_CODES)));
            comma_;
            Named 3 (LazyPlus AnyChar); comma_;
            Named 4 (LazyPlus AnyChar); comma_;
            Named 5 (LazyPlus AnyChar);
            Opt (Then comma_ (Named 6 (Many AnyChar)));
            Plain Eol].

(** [LINE_RE.match(s)] *)
Definition line_match (r : line_regex) (s : string)
  : option (mstate ascii) :=
  hd_error (line_rmatch r (MState None (list_ascii_of_string s) [])).

(** [s.count(c)] for a one-character [c]. *)
Fixpoint str_count (c : ascii) (s : string) : nat :=
  match s with
  | EmptyString => 0
  | String x s' => (if Ascii.eqb x c then 1 else 0) + str_count c s'
  end.

(** What the loop reads of one [<a>] element. *)
Record Anchor : Type := mkAnchor {
  an_text : string;             (* a.get_text(" ", strip=True) *)
  an_parent : option string;    (* the same of a.parent, if there is one *)
  an_href : option string       (* a.get("href") *)
}.

Definition SITE : string := "https://www.zssw.unibe.ch".

(** One turn of the loop over the anchors: the row it appends, if any. *)
Definition row_of_anchor (a : Anchor) : option RawRow :=
  let title := normalize_space (an_text a) in
  if String.eqb title EmptyString then None
  else
    match an_parent a with
    | None => None
    | Some parent_text =>
        let line_text := normalize_space parent_text in
        if (str_count "," line_text <? 3)%nat then None
        else
          match line_match LINE_RE line_text with
          | None => None
          | Some m =>
              let href :=
                match an_href a with
                | Some h =>
                    if negb (String.eqb h EmptyString) && prefix "/" h
                    then Some (SITE ++ h)
                    else Some h
                | None => None
                end in
              Some (mkRawRow (strip (group m 1)) href (strip (group m 2))
                             (strip (group m 3)) (strip (group m 4))
                             (strip (group m 5)) (strip (group m 6)))
          end
    end.

Definition RowKey : Type :=
  (string * string * string * string * string * string * option string)%type.

Definition row_key (r : RawRow) : RowKey :=
  (title r, dow r, time_str r, dateinfo r, location r, rest r, href r).

Definition opt_eqb (a b : option string) : bool :=
  match a, b with
  | Some x, Some y => String.eqb x y
  | None, None => true
  | _, _ => false
  end.

(** Equality of key tuples. *)
Definition row_key_eqb (a b : RowKey) : bool :=
  let '(t1, d1, ti1, di1, l1, r1, h1) := a in
  let '(t2, d2, ti2, di2, l2, r2, h2) := b in
  String.eqb t1 t2 && String.eqb d1 d2 && String.eqb ti1 ti2
  && String.eqb di1 di2 && String.eqb l1 l2 && String.eqb r1 r2
  && opt_eqb h1 h2.

(** The loop that drops repeated rows; [seen] holds the keys met so far. *)
Fixpoint dedup (rows : list RawRow) (seen : list RowKey)
    (uniq : list RawRow) : list RawRow :=
  match rows with
  | [] => uniq
  | r :: rows' =>
      let key := row_key r in
      if existsb (row_key_eqb key) seen
      then dedup rows' seen uniq
      else dedup rows' (key :: seen) (uniq ++ [r])%list
  end.

Fixpoint anchor_rows (anchors : list Anchor) (rows : list RawRow)
  : list RawRow :=
  match anchors with
  | [] => rows
  | a :: anchors' =>
      match row_of_anchor a with
      | Some r => anchor_rows anchors' (rows ++ [r])%list
      | None => anchor_rows anchors' rows
      end
  end.

Definition extract_rows (anchors : list Anchor) : list RawRow :=
  dedup (anchor_rows anchors []) [] [].

(* ================================================================== *)
(** * What a match says about the text

    The matcher lists states; the relations below say which texts a pattern
    can consume and which groups it records on the way. *)

Definition captures_t : Type := list (nat * list ascii).

(** A repetition of [lo] to [hi] turns, each of which consumes a text and
    records groups as [L] says. *)
Definition turns_of (L : list ascii -> captures_t -> Prop) (lo : nat)
    (hi : option nat) (w : list ascii) (cs : captures_t) : Prop :=
  exists turns : list (list ascii * captures_t),
    w = List.concat (map fst turns)
    /\ cs = List.concat (rev (map snd turns))
    /\ Forall (fun t => L (fst t) (snd t)) turns
    /\ (lo <= List.length turns)%nat
    /\ (forall h, hi = Some h -> (List.length turns <= h)%nat).

(** [captures ic r w cs]: the pattern can consume [w], recording the groups
    [cs] on the way, the latest first. *)
Fixpoint captures (ic : bool) (r : regex) (w : list ascii) (cs : captures_t)
  : Prop :=
  match r with
  | Chr c => cs = [] /\ exists x, w = [x] /\ char_eqb ic c x = true
  | Digit => cs = [] /\ exists x, w = [x] /\ is_digit x = true
  | Space => cs = [] /\ exists x, w = [x] /\ is_space x = true
  | Between lo hi =>
      cs = [] /\ exists x, w = [x] /\ in_range (code lo) (code hi) x = true
  | Bol | Eol | WordB => cs = [] /\ w = []
  | Cat r1 r2 =>
      exists w1 w2 c1 c2,
        w = (w1 ++ w2)%list /\ cs = (c2 ++ c1)%list
        /\ captures ic r1 w1 c1 /\ captures ic r2 w2 c2
  | Alt r1 r2 => captures ic r1 w cs \/ captures ic r2 w cs
  | Rep r' lo hi => turns_of (captures ic r') lo hi w cs
  | Grp n r' => exists c, captures ic r' w c /\ cs = (n, w) :: c
  end.

(** The state [st'] lies after [st] by a text and groups that [L] admits. *)
Definition reaches (L : list ascii -> captures_t -> Prop)
    (st st' : mstate ascii) : Prop :=
  exists w cs, m_rest st = (w ++ m_rest st')%list
               /\ m_caps st' = (cs ++ m_caps st)%list /\ L w cs.

(** The same for the patterns of a line. *)
Fixpoint line_captures (r : line_regex) (w : list ascii) (cs : captures_t)
  : Prop :=
  match r with
  | Plain r' => captures false r' w cs
  | AnyChar =>
      cs = [] /\ exists x, w = [x] /\ negb (Ascii.eqb x "010") = true
  | Then r1 r2 =>
      exists w1 w2 c1 c2,
        w = (w1 ++ w2)%list /\ cs = (c2 ++ c1)%list
        /\ line_captures r1 w1 c1 /\ line_captures r2 w2 c2
  | LazyPlus r' => turns_of (line_captures r') 1 None w cs
  | Many r' => turns_of (line_captures r') 0 None w cs
  | Opt r' => line_captures r' w cs \/ (w = [] /\ cs = [])
  | Named n r' => exists c, line_captures r' w c /\ cs = (n, w) :: c
  end.

(** The pattern ends with [$]. *)
Fixpoint to_end (r : regex) : bool :=
  match r with
  | Eol => true
  | Cat _ r2 => to_end r2
  | _ => false
  end.

(* ================================================================== *)
(** * The form of normalised texts *)

(** No white space but single blanks; [after_space] tells that the text follows a blank (or nothing), where no blank may stand, as none may at the end. *)
Fixpoint single_spaced (after_space : bool) (s : string) : bool :=
  match s with
  | EmptyString => negb after_space
  | String c s' =>
      if is_space c
      then Ascii.eqb c " " && negb after_space && single_spaced true s'
      else single_spaced false s'
  end.

(** Words separated by single blanks, or nothing. *)
Definition tidy (s : string) : bool :=
  match s with
  | EmptyString => true
  | _ => single_spaced true s
  end.

(** [s.rstrip()] *)
Fixpoint rstrip (s : string) : string :=
  match s with
  | EmptyString => EmptyString
  | String c s' =>
      match rstrip s' with
      | EmptyString => if is_space c then EmptyString else String c EmptyString
      | t => String c t
      end
  end.

(** Blanks as [single_spaced] wants them, but for the end of the text. *)
Fixpoint blanks (after_space : bool) (s : string) : bool :=
  match s with
  | EmptyString => true
  | String c s' =>
      if is_space c
      then Ascii.eqb c " " && negb after_space && blanks true s'
      else blanks false s'
  end.

Fixpoint all_space (s : string) : bool :=
  match s with
  | EmptyString => true
  | String c s' => is_space c && all_space s'
  end.





(** The weekday code of the row is a key of [DOW_MAP]. *)
Definition known_weekday (r : RawRow) : bool :=
  match dict_get DOW_MAP (dow r) with
  | Some _ => true
  | None => false
  end.

(** [ev] is what the row [r] gives on some day of the calendar: the time
    text of the row parses to a usable time range, and [ev] is the
    occurrence of the row with these times on that day. *)
Definition event_of_row (r : RawRow) (ev : Event) : Prop :=
  known_weekday r = true
  /\ exists tr d,
       parse_time_range (time_str r) = Ok tr /\ usable tr
       /\ date_valid d = true /\ ev = occurrence r tr d.

(** The number of commas in a list of characters. *)
Definition commas (l : list ascii) : nat :=
  str_count "," (string_of_list_ascii l).

(** The rows the loop over the anchors appends, in its order. *)
Definition matched_rows (anchors : list Anchor) : list RawRow :=
  flat_map (fun a => match row_of_anchor a with
                     | Some r => [r]
                     | None => []
                     end) anchors.

(** A sample anchor, and the row it gives. *)
Definition yoga_anchor : Anchor :=
  mkAnchor "Yoga"
    (Some "Yoga,  Mo, 18:15-19:45 Uhr, 05.01.2026, Halle 3, ZSSw, frei")
    (Some "/usp/x.php?id=1").

Definition yoga_row : RawRow :=
  mkRawRow "Yoga" (Some "https://www.zssw.unibe.ch/usp/x.php?id=1") "Mo"
           "18:15-19:45 Uhr" "05.01.2026" "Halle 3" "ZSSw, frei".

(** The keys the loop that drops repeated rows has seen in the end. *)
Fixpoint dedup_seen (rows : list RawRow) (seen : list RowKey)
  : list RowKey :=
  match rows with
  | [] => seen
  | r :: rows' =>
      if existsb (row_key_eqb (row_key r)) seen
      then dedup_seen rows' seen
      else dedup_seen rows' (row_key r :: seen)
  end.

(** [g] is a part of the text [s]. *)
Definition part_of (g s : string) : Prop :=
  exists pre post, s = pre ++ g ++ post.

(** The text [add_event] writes as the start of an event on the day [d]:
    with the time [t], or the date alone for an all-day event. *)
Definition start_text (d : date) (t : option time) : string :=
  match t with
  | Some t => datetime_isoformat d t
  | None => date_isoformat d
  end.

(** The start time of a usable time range: none for an all-day event. *)
Definition clock (tr : option time * option time * bool) : option time :=
  match tr with
  | (Some st, Some _, false) => Some st
  | _ => None
  end.

(** The order of starts in time: by the day, an all-day event before the
    timed events of its day, these by the clock. *)
Definition moment_cmp (d1 : date) (t1 : option time) (d2 : date)
    (t2 : option time) : comparison :=
  match date_cmp d1 d2 with
  | Eq =>
      match t1, t2 with
      | None, None => Eq
      | None, Some _ => Lt
      | Some _, None => Gt
      | Some a, Some b => time_cmp a b
      end
  | c => c
  end.

(** A phase listing whose time text is in neither form. *)
Definition quiet_row : RawRow :=
  mkRawRow "Judo" None "Mo" "nach Ansage" "Phase 1" "Dojo" EmptyString.

(** The event has the sort key [k], the pair (start, title). *)
Definition has_key (k : string * string) (ev : Event) : bool :=
  String.eqb (ev_start ev) (fst k) && String.eqb (ev_title ev) (snd k).

(** The events of [evs] that tie on the sort key stand in the order in
    which the rows give them: for every key, the events of [evs] with this
    key are, in this order, the events with this key that the rows give one
    after the other. *)
Definition ties_in_row_order (today : date) (lookahead : Z)
    (rows : list RawRow) (evs : list Event) : Prop :=
  exists raw,
    all_row_events today lookahead rows = Ok raw
    /\ forall k, filter (has_key k) evs = filter (has_key k) raw.




(* ================================================================== *)
(** * Properties *)

(** ** The proleptic Gregorian calendar of [datetime.date] *)

Lemma dby_decomp (y a b c e : Z) :
  y = 400 * a + 100 * b + 4 * c + e + 1 ->
  0 <= a -> 0 <= b <= 3 -> 0 <= c <= 24 -> 0 <= e <= 3 ->
  days_before_year y = 146097 * a + 36524 * b + 1461 * c + 365 * e.
Proof.
  intros -> Ha Hb Hc He. unfold days_before_year.
  replace (400 * a + 100 * b + 4 * c + e + 1 - 1)
    with (400 * a + 100 * b + 4 * c + e) by lia.
  assert (H4 : (400 * a + 100 * b + 4 * c + e) / 4 = 100 * a + 25 * b + c).
  { symmetry. apply Z.div_unique with (r := e); lia. }
  assert (H100 : (400 * a + 100 * b + 4 * c + e) / 100 = 4 * a + b).
  { symmetry. apply Z.div_unique with (r := 4 * c + e); lia. }
  assert (H400 : (400 * a + 100 * b + 4 * c + e) / 400 = a).
  { symmetry. apply Z.div_unique with (r := 100 * b + 4 * c + e); lia. }
  rewrite H4, H100, H400. lia.
Qed.

Lemma leap_decomp (y a b c e : Z) :
  y = 400 * a + 100 * b + 4 * c + e + 1 ->
  0 <= a -> 0 <= b <= 3 -> 0 <= c <= 24 -> 0 <= e <= 3 ->
  is_leap y = (e =? 3) && (negb (c =? 24) || (b =? 3)).
Proof.
  intros -> Ha Hb Hc He. unfold is_leap.
  assert (H4 : (400 * a + 100 * b + 4 * c + e + 1) mod 4 = (e + 1) mod 4).
  { replace (400 * a + 100 * b + 4 * c + e + 1)
      with ((e + 1) + (100 * a + 25 * b + c) * 4) by lia.
    apply Z.mod_add. lia. }
  assert (H100 : (400 * a + 100 * b + 4 * c + e + 1) mod 100
                 = (4 * c + e + 1) mod 100).
  { replace (400 * a + 100 * b + 4 * c + e + 1)
      with ((4 * c + e + 1) + (4 * a + b) * 100) by lia.
    apply Z.mod_add. lia. }
  assert (H400 : (400 * a + 100 * b + 4 * c + e + 1) mod 400
                 = (100 * b + 4 * c + e + 1) mod 400).
  { replace (400 * a + 100 * b + 4 * c + e + 1)
      with ((100 * b + 4 * c + e + 1) + a * 400) by lia.
    apply Z.mod_add. lia. }
  rewrite H4, H100, H400.
  destruct (Z.eqb_spec e 3) as [E3 | E3];
    destruct (Z.eqb_spec c 24) as [C24 | C24];
    destruct (Z.eqb_spec b 3) as [B3 | B3]; cbn [negb orb andb];
    repeat match goal with
      | |- context [ (?x mod ?k =? 0) ] =>
          let H := fresh in
          destruct (Z.eqb_spec (x mod k) 0) as [H | H];
          revert H
      end; cbn [negb orb andb]; intros; try reflexivity; exfalso;
    Z.div_mod_to_equations; lia.
Qed.

Lemma date_valid_iff (d : date) :
  date_valid d = true <->
  1 <= year d <= 9999 /\ 1 <= month d <= 12
  /\ 1 <= day d <= days_in_month (year d) (month d).
Proof.
  unfold date_valid, MINYEAR, MAXYEAR.
  rewrite !andb_true_iff, !Z.leb_le. tauto.
Qed.

Ltac month_cases m :=
  let H := fresh "Hm" in
  assert (H : m = 1 \/ m = 2 \/ m = 3 \/ m = 4 \/ m = 5 \/ m = 6 \/ m = 7
              \/ m = 8 \/ m = 9 \/ m = 10 \/ m = 11 \/ m = 12) by lia;
  repeat (destruct H as [H | H]; [subst m | ]); [ .. | subst m].

(** Evaluates the month tables and the tests between numerals. *)
Ltac calc :=
  repeat match goal with
    | |- context [ Z.pos ?a - Z.pos ?b ] =>
        let v := eval vm_compute in (Z.pos a - Z.pos b) in
        change (Z.pos a - Z.pos b) with v
    end;
  cbv beta iota delta [DAYS_BEFORE_MONTH DAYS_IN_MONTH];
  repeat match goal with
    | |- context [ Z.pos ?a <? Z.pos ?b ] =>
        let v := eval vm_compute in (Z.pos a <? Z.pos b) in
        change (Z.pos a <? Z.pos b) with v
    | |- context [ Z.pos ?a =? Z.pos ?b ] =>
        let v := eval vm_compute in (Z.pos a =? Z.pos b) in
        change (Z.pos a =? Z.pos b) with v
    end;
  cbn [andb orb negb]; cbv iota.

Lemma ord2ymd_spec (n : Z) :
  1 <= n <= MAXORDINAL ->
  date_valid (ord2ymd n) = true /\ toordinal (ord2ymd n) = n.
Proof.
  unfold MAXORDINAL. intros Hn.
  unfold ord2ymd, DI400Y, DI100Y, DI4Y. cbv zeta.
  set (N := n - 1).
  set (a := N / 146097). set (r1 := N mod 146097).
  set (b := r1 / 36524). set (r2 := r1 mod 36524).
  set (c := r2 / 1461). set (r3 := r2 mod 1461).
  set (e := r3 / 365). set (r4 := r3 mod 365).
  assert (E1 : N = 146097 * a + r1) by (apply Z.div_mod; lia).
  assert (B1 : 0 <= r1 < 146097) by (apply Z.mod_pos_bound; lia).
  assert (E2 : r1 = 36524 * b + r2) by (apply Z.div_mod; lia).
  assert (B2 : 0 <= r2 < 36524) by (apply Z.mod_pos_bound; lia).
  assert (E3 : r2 = 1461 * c + r3) by (apply Z.div_mod; lia).
  assert (B3 : 0 <= r3 < 1461) by (apply Z.mod_pos_bound; lia).
  assert (E4 : r3 = 365 * e + r4) by (apply Z.div_mod; lia).
  assert (B4 : 0 <= r4 < 365) by (apply Z.mod_pos_bound; lia).
  assert (EN : n = N + 1) by (unfold N; lia).
  clearbody a r1 b r2 c r3 e r4 N.
  assert (Ra : 0 <= a <= 24) by lia.
  assert (Rb : 0 <= b <= 4) by lia.
  assert (Rc : 0 <= c <= 24) by lia.
  assert (Re : 0 <= e <= 4) by lia.
  rewrite date_valid_iff. unfold toordinal, ymd2ord.
  destruct (Z.eqb_spec e 4) as [He4 | He4].
  - (* 31 December of a leap year that ends a 4-year cycle *)
    cbn [orb year month day].
    assert (Hb3 : b <= 3) by lia.
    assert (Hc : c <= 23) by lia.
    set (y := a * 400 + 1 + b * 100 + c * 4 + e - 1).
    assert (Hy : y = 400 * a + 100 * b + 4 * c + 3 + 1) by (unfold y; lia).
    pose proof (dby_decomp y a b c 3 Hy) as Hd.
    pose proof (leap_decomp y a b c 3 Hy) as Hl.
    clearbody y.
    unfold days_in_month, days_before_month. rewrite Hd, Hl by lia.
    destruct (Z.eqb_spec c 24) as [? | _]; [lia | ]. calc. lia.
  - destruct (Z.eqb_spec b 4) as [Hb4 | Hb4].
    + (* 31 December of a year divisible by 400 *)
      cbn [orb year month day].
      set (y := a * 400 + 1 + b * 100 + c * 4 + e - 1).
      assert (Hy : y = 400 * a + 100 * 3 + 4 * 24 + 3 + 1) by (unfold y; lia).
      pose proof (dby_decomp y a 3 24 3 Hy) as Hd.
      pose proof (leap_decomp y a 3 24 3 Hy) as Hl.
      clearbody y.
      unfold days_in_month, days_before_month. rewrite Hd, Hl by lia.
      calc. lia.
    + cbn [orb].
      set (y := a * 400 + 1 + b * 100 + c * 4 + e).
      assert (Hy : y = 400 * a + 100 * b + 4 * c + e + 1) by (unfold y; lia).
      pose proof (dby_decomp y a b c e Hy) as Hd.
      pose proof (leap_decomp y a b c e Hy) as Hl.
      assert (Hy9 : 1 <= y <= 9999) by lia.
      clearbody y.
      set (L := (e =? 3) && (negb (c =? 24) || (b =? 3))) in *.
      clearbody L.
      rewrite Z.shiftr_div_pow2 by lia. change (2 ^ 5) with 32.
      set (m := (r4 + 50) / 32).
      assert (Bm : 32 * m <= r4 + 50 < 32 * m + 32).
      { unfold m. Z.div_mod_to_equations. lia. }
      clearbody m.
      month_cases m; destruct L; calc;
        match goal with
        | |- context [ (r4 <? ?p) ] => destruct (Z.ltb_spec r4 p)
        end;
        cbn [year month day]; unfold days_in_month, days_before_month;
        rewrite ?Hd, ?Hl by lia; calc; lia.
Qed.

Lemma dby_step (y : Z) :
  days_before_year (y + 1)
  = days_before_year y + (if is_leap y then 366 else 365).
Proof.
  unfold days_before_year, is_leap. cbv zeta.
  replace (y + 1 - 1) with y by lia.
  destruct (Z.eqb_spec (y mod 4) 0) as [H4 | H4];
    destruct (Z.eqb_spec (y mod 100) 0) as [H100 | H100];
    destruct (Z.eqb_spec (y mod 400) 0) as [H400 | H400];
    cbn [negb orb andb]; Z.div_mod_to_equations; lia.
Qed.

Lemma dby_mono (y1 y2 : Z) :
  y1 <= y2 -> days_before_year y1 <= days_before_year y2.
Proof.
  intros H. unfold days_before_year. cbv zeta.
  Z.div_mod_to_equations. lia.
Qed.

Lemma day_of_year_bound (d : date) :
  date_valid d = true ->
  1 <= days_before_month (year d) (month d) + day d
    <= (if is_leap (year d) then 366 else 365).
Proof.
  rewrite date_valid_iff. destruct d as [y m dd]. cbn [year month day].
  unfold days_in_month, days_before_month. intros (Hy & Hm & Hd).
  month_cases m; destruct (is_leap y); revert Hd; calc; lia.
Qed.

Lemma dbm_mono (y m1 m2 d1 : Z) :
  1 <= m1 -> m1 < m2 -> m2 <= 12 -> d1 <= days_in_month y m1 ->
  days_before_month y m1 + d1 <= days_before_month y m2.
Proof.
  unfold days_in_month, days_before_month. intros H1 H12 H2.
  month_cases m1; month_cases m2; try lia; destruct (is_leap y); calc; lia.
Qed.

Lemma toordinal_cmp (a b : date) :
  date_valid a = true -> date_valid b = true ->
  date_cmp a b = (toordinal a ?= toordinal b).
Proof.
  intros Va Vb.
  pose proof (day_of_year_bound a Va) as Da.
  pose proof (day_of_year_bound b Vb) as Db.
  rewrite date_valid_iff in Va, Vb.
  destruct a as [ya ma da], b as [yb mb db].
  unfold date_cmp, toordinal, ymd2ord. cbn [year month day] in *.
  destruct (Z.compare_spec ya yb) as [Ey | Ly | Ly].
  - subst yb.
    destruct (Z.compare_spec ma mb) as [Em | Lm | Lm].
    + subst mb. symmetry.
      destruct (Z.compare_spec da db) as [Ed | Ld | Ld].
      * apply Z.compare_eq_iff. lia.
      * apply Z.compare_lt_iff. lia.
      * apply Z.compare_gt_iff. lia.
    + symmetry. apply Z.compare_lt_iff.
      pose proof (dbm_mono ya ma mb da). lia.
    + symmetry. apply Z.compare_gt_iff.
      pose proof (dbm_mono ya mb ma db). lia.
  - symmetry. apply Z.compare_lt_iff.
    pose proof (dby_step ya) as Hs. pose proof (dby_mono (ya + 1) yb).
    destruct (is_leap ya); lia.
  - symmetry. apply Z.compare_gt_iff.
    pose proof (dby_step yb) as Hs. pose proof (dby_mono (yb + 1) ya).
    destruct (is_leap yb); lia.
Qed.

Lemma toordinal_bounds (d : date) :
  date_valid d = true -> 1 <= toordinal d <= MAXORDINAL.
Proof.
  intros V. pose proof (day_of_year_bound d V) as D.
  rewrite date_valid_iff in V. destruct d as [y m dd].
  unfold toordinal, ymd2ord, MAXORDINAL. cbn [year month day] in *.
  pose proof (dby_mono 1 y). pose proof (dby_step y) as Hs.
  pose proof (dby_mono (y + 1) 10000).
  change (days_before_year 1) with 0 in *.
  change (days_before_year 10000) with 3652059 in *.
  destruct (is_leap y); lia.
Qed.

Lemma date_cmp_eq (a b : date) : date_cmp a b = Eq -> a = b.
Proof.
  destruct a as [ya ma da], b as [yb mb db]. unfold date_cmp.
  cbn [year month day].
  destruct (Z.compare_spec ya yb); try discriminate.
  destruct (Z.compare_spec ma mb); try discriminate.
  destruct (Z.compare_spec da db); try discriminate.
  intros _. congruence.
Qed.

Lemma fromordinal_toordinal (d : date) :
  date_valid d = true -> fromordinal (toordinal d) = d.
Proof.
  intros V. pose proof (toordinal_bounds d V) as B.
  destruct (ord2ymd_spec (toordinal d) B) as [V' E].
  apply date_cmp_eq. unfold fromordinal.
  rewrite toordinal_cmp by assumption. rewrite E. apply Z.compare_refl.
Qed.

Lemma date_leb_ord (a b : date) :
  date_valid a = true -> date_valid b = true ->
  date_leb a b = (toordinal a <=? toordinal b).
Proof.
  intros Va Vb. unfold date_leb, Z.leb. now rewrite toordinal_cmp.
Qed.

Lemma date_ltb_ord (a b : date) :
  date_valid a = true -> date_valid b = true ->
  date_ltb a b = (toordinal a <? toordinal b).
Proof.
  intros Va Vb. unfold date_ltb, Z.ltb. now rewrite toordinal_cmp.
Qed.

Lemma toordinal_inj (a b : date) :
  date_valid a = true -> date_valid b = true ->
  toordinal a = toordinal b -> a = b.
Proof.
  intros Va Vb E. apply date_cmp_eq. rewrite toordinal_cmp by assumption.
  rewrite E. apply Z.compare_refl.
Qed.

Lemma fromordinal_valid (n : Z) :
  1 <= n <= MAXORDINAL -> date_valid (fromordinal n) = true.
Proof. intros H. apply (ord2ymd_spec n H). Qed.

Lemma toordinal_fromordinal (n : Z) :
  1 <= n <= MAXORDINAL -> toordinal (fromordinal n) = n.
Proof. intros H. apply (ord2ymd_spec n H). Qed.

Lemma date_add_in_range (d : date) (k : Z) :
  1 <= toordinal d + k <= MAXORDINAL ->
  date_add d k = Ok (fromordinal (toordinal d + k)).
Proof.
  intros H. unfold date_add.
  destruct (Z.ltb_spec 0 (toordinal d + k)); [ | lia].
  destruct (Z.leb_spec (toordinal d + k) MAXORDINAL); [ | lia].
  reflexivity.
Qed.

Lemma date_add_out_of_range (d : date) (k : Z) :
  toordinal d + k < 1 \/ MAXORDINAL < toordinal d + k ->
  date_add d k = Raise OverflowError.
Proof.
  intros H. unfold date_add.
  destruct (Z.ltb_spec 0 (toordinal d + k));
    destruct (Z.leb_spec (toordinal d + k) MAXORDINAL);
    try reflexivity; lia.
Qed.

Lemma date_add_days_in_range (d : date) (k : Z) :
  0 <= k <= 7 -> 1 <= toordinal d + k <= MAXORDINAL ->
  date_add_days d k = Ok (fromordinal (toordinal d + k)).
Proof.
  intros Hk H. unfold date_add_days, timedelta.
  destruct (Z.leb_spec (Z.abs k) 999999999); [ | lia].
  cbn [bind]. now apply date_add_in_range.
Qed.

Lemma weekday_range (d : date) : 0 <= weekday d < 7.
Proof. unfold weekday. apply Z.mod_pos_bound. lia. Qed.

Lemma weeks_upto_0 (o e : Z) : e < o -> weeks_upto o e = O.
Proof.
  unfold weeks_upto. intros H.
  destruct (Z.ltb_spec e o); try reflexivity; lia.
Qed.

Lemma weeks_upto_S (o e : Z) :
  o <= e -> weeks_upto o e = S (weeks_upto (o + 7) e).
Proof.
  unfold weeks_upto. intros H.
  destruct (Z.ltb_spec e o); [lia | ].
  destruct (Z.ltb_spec e (o + 7)).
  - assert ((e - o) / 7 = 0) as -> by (apply Z.div_small; lia). reflexivity.
  - replace (e - o) with ((e - (o + 7)) + 1 * 7) by lia.
    rewrite Z.div_add by lia.
    assert (0 <= (e - (o + 7)) / 7) by (apply Z.div_pos; lia).
    rewrite <- Z2Nat.inj_succ by lia. f_equal; lia.
Qed.

Lemma weeks_upto_bound (o e : Z) :
  o <= e -> o + 7 * Z.of_nat (weeks_upto o e) <= e + 7.
Proof.
  unfold weeks_upto. intros H. destruct (Z.ltb_spec e o); [lia | ].
  assert (0 <= (e - o) / 7) by (apply Z.div_pos; lia).
  rewrite Z2Nat.id by lia. Z.div_mod_to_equations. lia.
Qed.

Lemma in_ord_seq (o : Z) (k : nat) (x : Z) :
  In x (ord_seq o k) <->
  exists i, 0 <= i < Z.of_nat k /\ x = o + 7 * i.
Proof.
  revert o. induction k as [ | k IH]; intros o; cbn [ord_seq In].
  - split; [easy | intros (i & Hi & _); lia].
  - rewrite IH. split.
    + intros [<- | (i & Hi & ->)].
      * exists 0. lia.
      * exists (i + 1). lia.
    + intros (i & Hi & ->). destruct (Z.eq_dec i 0) as [-> | Hne].
      * left. lia.
      * right. exists (i - 1). lia.
Qed.

Lemma in_ord_seq_upto (o e x : Z) :
  In x (ord_seq o (weeks_upto o e)) <->
  o <= x <= e /\ (x - o) mod 7 = 0.
Proof.
  rewrite in_ord_seq. unfold weeks_upto.
  destruct (Z.ltb_spec e o) as [Hlt | Hle].
  - split; [intros (i & Hi & _); cbn in Hi; lia | lia].
  - assert (0 <= (e - o) / 7) by (apply Z.div_pos; lia).
    rewrite Z2Nat.id by lia. split.
    + intros (i & Hi & ->). split.
      * Z.div_mod_to_equations. lia.
      * replace (o + 7 * i - o) with (i * 7) by lia. apply Z.mod_mul. lia.
    + intros (Hx & Hm). exists ((x - o) / 7). split.
      * Z.div_mod_to_equations. lia.
      * Z.div_mod_to_equations. lia.
Qed.

Section WeeklyLoop.
Context {S : Type} (body : date -> S -> S).

(** The loop runs its body on the dates of the ordinals
    [o, o + 7, ... <= e], provided the last increment stays a date. *)
Lemma weekly_while_spec (k : nat) :
  forall (d end_ : date) (s : S) (fuel : nat),
    date_valid d = true -> date_valid end_ = true ->
    k = weeks_upto (toordinal d) (toordinal end_) ->
    toordinal d + 7 * Z.of_nat k <= MAXORDINAL ->
    (k < fuel)%nat ->
    weekly_while fuel body d end_ s
    = Ok (fold_left (fun s x => body x s)
            (map fromordinal (ord_seq (toordinal d) k)) s).
Proof.
  induction k as [ | k IH]; intros d end_ s fuel Vd Ve Hk Hmax Hfuel.
  - destruct fuel as [ | fuel]; [lia | ]. cbn [weekly_while].
    rewrite date_leb_ord by assumption.
    destruct (Z.leb_spec (toordinal d) (toordinal end_)) as [Hle | Hgt].
    + rewrite weeks_upto_S in Hk by assumption. discriminate.
    + reflexivity.
  - destruct fuel as [ | fuel]; [lia | ]. cbn [weekly_while].
    rewrite date_leb_ord by assumption.
    pose proof (toordinal_bounds d Vd) as Bd.
    destruct (Z.leb_spec (toordinal d) (toordinal end_)) as [Hle | Hgt].
    + rewrite weeks_upto_S in Hk by assumption. injection Hk as Hk.
      rewrite date_add_days_in_range by lia. cbn [bind].
      assert (B7 : 1 <= toordinal d + 7 <= MAXORDINAL) by lia.
      rewrite (IH (fromordinal (toordinal d + 7)) end_ (body d s) fuel).
      * cbn [ord_seq map fold_left].
        rewrite toordinal_fromordinal by assumption.
        rewrite fromordinal_toordinal by assumption. reflexivity.
      * now apply fromordinal_valid.
      * assumption.
      * rewrite toordinal_fromordinal by assumption. exact Hk.
      * rewrite toordinal_fromordinal by assumption. lia.
      * lia.
    + rewrite weeks_upto_0 in Hk by lia. discriminate.
Qed.
End WeeklyLoop.

Lemma date_add_days_out_of_range (d : date) (k : Z) :
  0 <= k <= 7 -> MAXORDINAL < toordinal d + k ->
  date_add_days d k = Raise OverflowError.
Proof.
  intros Hk H. unfold date_add_days, timedelta.
  destruct (Z.leb_spec (Z.abs k) 999999999); [ | lia].
  cbn [bind]. apply date_add_out_of_range. now right.
Qed.

(** The loop raises [OverflowError] when the step past its last date leaves
    the calendar. *)
Lemma weekly_while_overflow {S : Type} (body : date -> S -> S) (k : nat) :
  forall (d end_ : date) (s : S) (fuel : nat),
    date_valid d = true -> date_valid end_ = true ->
    toordinal d <= toordinal end_ ->
    k = weeks_upto (toordinal d) (toordinal end_) ->
    MAXORDINAL < toordinal d + 7 * Z.of_nat k ->
    (k < fuel)%nat ->
    weekly_while fuel body d end_ s = Raise OverflowError.
Proof.
  induction k as [ | k IH]; intros d end_ s fuel Vd Ve Hle Hk Hmax Hfuel.
  - rewrite weeks_upto_S in Hk by assumption. discriminate.
  - destruct fuel as [ | fuel]; [lia | ]. cbn [weekly_while].
    rewrite date_leb_ord by assumption.
    destruct (Z.leb_spec (toordinal d) (toordinal end_)); [ | lia].
    pose proof (toordinal_bounds d Vd) as Bd.
    rewrite weeks_upto_S in Hk by assumption. injection Hk as Hk.
    destruct (Z.le_gt_cases (toordinal d + 7) MAXORDINAL) as [Hin | Hout].
    + rewrite date_add_days_in_range by lia. cbn [bind].
      assert (B7 : 1 <= toordinal d + 7 <= MAXORDINAL) by lia.
      pose proof (toordinal_fromordinal _ B7) as T7.
      destruct (Z.le_gt_cases (toordinal d + 7) (toordinal end_))
        as [Hle' | Hgt'].
      * apply (IH (fromordinal (toordinal d + 7))); rewrite ?T7;
          try assumption; try lia.
        now apply fromordinal_valid.
      * rewrite weeks_upto_0 in Hk by lia. subst k. lia.
    + rewrite date_add_days_out_of_range by lia. reflexivity.
Qed.

Lemma weekly_fuel_enough (d end_ : date) :
  (weeks_upto (toordinal d) (toordinal end_) < weekly_fuel d end_)%nat.
Proof.
  unfold weeks_upto, weekly_fuel.
  destruct (Z.ltb_spec (toordinal end_) (toordinal d)); lia.
Qed.

Lemma next_date_for_weekday_spec (from_date : date) (w : Z) :
  date_valid from_date = true ->
  toordinal from_date + (w - weekday from_date) mod 7 <= MAXORDINAL ->
  next_date_for_weekday from_date w
  = Ok (fromordinal (toordinal from_date + (w - weekday from_date) mod 7)).
Proof.
  intros V H. unfold next_date_for_weekday.
  pose proof (toordinal_bounds from_date V).
  pose proof (Z.mod_pos_bound (w - weekday from_date) 7 ltac:(lia)).
  apply date_add_days_in_range; lia.
Qed.

Lemma fold_left_snoc {A : Type} (l acc : list A) :
  fold_left (fun out d => (out ++ [d])%list) l acc = (acc ++ l)%list.
Proof.
  revert acc. induction l as [ | x l IH]; intros acc; cbn [fold_left].
  - now rewrite app_nil_r.
  - rewrite IH, <- app_assoc. reflexivity.
Qed.

Lemma spaced7_ord_seq (k : nat) :
  forall o, 1 <= o -> o + 7 * Z.of_nat k <= MAXORDINAL + 7 ->
            spaced7 (map fromordinal (ord_seq o k)).
Proof.
  induction k as [ | k IH]; intros o Ho Hmax; [exact I | ].
  destruct k as [ | k]; [exact I | ].
  specialize (IH (o + 7) ltac:(lia) ltac:(lia)).
  cbn [ord_seq map spaced7] in *. split; [ | exact IH].
  rewrite !toordinal_fromordinal by lia. reflexivity.
Qed.

Lemma weekday_fromordinal (o : Z) :
  1 <= o <= MAXORDINAL -> weekday (fromordinal o) = (o + 6) mod 7.
Proof. intros H. unfold weekday. now rewrite toordinal_fromordinal. Qed.

Lemma date_leb_true (a b : date) :
  date_valid a = true -> date_valid b = true ->
  date_leb a b = true <-> toordinal a <= toordinal b.
Proof. intros Va Vb. rewrite date_leb_ord by assumption. apply Z.leb_le. Qed.


(** ** The structure of [build_events] *)

Lemma add_event_app r st et ad d (evs : list Event) :
  add_event r st et ad d evs = (evs ++ add_event r st et ad d [])%list.
Proof.
  unfold add_event. destruct ad; [reflexivity | ].
  destruct st, et; cbn [app]; now rewrite ?app_nil_r.
Qed.

Lemma weekly_while_app r st et ad (fuel : nat) :
  forall d end_ (evs : list Event),
    weekly_while fuel (add_event r st et ad) d end_ evs
    = (new <- weekly_while fuel (add_event r st et ad) d end_ [] ;;
       Ok (evs ++ new)%list).
Proof.
  induction fuel as [ | fuel IH]; intros d end_ evs; cbn [weekly_while].
  - reflexivity.
  - destruct (date_leb d end_); [ | cbn [bind]; now rewrite app_nil_r].
    destruct (date_add_days d 7) as [d' | e]; cbn [bind]; [ | reflexivity].
    rewrite (IH d' end_ (add_event r st et ad d evs)).
    rewrite (IH d' end_ (add_event r st et ad d [])).
    destruct (weekly_while fuel (add_event r st et ad) d' end_ []) as [new | e];
      cbn [bind]; [ | reflexivity].
    rewrite (add_event_app r st et ad d evs), <- app_assoc. reflexivity.
Qed.

Lemma fold_add_event_app r st et ad (days : list date) :
  forall evs : list Event,
    fold_left (fun evs day => add_event r st et ad day evs) days evs
    = (evs ++ flat_map (fun day => add_event r st et ad day []) days)%list.
Proof.
  induction days as [ | d days IH]; intros evs; cbn [fold_left flat_map].
  - now rewrite app_nil_r.
  - rewrite IH, (add_event_app r st et ad d evs), <- app_assoc. reflexivity.
Qed.

Lemma process_row_app today la (evs : list Event) (r : RawRow) :
  process_row today la evs r
  = (new <- row_events today la r ;; Ok (evs ++ new)%list).
Proof.
  unfold row_events, process_row.
  destruct (dict_get DOW_MAP (dow r)) as [w | ];
    [ | cbn [bind]; now rewrite app_nil_r].
  destruct (parse_time_range (time_str r)) as [[[st et] ad] | e];
    cbn [bind]; [ | reflexivity].
  destruct (parse_dateinfo (dateinfo r)) as [[[k d1] d2] | e];
    cbn [bind]; [ | reflexivity].
  assert (Hphase :
    (delta <- timedelta la ;;
     horizon <- date_add today delta ;;
     first <- next_date_for_weekday today w ;;
     weekly_while (weekly_fuel first horizon) (add_event r st et ad)
       first horizon evs)
    = (new <- (delta <- timedelta la ;;
               horizon <- date_add today delta ;;
               first <- next_date_for_weekday today w ;;
               weekly_while (weekly_fuel first horizon)
                 (add_event r st et ad) first horizon []) ;;
       Ok (evs ++ new)%list)).
  { destruct (timedelta la) as [delta | e]; cbn [bind]; [ | reflexivity].
    destruct (date_add today delta) as [horizon | e]; cbn [bind];
      [ | reflexivity].
    destruct (next_date_for_weekday today w) as [first | e]; cbn [bind];
      [ | reflexivity].
    apply weekly_while_app. }
  destruct k, d1 as [d1 | ], d2 as [d2 | ]; try exact Hphase.
  - cbn [bind]. now rewrite add_event_app.
  - cbn [bind]. now rewrite add_event_app.
  - destruct (daterange_weekly d1 d2 w) as [days | e]; cbn [bind];
      [ | reflexivity].
    rewrite !fold_add_event_app. reflexivity.
Qed.

Lemma for_rows_app today la (rows : list RawRow) :
  forall evs : list Event,
    for_rows today la rows evs
    = (new <- all_row_events today la rows ;; Ok (evs ++ new)%list).
Proof.
  induction rows as [ | r rows IH]; intros evs;
    cbn [for_rows all_row_events bind].
  - now rewrite app_nil_r.
  - rewrite process_row_app.
    destruct (row_events today la r) as [new | e]; cbn [bind];
      [ | reflexivity].
    rewrite IH.
    destruct (all_row_events today la rows) as [more | e]; cbn [bind];
      [ | reflexivity].
    now rewrite app_assoc.
Qed.

Lemma build_events_unfold today la (rows : list RawRow) :
  build_events today la rows
  = (evs <- all_row_events today la rows ;; Ok (sort_events evs)).
Proof.
  unfold build_events. rewrite for_rows_app.
  destruct (all_row_events today la rows); reflexivity.
Qed.

Lemma all_row_events_app today la (rows1 rows2 : list RawRow) :
  all_row_events today la (rows1 ++ rows2)
  = (a <- all_row_events today la rows1 ;;
     b <- all_row_events today la rows2 ;;
     Ok (a ++ b)%list).
Proof.
  induction rows1 as [ | r rows1 IH]; cbn [app all_row_events bind].
  - destruct (all_row_events today la rows2); reflexivity.
  - destruct (row_events today la r) as [new | e]; cbn [bind];
      [ | reflexivity].
    rewrite IH.
    destruct (all_row_events today la rows1) as [a | e]; cbn [bind];
      [ | reflexivity].
    destruct (all_row_events today la rows2) as [b | e]; cbn [bind];
      [ | reflexivity].
    now rewrite app_assoc.
Qed.

Lemma all_row_events_perm today la (rows rows' : list RawRow) :
  Permutation rows rows' ->
  forall evs, all_row_events today la rows = Ok evs ->
  exists evs', all_row_events today la rows' = Ok evs'
               /\ Permutation evs evs'.
Proof.
  induction 1 as [ | r l l' HP IH | r1 r2 l | l l' l'' HP1 IH1 HP2 IH2];
    intros evs Hevs.
  - exists evs. split; [assumption | apply Permutation_refl].
  - cbn [all_row_events] in *.
    destruct (row_events today la r) as [new | e]; cbn [bind] in *;
      [ | discriminate].
    destruct (all_row_events today la l) as [more | e]; cbn [bind] in *;
      [ | discriminate].
    injection Hevs as <-.
    destruct (IH more eq_refl) as (more' & -> & HP').
    exists (new ++ more')%list. cbn [bind].
    split; [reflexivity | now apply Permutation_app_head].
  - cbn [all_row_events] in *.
    destruct (row_events today la r1) as [n1 | e]; cbn [bind] in *;
      destruct (row_events today la r2) as [n2 | e']; cbn [bind] in *;
      try discriminate.
    destruct (all_row_events today la l) as [more | e]; cbn [bind] in *;
      [ | discriminate].
    injection Hevs as <-.
    exists (n1 ++ n2 ++ more)%list. split; [reflexivity | ].
    rewrite !app_assoc. apply Permutation_app_tail, Permutation_app_comm.
  - destruct (IH1 evs Hevs) as (evs1 & H1 & P1).
    destruct (IH2 evs1 H1) as (evs2 & H2 & P2).
    exists evs2. split; [assumption | now apply Permutation_trans with evs1].
Qed.

(** ** The sort by (start, title) *)

Lemma ascii_compare_lt_trans (a b c : ascii) :
  Ascii.compare a b = Lt -> Ascii.compare b c = Lt -> Ascii.compare a c = Lt.
Proof.
  unfold Ascii.compare. rewrite !N.compare_lt_iff. apply N.lt_trans.
Qed.

Lemma ascii_compare_refl (a : ascii) : Ascii.compare a a = Eq.
Proof. unfold Ascii.compare. apply N.compare_refl. Qed.

Lemma string_compare_refl (s : string) : String.compare s s = Eq.
Proof.
  induction s as [ | c s IH]; cbn [String.compare]; [reflexivity | ].
  now rewrite ascii_compare_refl.
Qed.

Lemma string_compare_lt_trans (s1 : string) :
  forall s2 s3,
    String.compare s1 s2 = Lt -> String.compare s2 s3 = Lt ->
    String.compare s1 s3 = Lt.
Proof.
  induction s1 as [ | c1 s1 IH]; intros [ | c2 s2] [ | c3 s3];
    cbn [String.compare]; try discriminate; try reflexivity.
  destruct (Ascii.compare c1 c2) eqn:E12; try discriminate;
    destruct (Ascii.compare c2 c3) eqn:E23; try discriminate; intros H1 H2.
  - apply Ascii.compare_eq_iff in E12, E23. subst.
    rewrite ascii_compare_refl. now apply IH with s2.
  - apply Ascii.compare_eq_iff in E12. subst. now rewrite E23.
  - apply Ascii.compare_eq_iff in E23. subst. now rewrite E12.
  - now rewrite (ascii_compare_lt_trans c1 c2 c3).
Qed.

Lemma key_cmp_antisym (a b : string * string) :
  key_cmp a b = CompOpp (key_cmp b a).
Proof.
  unfold key_cmp. rewrite (String.compare_antisym (fst a) (fst b)).
  destruct (String.compare (fst b) (fst a)); cbn [CompOpp];
    try reflexivity.
  apply String.compare_antisym.
Qed.

Lemma key_cmp_eq (a b : string * string) : key_cmp a b = Eq -> a = b.
Proof.
  destruct a as [a1 a2], b as [b1 b2]. unfold key_cmp. cbn [fst snd].
  destruct (String.compare a1 b1) eqn:E; try discriminate.
  intros H. apply String.compare_eq_iff in E, H. congruence.
Qed.

Lemma key_cmp_refl (a : string * string) : key_cmp a a = Eq.
Proof. unfold key_cmp. now rewrite !string_compare_refl. Qed.

Lemma key_cmp_lt_trans (a b c : string * string) :
  key_cmp a b = Lt -> key_cmp b c = Lt -> key_cmp a c = Lt.
Proof.
  destruct a as [a1 a2], b as [b1 b2], c as [c1 c2].
  unfold key_cmp. cbn [fst snd].
  destruct (String.compare a1 b1) eqn:E12; try discriminate;
    destruct (String.compare b1 c1) eqn:E23; try discriminate; intros H1 H2.
  - apply String.compare_eq_iff in E12, E23. subst.
    rewrite string_compare_refl. now apply string_compare_lt_trans with b2.
  - apply String.compare_eq_iff in E12. subst. now rewrite E23.
  - apply String.compare_eq_iff in E23. subst. now rewrite E12.
  - now rewrite (string_compare_lt_trans a1 b1 c1).
Qed.

Lemma key_le_trans (a b c : Event) : key_le a b -> key_le b c -> key_le a c.
Proof.
  unfold key_le. intros H1 H2 H3.
  rewrite key_cmp_antisym in H3.
  destruct (key_cmp (sort_key c) (sort_key a)) eqn:Hca; try discriminate.
  destruct (key_cmp (sort_key a) (sort_key b)) eqn:Hab; try congruence.
  - apply key_cmp_eq in Hab. rewrite Hab in Hca.
    rewrite key_cmp_antisym, Hca in H2. now apply H2.
  - destruct (key_cmp (sort_key b) (sort_key c)) eqn:Hbc; try congruence.
    + apply key_cmp_eq in Hbc. rewrite <- Hbc in Hca.
      rewrite key_cmp_antisym, Hca in Hab. discriminate.
    + pose proof (key_cmp_lt_trans _ _ _ Hca Hab) as Hcb.
      rewrite key_cmp_antisym, Hcb in Hbc. discriminate.
Qed.

Lemma insert_event_perm (e : Event) (l : list Event) :
  Permutation (insert_event e l) (e :: l).
Proof.
  induction l as [ | x l IH]; cbn [insert_event]; [apply Permutation_refl | ].
  destruct (key_ltb (sort_key x) (sort_key e)); [ | apply Permutation_refl].
  apply Permutation_trans with (x :: e :: l);
    [now apply perm_skip | apply perm_swap].
Qed.

Lemma sort_events_perm (l : list Event) : Permutation (sort_events l) l.
Proof.
  induction l as [ | e l IH]; cbn [sort_events]; [apply Permutation_refl | ].
  apply Permutation_trans with (e :: sort_events l);
    [apply insert_event_perm | now apply perm_skip].
Qed.

Lemma insert_event_sorted (e : Event) (l : list Event) :
  StronglySorted key_le l -> StronglySorted key_le (insert_event e l).
Proof.
  induction 1 as [ | x l Hs IH Hx]; cbn [insert_event].
  - constructor; constructor.
  - unfold key_ltb.
    destruct (key_cmp (sort_key x) (sort_key e)) eqn:Hxe.
    + assert (Hex : key_le e x).
      { unfold key_le. rewrite key_cmp_antisym, Hxe. discriminate. }
      constructor; [now constructor | ].
      constructor; [assumption | ].
      eapply Forall_impl; [ | exact Hx].
      intros y. now apply key_le_trans.
    + constructor; [assumption | ].
      rewrite Forall_forall in *. intros y Hy.
      apply (Permutation_in _ (insert_event_perm e l)) in Hy.
      destruct Hy as [<- | Hy]; [ | now apply Hx].
      unfold key_le. rewrite Hxe. discriminate.
    + assert (Hex : key_le e x).
      { unfold key_le. rewrite key_cmp_antisym, Hxe. discriminate. }
      constructor; [now constructor | ].
      constructor; [assumption | ].
      eapply Forall_impl; [ | exact Hx].
      intros y. now apply key_le_trans.
Qed.

Lemma sort_events_sorted (l : list Event) :
  StronglySorted key_le (sort_events l).
Proof.
  induction l as [ | e l IH]; cbn [sort_events]; [constructor | ].
  now apply insert_event_sorted.
Qed.

(** Sorted lists with pairwise different keys are determined by their
    elements. *)
Lemma strictly_sorted (l : list Event) :
  StronglySorted key_le l -> NoDup (map sort_key l) ->
  StronglySorted key_lt l.
Proof.
  induction 1 as [ | x l Hs IH Hx]; cbn [map]; intros Hnd; [constructor | ].
  inversion Hnd as [ | ? ? Hnotin Hnd']; subst.
  constructor; [now apply IH | ].
  rewrite Forall_forall in *. intros y Hy. specialize (Hx y Hy).
  unfold key_le, key_lt in *.
  destruct (key_cmp (sort_key x) (sort_key y)) eqn:E;
    [ | reflexivity | congruence].
  apply key_cmp_eq in E. exfalso. apply Hnotin. rewrite E.
  now apply in_map.
Qed.

Lemma key_lt_asym (a b : Event) : key_lt a b -> key_lt b a -> False.
Proof.
  unfold key_lt. intros H1 H2. rewrite key_cmp_antisym, H2 in H1.
  discriminate.
Qed.

Lemma strictly_sorted_unique (l1 : list Event) :
  forall l2,
    StronglySorted key_lt l1 -> StronglySorted key_lt l2 ->
    Permutation l1 l2 -> l1 = l2.
Proof.
  induction l1 as [ | a l1 IH]; intros l2 S1 S2 P.
  - apply Permutation_nil in P. now subst.
  - destruct l2 as [ | b l2].
    + apply Permutation_sym, Permutation_nil in P. discriminate.
    + inversion S1 as [ | ? ? S1' F1]; subst.
      inversion S2 as [ | ? ? S2' F2]; subst.
      rewrite Forall_forall in F1, F2.
      assert (Hab : a = b).
      { assert (Ha : In a (b :: l2))
          by (eapply Permutation_in; [exact P | now left]).
        assert (Hb : In b (a :: l1))
          by (eapply Permutation_in;
              [apply Permutation_sym; exact P | now left]).
        destruct Ha as [Ha | Ha]; [now symmetry | ].
        destruct Hb as [Hb | Hb]; [assumption | ].
        exfalso. apply (key_lt_asym a b); [now apply F1 | now apply F2]. }
      subst b. f_equal. apply IH; try assumption.
      now apply Permutation_cons_inv with a.
Qed.

Lemma has_key_sort_key (k : string * string) (ev : Event) :
  has_key k ev = true <-> sort_key ev = k.
Proof.
  unfold has_key, sort_key. destruct k as [k1 k2]. cbn [fst snd].
  rewrite andb_true_iff, !String.eqb_eq. split.
  - now intros [-> ->].
  - now intros [= -> ->].
Qed.

(** The insertion leaves the events of one key in their order, the new
    event before the others: it passes only events with a smaller key. *)
Lemma insert_event_ties (k : string * string) (e : Event) (l : list Event) :
  filter (has_key k) (insert_event e l) = filter (has_key k) (e :: l).
Proof.
  induction l as [ | x l IH]; cbn [insert_event]; [reflexivity | ].
  destruct (key_ltb (sort_key x) (sort_key e)) eqn:Hlt; [ | reflexivity].
  cbn [filter] in IH |- *. rewrite IH.
  destruct (has_key k x) eqn:Hx; [ | reflexivity].
  destruct (has_key k e) eqn:He; [ | reflexivity].
  apply has_key_sort_key in Hx, He. unfold key_ltb in Hlt.
  rewrite Hx, He, key_cmp_refl in Hlt. discriminate.
Qed.

(** The sort is stable. *)
Lemma sort_events_ties (k : string * string) (l : list Event) :
  filter (has_key k) (sort_events l) = filter (has_key k) l.
Proof.
  induction l as [ | e l IH]; cbn [sort_events]; [reflexivity | ].
  rewrite insert_event_ties. cbn [filter]. now rewrite IH.
Qed.

(** ** What the parsers return and what the loops preserve *)

Lemma date_add_valid (d d' : date) (k : Z) :
  date_add d k = Ok d' -> date_valid d' = true.
Proof.
  unfold date_add.
  destruct (Z.ltb_spec 0 (toordinal d + k)); cbn [andb]; [ | discriminate].
  destruct (Z.leb_spec (toordinal d + k) MAXORDINAL); [ | discriminate].
  intros [= <-]. apply fromordinal_valid. lia.
Qed.

Lemma date_add_days_valid (d d' : date) (k : Z) :
  date_add_days d k = Ok d' -> date_valid d' = true.
Proof.
  unfold date_add_days. destruct (timedelta k); cbn [bind]; [ | discriminate].
  apply date_add_valid.
Qed.

Lemma date_new_valid (y m d : Z) (x : date) :
  date_new y m d = Ok x -> date_valid x = true.
Proof.
  unfold date_new. destruct (date_valid (Date y m d)) eqn:V; [ | discriminate].
  now intros [= <-].
Qed.

Lemma strptime_dmY_valid (s : string) (d : date) :
  strptime_dmY s = Ok d -> date_valid d = true.
Proof.
  unfold strptime_dmY. destruct (re_match true STRPTIME_DMY_RE s) as [m | ];
    [ | discriminate].
  destruct (m_rest m); [ | discriminate].
  destruct (int (strip (group m 1))); cbn [bind]; [ | discriminate].
  destruct (int (group m 2)); cbn [bind]; [ | discriminate].
  destruct (int (group m 3)); cbn [bind]; [ | discriminate].
  apply date_new_valid.
Qed.

Lemma time_new_valid (h m : Z) (t : time) :
  time_new h m = Ok t -> time_valid t.
Proof.
  unfold time_new, time_valid.
  destruct (Z.leb_spec 0 h); cbn [andb]; [ | discriminate].
  destruct (Z.leb_spec h 23); cbn [andb]; [ | discriminate].
  destruct (Z.leb_spec 0 m); cbn [andb]; [ | discriminate].
  destruct (Z.leb_spec m 59); cbn [andb]; [ | discriminate].
  intros [= <-]. cbn [hour minute]. lia.
Qed.

(** What [parse_time_range] can return. *)
Lemma parse_time_range_cases (s : string) st et ad :
  parse_time_range s = Ok (st, et, ad) ->
  (st = None /\ et = None)
  \/ (ad = false /\ exists t1 t2, st = Some t1 /\ et = Some t2
                                  /\ time_valid t1 /\ time_valid t2).
Proof.
  unfold parse_time_range.
  destruct (re_match true ALLDAY_RE (normalize_space s));
    [intros [= <- <- <-]; now left | ].
  destruct (re_match true TIME_RE (normalize_space s)) as [m | ];
    [ | intros [= <- <- <-]; now left].
  cbv zeta.
  destruct (unpack2 (str_split (group m 1) ":")) as [[sh sm] | ]; cbn [bind];
    [ | discriminate].
  destruct (unpack2 (str_split (group m 2) ":")) as [[eh em] | ]; cbn [bind];
    [ | discriminate].
  destruct (time_new sh sm) as [t1 | ] eqn:E1; cbn [bind]; [ | discriminate].
  destruct (time_new eh em) as [t2 | ] eqn:E2; cbn [bind]; [ | discriminate].
  intros [= <- <- <-]. right. split; [reflexivity | ].
  exists t1, t2. repeat split; eauto using time_new_valid;
    eapply time_new_valid; eassumption.
Qed.

(** What [parse_dateinfo] can return. *)
Lemma parse_dateinfo_cases (s : string) k d1 d2 :
  parse_dateinfo s = Ok (k, d1, d2) ->
  (k = single /\ d2 = None /\ exists d, d1 = Some d /\ date_valid d = true)
  \/ (k = range /\ exists a b, d1 = Some a /\ d2 = Some b
                               /\ date_valid a = true /\ date_valid b = true)
  \/ (k = phase /\ d1 = None /\ d2 = None).
Proof.
  unfold parse_dateinfo.
  destruct (re_match false DATE_SINGLE_RE (normalize_space s)) as [m1 | ].
  - destruct (strptime_dmY (group m1 1)) as [d | ] eqn:E; cbn [bind];
      [ | discriminate].
    intros [= <- <- <-]. left. repeat split. exists d. split; [easy | ].
    now apply strptime_dmY_valid with (group m1 1).
  - destruct (re_match false DATE_RANGE_RE (normalize_space s)) as [m2 | ].
    + cbv zeta.
      destruct (strptime_dmY (group m2 2)) as [b | ] eqn:Eb; cbn [bind];
        [ | discriminate].
      destruct (strptime_dmY (group m2 1 ++ "." ++ str_of_int (year b)))
        as [a | ] eqn:Ea; cbn [bind];
        [ | discriminate].
      intros [= <- <- <-]. right. left. split; [reflexivity | ].
      exists a, b. repeat split; eauto using strptime_dmY_valid.
    + destruct (re_match true PHASE_RE (normalize_space s));
        intros [= <- <- <-]; right; right; repeat split.
Qed.

Section LoopInvariant.
Context {S : Type} (P : S -> Prop) (body : date -> S -> S).
Hypothesis body_keeps :
  forall d s, date_valid d = true -> P s -> P (body d s).

Lemma weekly_while_invariant (fuel : nat) :
  forall d end_ s s',
    date_valid d = true -> P s ->
    weekly_while fuel body d end_ s = Ok s' -> P s'.
Proof.
  induction fuel as [ | fuel IH]; intros d end_ s s' Vd Hs;
    cbn [weekly_while]; [discriminate | ].
  destruct (date_leb d end_); [ | now intros [= <-]].
  destruct (date_add_days d 7) as [d' | ] eqn:E; cbn [bind];
    [ | discriminate].
  apply IH.
  - now apply date_add_days_valid with d 7.
  - now apply body_keeps.
Qed.
End LoopInvariant.

Lemma next_date_for_weekday_valid (d f : date) (w : Z) :
  next_date_for_weekday d w = Ok f -> date_valid f = true.
Proof. unfold next_date_for_weekday. apply date_add_days_valid. Qed.

Lemma daterange_weekly_valid (start end_ : date) (w : Z) (l : list date) :
  daterange_weekly start end_ w = Ok l ->
  Forall (fun d => date_valid d = true) l.
Proof.
  unfold daterange_weekly.
  destruct (next_date_for_weekday start w) as [f | ] eqn:E; cbn [bind];
    [ | discriminate].
  apply next_date_for_weekday_valid in E.
  destruct (date_ltb f start).
  - destruct (date_add_days f 7) as [f' | ] eqn:E'; cbn [bind];
      [ | discriminate].
    apply date_add_days_valid in E'.
    apply (weekly_while_invariant (Forall (fun d => date_valid d = true)));
      try assumption; [ | constructor].
    intros d s Vd Hs. apply Forall_app. split; [assumption | ].
    now constructor.
  - cbn [bind].
    apply (weekly_while_invariant (Forall (fun d => date_valid d = true)));
      try assumption; [ | constructor].
    intros d s Vd Hs. apply Forall_app. split; [assumption | ].
    now constructor.
Qed.




Lemma build_events_inv today la rows evs :
  build_events today la rows = Ok evs ->
  exists raw, all_row_events today la rows = Ok raw
              /\ evs = sort_events raw.
Proof.
  rewrite build_events_unfold.
  destruct (all_row_events today la rows) as [raw | ]; cbn [bind];
    [ | discriminate].
  intros [= <-]. now exists raw.
Qed.


(** ** ISO texts of times compare as the times *)

(** A property checked on [0 .. n-1] holds on that range. *)
Lemma check_below (P : Z -> bool) (n : nat) :
  forallb (fun i => P (Z.of_nat i)) (seq 0 n) = true ->
  forall a, 0 <= a < Z.of_nat n -> P a = true.
Proof.
  rewrite forallb_forall. intros H a Ha.
  rewrite <- (Z2Nat.id a) by lia. apply H, in_seq. lia.
Qed.

Lemma string_compare_app_len (a b x y : string) :
  String.length a = String.length b ->
  String.compare (a ++ x) (b ++ y)
  = match String.compare a b with
    | Eq => String.compare x y
    | c => c
    end.
Proof.
  revert b. induction a as [ | c a IH]; intros [ | c' b]; cbn; try discriminate.
  - reflexivity.
  - intros [= H]. destruct (Ascii.compare c c'); try reflexivity. now apply IH.
Qed.


Lemma zfill2_length (a : Z) :
  0 <= a < 60 -> String.length (zfill 2 a) = 2%nat.
Proof.
  intros Ha.
  apply Nat.eqb_eq.
  apply (check_below (fun a => Nat.eqb (String.length (zfill 2 a)) 2) 60);
    [vm_compute; reflexivity | exact Ha].
Qed.

Lemma cmp_eqb_eq (c1 c2 : comparison) : cmp_eqb c1 c2 = true -> c1 = c2.
Proof. destruct c1, c2; easy. Qed.

Lemma zfill2_compare (a b : Z) :
  0 <= a < 60 -> 0 <= b < 60 ->
  String.compare (zfill 2 a) (zfill 2 b) = (a ?= b).
Proof.
  intros Ha Hb. apply cmp_eqb_eq.
  pose (P := fun a => forallb
    (fun j => cmp_eqb (String.compare (zfill 2 a) (zfill 2 (Z.of_nat j)))
                      (a ?= Z.of_nat j)) (seq 0 60)).
  assert (HP : P a = true)
    by (apply (check_below P 60); [vm_compute; reflexivity | exact Ha]).
  unfold P in HP.
  apply (check_below
           (fun b => cmp_eqb (String.compare (zfill 2 a) (zfill 2 b)) (a ?= b))
           60 HP b Hb).
Qed.

Lemma time_isoformat_compare (s e : time) :
  time_valid s -> time_valid e ->
  String.compare (time_isoformat s) (time_isoformat e) = time_cmp s e.
Proof.
  intros [Hsh Hsm] [Heh Hem]. unfold time_isoformat, time_cmp.
  rewrite string_compare_app_len by (rewrite !zfill2_length; lia).
  rewrite zfill2_compare by lia.
  destruct (hour s ?= hour e); try reflexivity.
  cbn [String.append String.compare]. rewrite ascii_compare_refl.
  rewrite string_compare_app_len by (rewrite !zfill2_length; lia).
  rewrite zfill2_compare by lia.
  destruct (minute s ?= minute e); reflexivity.
Qed.



(** ** The weekly loop computes the weekly expansion *)

Section WeeklyDays.
Variables (start end_ : date) (w : Z).
Hypothesis start_valid : date_valid start = true.
Hypothesis end_valid : date_valid end_ = true.
Hypothesis w_range : 0 <= w <= 6.
Hypothesis start_room : toordinal start + 6 <= MAXORDINAL.
Hypothesis end_room : toordinal end_ + 7 <= MAXORDINAL.

Let delta := (w - weekday start) mod 7.
Let o1 := toordinal start + delta.
Let k := weeks_upto o1 (toordinal end_).

Lemma weekly_delta_range : 0 <= delta < 7.
Proof. apply Z.mod_pos_bound. lia. Qed.

Lemma weekly_first_range : 1 <= o1 <= MAXORDINAL.
Proof.
  pose proof (toordinal_bounds start start_valid).
  pose proof weekly_delta_range. unfold o1. lia.
Qed.

Lemma weekly_first_weekday : (o1 + 6) mod 7 = w.
Proof. unfold o1, delta, weekday. Z.div_mod_to_equations. lia. Qed.

Lemma weekly_first :
  next_date_for_weekday start w = Ok (fromordinal o1).
Proof.
  apply next_date_for_weekday_spec; [assumption | ].
  pose proof weekly_delta_range. fold delta. lia.
Qed.

Lemma weekly_last_range : o1 + 7 * Z.of_nat k <= MAXORDINAL.
Proof.
  pose proof weekly_first_range.
  unfold k. destruct (Z.le_gt_cases o1 (toordinal end_)) as [Hle | Hgt].
  - pose proof (weeks_upto_bound o1 (toordinal end_) Hle). lia.
  - rewrite weeks_upto_0 by lia. lia.
Qed.

Lemma weekly_days_expansion :
  weekly_expansion start end_ w (weekly_days start end_ w).
Proof.
  pose proof (toordinal_bounds start start_valid) as Bs.
  pose proof (toordinal_bounds end_ end_valid) as Be.
  pose proof weekly_delta_range as Hdelta.
  pose proof weekly_first_range as B1.
  pose proof weekly_first_weekday as W1.
  pose proof weekly_last_range as Hk.
  unfold weekly_days. cbv zeta. fold delta o1 k.
  split; [ | split].
  - intros d. rewrite in_map_iff. split.
    + intros (x & <- & Hx). unfold k in Hx.
      apply in_ord_seq_upto in Hx. destruct Hx as (Hx & Hm).
      assert (Bx : 1 <= x <= MAXORDINAL) by (unfold o1 in Hx; lia).
      pose proof (fromordinal_valid x Bx) as Vx.
      pose proof (toordinal_fromordinal x Bx) as Tx.
      rewrite !date_leb_true by assumption.
      rewrite weekday_fromordinal, Tx by assumption.
      repeat split; try (unfold o1 in Hx; lia); [exact Vx | ].
      revert Hm W1. Z.div_mod_to_equations. lia.
    + intros (Vd & Hsd & Hde & Hwd).
      rewrite date_leb_true in Hsd, Hde by assumption.
      exists (toordinal d). split; [now apply fromordinal_toordinal | ].
      unfold k. apply in_ord_seq_upto.
      unfold weekday in Hwd.
      revert Hwd W1. unfold o1, delta, weekday in *.
      Z.div_mod_to_equations. lia.
  - apply spaced7_ord_seq; lia.
  - intros f Hf. destruct k as [ | k']; [discriminate | ].
    cbn [ord_seq map hd_error] in Hf. injection Hf as <-.
    split; [exact weekly_first | ].
    intros d Vd Hsd Hwd.
    rewrite date_leb_true in Hsd by assumption.
    rewrite date_leb_true by (assumption || now apply fromordinal_valid).
    rewrite toordinal_fromordinal by assumption.
    unfold weekday in Hwd.
    revert Hwd W1. unfold o1, delta, weekday in *.
    Z.div_mod_to_equations. lia.
Qed.

Lemma weekly_days_loop (S : Type) (body : date -> S -> S) (s : S) :
  weekly_while (weekly_fuel (fromordinal o1) end_) body
    (fromordinal o1) end_ s
  = Ok (fold_left (fun s x => body x s) (weekly_days start end_ w) s).
Proof.
  pose proof weekly_first_range as B1.
  pose proof weekly_last_range as Hk.
  assert (T1 : toordinal (fromordinal o1) = o1)
    by now apply toordinal_fromordinal.
  rewrite (weekly_while_spec body k).
  - now rewrite T1.
  - now apply fromordinal_valid.
  - assumption.
  - now rewrite T1.
  - now rewrite T1.
  - unfold k. rewrite <- T1 at 1. apply weekly_fuel_enough.
Qed.
End WeeklyDays.

(** ** Rows with a usable time range *)

Lemma DOW_MAP_range (k : string) (w : Z) :
  dict_get DOW_MAP k = Some w -> 0 <= w <= 6.
Proof.
  unfold DOW_MAP. cbn [dict_get].
  repeat match goal with
    | |- context [ String.eqb ?a k ] => destruct (String.eqb a k)
    end; intros [= <-]; lia.
Qed.

Lemma add_event_usable r st et ad d (evs : list Event) :
  usable (st, et, ad) ->
  add_event r st et ad d evs = (evs ++ [occurrence r (st, et, ad) d])%list.
Proof.
  unfold usable, add_event, occurrence.
  destruct ad; [destruct st, et; reflexivity | ].
  destruct st, et; easy.
Qed.

Lemma occurrence_on r tr d : event_on (occurrence r tr d) d.
Proof.
  destruct tr as [[[st | ] [et | ]] [ | ]]; cbn; try (now left).
  right. now exists st.
Qed.

Lemma sort_events_one (e : Event) : sort_events [e] = [e].
Proof. reflexivity. Qed.


(** ** Rows that are skipped *)

(** A row with an unknown weekday code is skipped before anything of it is
    parsed: the result is that of the other rows. *)
Lemma unknown_weekday_skipped today la rows1 r rows2 :
  dict_get DOW_MAP (dow r) = None ->
  build_events today la (rows1 ++ r :: rows2)
  = build_events today la (rows1 ++ rows2).
Proof.
  intros H. rewrite !build_events_unfold, !all_row_events_app.
  cbn [all_row_events]. unfold row_events at 1, process_row. rewrite H.
  cbn [bind].
  destruct (all_row_events today la rows1); cbn [bind]; [ | reflexivity].
  destruct (all_row_events today la rows2); reflexivity.
Qed.

(** X23: a row whose time text matches neither pattern adds no event,
    provided its date text and the expansion of its dates raise nothing. *)
Lemma unknown_time_skipped today la rows1 r rows2 new :
  parse_time_range (time_str r) = Ok (None, None, false) ->
  row_events today la r = Ok new ->
  new = []
  /\ build_events today la (rows1 ++ r :: rows2)
     = build_events today la (rows1 ++ rows2).
Proof.
  intros Ht Hnew.
  assert (Hnil : new = []).
  { revert Hnew. unfold row_events, process_row.
    destruct (dict_get DOW_MAP (dow r)) as [w | ]; [ | now intros [= <-]].
    rewrite Ht. cbn [bind].
    destruct (parse_dateinfo (dateinfo r)) as [[[k d1] d2] | ]; cbn [bind];
      [ | discriminate].
    assert (Hphase :
      (delta <- timedelta la ;;
       horizon <- date_add today delta ;;
       first <- next_date_for_weekday today w ;;
       weekly_while (weekly_fuel first horizon)
         (add_event r None None false) first horizon []) = Ok new ->
      new = []).
    { destruct (timedelta la) as [delta | ]; cbn [bind]; [ | discriminate].
      destruct (date_add today delta) as [horizon | ]; cbn [bind];
        [ | discriminate].
      destruct (next_date_for_weekday today w) as [first | ] eqn:E;
        cbn [bind]; [ | discriminate].
      apply next_date_for_weekday_valid in E.
      apply (weekly_while_invariant (fun evs => evs = []));
        [ | assumption | reflexivity].
      now intros d s _ ->. }
    destruct k, d1 as [d1 | ], d2 as [d2 | ]; try exact Hphase;
      try (now intros [= <-]).
    destruct (daterange_weekly d1 d2 w) as [days | ]; cbn [bind];
      [ | discriminate].
    intros [= <-]. clear Hphase.
    induction days as [ | d days IH]; [reflexivity | exact IH]. }
  split; [assumption | ]. subst new.
  rewrite !build_events_unfold, !all_row_events_app.
  cbn [all_row_events]. rewrite Hnew. cbn [bind].
  destruct (all_row_events today la rows1); cbn [bind]; [ | reflexivity].
  destruct (all_row_events today la rows2); reflexivity.
Qed.


(** ** Matching all texts of one shape at once *)

Lemma in_all_chars (c : ascii) : In c all_chars.
Proof.
  unfold all_chars. rewrite <- (ascii_nat_embedding c).
  apply in_map, in_seq. pose proof (nat_ascii_bounded c). lia.
Qed.

(** A test that holds on the 256 characters holds on every character. *)
Lemma check_chars (P : ascii -> bool) :
  forallb P all_chars = true -> forall c, P c = true.
Proof.
  rewrite forallb_forall. intros H c. apply H, in_all_chars.
Qed.

Lemma in_digit_chars (x : ascii) : is_digit x = true -> In x digit_chars.
Proof.
  revert x. 
  assert (H : forall x, implb (is_digit x)
                 (existsb (Ascii.eqb x) digit_chars) = true)
    by (apply check_chars; vm_compute; reflexivity).
  intros x Hx. specialize (H x). rewrite Hx in H. cbn [implb] in H.
  apply existsb_exists in H. destruct H as (y & Hy & E).
  apply Ascii.eqb_eq in E. now subst.
Qed.

Lemma check_digits (P : ascii -> bool) :
  forallb P digit_chars = true ->
  forall x, is_digit x = true -> P x = true.
Proof.
  rewrite forallb_forall. intros H x Hx. apply H, in_digit_chars, Hx.
Qed.

Lemma digit_not_literal (ic : bool) (c x : ascii) :
  is_digit c = false -> is_digit x = true -> char_eqb ic c x = false.
Proof.
  intros Hc Hx.
  assert (H : forall c, forallb (fun x =>
                 implb (negb (is_digit c))
                   (negb (char_eqb true c x) && negb (char_eqb false c x)))
                 digit_chars = true)
    by (apply check_chars; vm_compute; reflexivity).
  specialize (H c). rewrite forallb_forall in H.
  specialize (H x (in_digit_chars x Hx)). rewrite Hc in H. cbn in H.
  apply andb_true_iff in H. destruct H as [H1 H2].
  destruct ic; [now apply negb_true_iff in H1 | now apply negb_true_iff in H2].
Qed.

Lemma digit_not_space (x : ascii) : is_digit x = true -> is_space x = false.
Proof.
  intros H. apply negb_true_iff.
  apply (check_digits (fun x => negb (is_space x))); [reflexivity | exact H].
Qed.

Lemma digit_is_word (x : ascii) : is_digit x = true -> is_word x = true.
Proof. apply (check_digits is_word). reflexivity. Qed.

Lemma digits_env_digit (l : list ascii) :
  forallb is_digit l = true -> forall n, is_digit (digits_env l n) = true.
Proof.
  rewrite forallb_forall. intros H n. unfold digits_env.
  destruct (nth_in_or_default n l "0"%char) as [Hin | ->];
    [now apply H | reflexivity].
Qed.

Lemma symbols_respects (rho : nat -> ascii) :
  (forall n, is_digit (rho n) = true) ->
  respects (symbols rho) chars (sym_val rho).
Proof.
  intros Hrho. repeat split; cbn.
  - intros ic c [y | n]; cbn; [reflexivity | ].
    destruct (is_digit c) eqn:Hc; [reflexivity | ].
    now apply digit_not_literal.
  - intros [y | n]; cbn; [reflexivity | apply Hrho].
  - intros [y | n]; cbn; [reflexivity | apply digit_not_space, Hrho].
  - intros [y | n]; cbn; [reflexivity | apply digit_is_word, Hrho].
Qed.

Lemma flat_map_natural {A B C D : Type} (h : A -> B) (k : C -> D)
    (g : A -> list C) (g' : B -> list D) (l : list A) :
  (forall x, g' (h x) = map k (g x)) ->
  flat_map g' (map h l) = map k (flat_map g l).
Proof.
  intros H. induction l as [ | x l IH]; cbn [map flat_map]; [reflexivity | ].
  now rewrite map_app, IH, H.
Qed.

Section Natural.
Context {A B : Type} (al : alphabet A) (bl : alphabet B) (f : A -> B).
Hypothesis Hf : respects al bl f.

Lemma one_natural (p : A -> bool) (q : B -> bool) (st : mstate A) :
  (forall x, q (f x) = p x) ->
  one q (smap f st) = map (smap f) (one p st).
Proof.
  intros H. unfold one, smap. cbn [m_rest m_caps].
  destruct (m_rest st) as [ | x s]; cbn [map]; [reflexivity | ].
  rewrite H. destruct (p x); reflexivity.
Qed.

Lemma consumed_natural (st st' : mstate A) :
  consumed (smap f st) (smap f st') = map f (consumed st st').
Proof.
  unfold consumed, smap. cbn [m_rest].
  now rewrite !length_map, firstn_map.
Qed.

Lemma rep_loop_natural (stepa : mstate A -> list (mstate A))
    (stepb : mstate B -> list (mstate B)) :
  (forall st, stepb (smap f st) = map (smap f) (stepa st)) ->
  forall fuel lo hi st,
    rep_loop stepb lo hi fuel (smap f st)
    = map (smap f) (rep_loop stepa lo hi fuel st).
Proof.
  intros Hstep. induction fuel as [ | fuel IH]; intros lo hi st;
    cbn [rep_loop].
  - destruct (Nat.eqb lo 0); reflexivity.
  - assert (Hagain :
      flat_map
        (fun st' =>
           if (List.length (m_rest st') <? List.length (m_rest (smap f st)))%nat
           then rep_loop stepb (Nat.pred lo) (option_map Nat.pred hi) fuel st'
           else []) (stepb (smap f st))
      = map (smap f)
          (flat_map
             (fun st' =>
                if (List.length (m_rest st') <? List.length (m_rest st))%nat
                then rep_loop stepa (Nat.pred lo) (option_map Nat.pred hi)
                       fuel st'
                else []) (stepa st))).
    { rewrite Hstep. apply flat_map_natural. intros x.
      unfold smap at 1 2. cbn [m_rest]. rewrite !length_map.
      destruct (List.length (m_rest x) <? List.length (m_rest st))%nat;
        [apply IH | reflexivity]. }
    destruct hi as [[ | hi] | ].
    + destruct (Nat.eqb lo 0); reflexivity.
    + rewrite Hagain, map_app. destruct (Nat.eqb lo 0); reflexivity.
    + rewrite Hagain, map_app. destruct (Nat.eqb lo 0); reflexivity.
Qed.

(** The matcher commutes with a map of characters that respects the
    tests. *)
Theorem rmatch_natural (ic : bool) (r : regex) :
  forall st, rmatch bl ic r (smap f st) = map (smap f) (rmatch al ic r st).
Proof.
  destruct Hf as (His & Hdigit & Hspace & Hword & Hbetween).
  induction r as [c | | | lo hi | | | | r1 IH1 r2 IH2 | r1 IH1 r2 IH2
                 | r' IH lo hi | n r' IH]; intros st; cbn [rmatch].
  - apply one_natural. intros x. apply His.
  - apply one_natural. exact Hdigit.
  - apply one_natural. exact Hspace.
  - apply one_natural. intros x. apply Hbetween.
  - unfold smap at 1. cbn [m_prev].
    destruct (m_prev st); reflexivity.
  - unfold smap at 1. cbn [m_rest].
    destruct (m_rest st) as [ | c [ | c' s]]; cbn [map]; try reflexivity.
    rewrite His. destruct (a_is al false "010" c); reflexivity.
  - unfold smap at 1 2. cbn [m_prev m_rest].
    assert (E1 : opt_word bl (option_map f (m_prev st))
                 = opt_word al (m_prev st)).
    { destruct (m_prev st); cbn; [apply Hword | reflexivity]. }
    assert (E2 : opt_word bl (hd_error (map f (m_rest st)))
                 = opt_word al (hd_error (m_rest st))).
    { destruct (m_rest st); cbn; [reflexivity | apply Hword]. }
    rewrite E1, E2.
    destruct (xorb _ _); reflexivity.
  - rewrite IH1. now apply flat_map_natural.
  - now rewrite IH1, IH2, map_app.
  - unfold smap at 1. cbn [m_rest]. rewrite length_map.
    now apply rep_loop_natural.
  - rewrite IH, !map_map. apply map_ext. intros st'.
    cbv beta. rewrite consumed_natural. reflexivity.
Qed.
End Natural.

(** [re.match] on the text a symbolic text stands for. *)
Lemma re_match_symbolic (rho : nat -> ascii) (ic : bool) (r : regex)
    (syms : list sym) :
  (forall n, is_digit (rho n) = true) ->
  re_match ic r (string_of_list_ascii (map (sym_val rho) syms))
  = option_map (smap (sym_val rho))
      (hd_error (rmatch (symbols rho) ic r (MState None syms []))).
Proof.
  intros Hrho. unfold re_match. rewrite list_ascii_of_string_of_list_ascii.
  change (MState None (map (sym_val rho) syms) [])
    with (smap (sym_val rho) (MState None syms [])).
  rewrite (rmatch_natural (symbols rho) chars (sym_val rho)
             (symbols_respects rho Hrho)).
  now destruct (rmatch (symbols rho) ic r (MState None syms [])).
Qed.


(** ** Texts made of words, digits and separators *)

Lemma append_nil_r (s : string) : s ++ EmptyString = s.
Proof. induction s as [ | c s IH]; cbn; [reflexivity | now rewrite IH]. Qed.

Lemma append_assoc (a b c : string) : (a ++ b) ++ c = a ++ (b ++ c).
Proof. induction a as [ | x a IH]; cbn; [reflexivity | now rewrite IH]. Qed.

Lemma rev_app_spec (s acc : string) : rev_app s acc = srev s ++ acc.
Proof.
  unfold srev. revert acc.
  induction s as [ | c s IH]; intros acc; cbn [rev_app]; [reflexivity | ].
  rewrite (IH (String c acc)), (IH (String c EmptyString)), append_assoc.
  reflexivity.
Qed.

Lemma srev_cons (c : ascii) (s : string) :
  srev (String c s) = srev s ++ String c EmptyString.
Proof. unfold srev at 1. cbn [rev_app]. apply rev_app_spec. Qed.

Lemma srev_app (a b : string) : srev (a ++ b) = srev b ++ srev a.
Proof.
  induction a as [ | c a IH]; cbn [String.append].
  - now rewrite append_nil_r.
  - now rewrite !srev_cons, IH, append_assoc.
Qed.

Lemma srev_involutive (s : string) : srev (srev s) = s.
Proof.
  induction s as [ | c s IH]; [reflexivity | ].
  now rewrite srev_cons, srev_app, IH.
Qed.

Lemma no_space_app (a b : string) :
  no_space (a ++ b) = no_space a && no_space b.
Proof.
  induction a as [ | c a IH]; cbn; [reflexivity | ].
  now rewrite IH, andb_assoc.
Qed.

Lemma no_space_srev (s : string) : no_space (srev s) = no_space s.
Proof.
  induction s as [ | c s IH]; [reflexivity | ].
  rewrite srev_cons, no_space_app, IH. cbn. 
  now rewrite andb_true_r, andb_comm.
Qed.

Lemma lstrip_word (w s : string) :
  no_space w = true -> w <> EmptyString -> lstrip (w ++ s) = w ++ s.
Proof.
  destruct w as [ | c w]; [easy | ]. cbn. intros H _.
  apply andb_true_iff in H. destruct H as [H _].
  apply negb_true_iff in H. now rewrite H.
Qed.

Lemma srev_nonempty (s : string) : s <> EmptyString -> srev s <> EmptyString.
Proof.
  destruct s as [ | c s]; [easy | ]. intros _. rewrite srev_cons.
  destruct (srev s); discriminate.
Qed.

(** A text that begins and ends with a word is left alone by [strip]. *)
Lemma strip_between_words (w1 s w2 : string) :
  no_space w1 = true -> w1 <> EmptyString ->
  no_space w2 = true -> w2 <> EmptyString ->
  strip (w1 ++ s ++ w2) = w1 ++ s ++ w2.
Proof.
  intros H1 N1 H2 N2. unfold strip.
  rewrite lstrip_word by assumption.
  rewrite !srev_app, append_assoc.
  rewrite lstrip_word
    by (rewrite ?no_space_srev; auto using srev_nonempty).
  now rewrite <- append_assoc, !srev_app, !srev_involutive.
Qed.

Lemma sub_spaces_word (w s : string) (b : bool) :
  no_space w = true -> w <> EmptyString ->
  sub_spaces b (w ++ s) = w ++ sub_spaces false s.
Proof.
  intros H N. destruct w as [ | c w]; [easy | clear N].
  revert b c H. induction w as [ | c' w IH]; intros b c H; cbn in H |- *.
  - rewrite andb_true_r in H. apply negb_true_iff in H. now rewrite H.
  - apply andb_true_iff in H. destruct H as [Hc H].
    apply negb_true_iff in Hc. rewrite Hc. f_equal.
    apply (IH false c' H).
Qed.

Lemma strip_word (w : string) :
  no_space w = true -> w <> EmptyString -> strip w = w.
Proof.
  intros H N. unfold strip.
  rewrite <- (append_nil_r w) at 1. rewrite lstrip_word by assumption.
  rewrite append_nil_r. rewrite <- (append_nil_r (srev w)).
  rewrite lstrip_word by (rewrite ?no_space_srev; auto using srev_nonempty).
  now rewrite append_nil_r, srev_involutive.
Qed.

Lemma normalize_space_word (w : string) :
  no_space w = true -> w <> EmptyString -> normalize_space w = w.
Proof.
  intros H N. unfold normalize_space.
  rewrite <- (append_nil_r w) at 1. rewrite sub_spaces_word by assumption.
  cbn [sub_spaces]. rewrite append_nil_r. now apply strip_word.
Qed.

Lemma normalize_space_two_words (w1 w2 : string) :
  no_space w1 = true -> w1 <> EmptyString ->
  no_space w2 = true -> w2 <> EmptyString ->
  normalize_space (w1 ++ " " ++ w2) = w1 ++ " " ++ w2.
Proof.
  intros H1 N1 H2 N2. unfold normalize_space.
  rewrite sub_spaces_word by assumption.
  change (" " ++ w2) with (String " " w2). cbn [sub_spaces].
  change (is_space " ") with true. cbv iota.
  rewrite <- (append_nil_r w2) at 1. rewrite sub_spaces_word by assumption.
  cbn [sub_spaces]. rewrite append_nil_r.
  change (String " " w2) with (" " ++ w2).
  now apply strip_between_words.
Qed.

Lemma all_digits_no_space (s : string) :
  all_digits s = true -> no_space s = true.
Proof.
  induction s as [ | c s IH]; cbn; [reflexivity | ].
  intros H. apply andb_true_iff in H. destruct H as [Hc H].
  now rewrite (digit_not_space c Hc), IH.
Qed.

Lemma all_digits_no_char (sep : ascii) (s : string) :
  is_digit sep = false -> all_digits s = true -> no_char sep s = true.
Proof.
  intros Hsep. induction s as [ | c s IH]; cbn; [reflexivity | ].
  intros H. apply andb_true_iff in H. destruct H as [Hc H].
  rewrite IH by assumption. rewrite andb_true_r. apply negb_true_iff.
  destruct (Ascii.eqb_spec c sep) as [-> | _]; [congruence | reflexivity].
Qed.

Lemma split_on_no_char (sep : ascii) (x s cur : string) :
  no_char sep x = true ->
  split_on sep (x ++ s) cur = split_on sep s (rev_app x cur).
Proof.
  revert cur. induction x as [ | c x IH]; intros cur; cbn; [reflexivity | ].
  intros H. apply andb_true_iff in H. destruct H as [Hc H].
  apply negb_true_iff in Hc. rewrite Hc. now apply IH.
Qed.

(** [(x + sep + y).split(sep)] is [[x, y]] when [sep] occurs neither in [x]
    nor in [y]. *)
Lemma str_split_two (sep : ascii) (x y : string) :
  no_char sep x = true -> no_char sep y = true ->
  str_split (x ++ String sep y) sep = [x; y].
Proof.
  intros Hx Hy. unfold str_split.
  rewrite split_on_no_char by assumption. cbn [split_on].
  rewrite Ascii.eqb_refl.
  rewrite <- (append_nil_r y) at 1. rewrite split_on_no_char by assumption.
  cbn [split_on]. fold (srev x). fold (srev y).
  now rewrite !srev_involutive.
Qed.

Lemma int_digits (s : string) :
  all_digits s = true -> s <> EmptyString -> int s = Ok (digits_val s 0).
Proof.
  intros H N. unfold int. destruct s; [easy | ]. now rewrite H.
Qed.

Lemma unpack2_clock (h m : string) :
  all_digits h = true -> h <> EmptyString ->
  all_digits m = true -> m <> EmptyString ->
  unpack2 (str_split (h ++ String ":" m) ":")
  = Ok (digits_val h 0, digits_val m 0).
Proof.
  intros Hh Nh Hm Nm.
  rewrite str_split_two by (apply all_digits_no_char; easy).
  unfold unpack2. now rewrite !int_digits by assumption.
Qed.

(** ** Texts of the two time forms *)

Lemma lower_preimage (x c : ascii) :
  lower x = c -> In x (case_preimage c).
Proof.
  intros H. apply filter_In. split; [apply in_all_chars | ].
  now apply Ascii.eqb_eq.
Qed.

(** Splits a text known up to the case of its letters into the texts it can
    be. *)
Ltac explode_nocase s H :=
  repeat (destruct s as [ | ?x s]; cbn [slower] in H;
          [try discriminate H
          | try discriminate H;
            let Hc := fresh "Hc" in
            injection H as Hc H; apply lower_preimage in Hc;
            vm_compute in Hc;
            repeat match type of Hc with
              | _ \/ _ => destruct Hc as [<- | Hc]
              | False => destruct Hc
              end]).

Ltac sym_of c vars n :=
  lazymatch vars with
  | c :: _ => constr:(Var n)
  | _ :: ?vars' => sym_of c vars' (S n)
  | _ => constr:(Lit c)
  end.

Ltac syms_of s vars :=
  lazymatch s with
  | String ?c ?s' =>
      let x := sym_of c vars O in
      let l := syms_of s' vars in
      constr:(x :: l)
  | EmptyString => constr:(@nil sym)
  end.

(** Evaluates [re_match ic r s] for a text [s] whose characters are literals
    or the digits [vars]. *)
Ltac sym_match vars Hvars :=
  match goal with
  | |- context [ re_match ?ic ?r ?s ] =>
      let l := syms_of s vars in
      change (re_match ic r s)
        with (re_match ic r
                (string_of_list_ascii (map (sym_val (digits_env vars)) l)));
      rewrite (re_match_symbolic (digits_env vars) ic r l
                 (digits_env_digit vars Hvars));
      let v := eval vm_compute in
        (option_map (smap (sym_val (digits_env vars)))
           (hd_error (rmatch (symbols (digits_env vars)) ic r
                        (MState None l []))))
      in
      change (option_map (smap (sym_val (digits_env vars)))
                (hd_error (rmatch (symbols (digits_env vars)) ic r
                             (MState None l []))))
        with v
  end.

Ltac digit_vars :=
  let rec go acc :=
    match goal with
    | H : is_digit ?x = true |- _ =>
        lazymatch acc with
        | context [x] => fail
        | _ => go (x :: acc)
        end
    | _ => acc
    end in
  go (@nil ascii).

Lemma digits_val_nonneg (s : string) :
  forall acc, 0 <= acc -> all_digits s = true -> 0 <= digits_val s acc.
Proof.
  induction s as [ | c s IH]; intros acc Hacc; cbn [all_digits digits_val];
    [easy | ].
  intros H. apply andb_true_iff in H. destruct H as [Hc H].
  apply IH; [ | assumption].
  assert (0 <= digit_val c); [ | lia].
  apply Z.leb_le.
  apply (check_digits (fun c => 0 <=? digit_val c)); [reflexivity | exact Hc].
Qed.

Ltac text_shape s Hlen Hdig :=
  repeat (destruct s as [ | ?x s]; cbn [String.length] in Hlen;
          try (exfalso; lia));
  cbn [all_digits] in Hdig; rewrite ?andb_true_r in Hdig.

Lemma timed_text_match (h1 m1 h2 m2 u : string) :
  hour_text h1 -> minute_text m1 -> hour_text h2 -> minute_text m2 ->
  eq_nocase u "Uhr" ->
  let s := h1 ++ ":" ++ m1 ++ "-" ++ h2 ++ ":" ++ m2 ++ " " ++ u in
  normalize_space s = s
  /\ re_match true ALLDAY_RE s = None
  /\ exists m, re_match true TIME_RE s = Some m
               /\ group m 1 = h1 ++ ":" ++ m1
               /\ group m 2 = h2 ++ ":" ++ m2.
Proof.
  intros (L1 & D1 & _) (L2 & D2 & _) (L3 & D3 & _) (L4 & D4 & _) Hu s.
  unfold eq_nocase in Hu. cbn [slower] in Hu.
  change (lower "U") with "u"%char in Hu.
  change (lower "h") with "h"%char in Hu.
  change (lower "r") with "r"%char in Hu.
  split.
  - set (W := h1 ++ ":" ++ m1 ++ "-" ++ h2 ++ ":" ++ m2).
    assert (E : s = W ++ " " ++ u).
    { unfold s, W. now rewrite !append_assoc. }
    rewrite E. apply normalize_space_two_words.
    + unfold W. rewrite !no_space_app.
      rewrite (all_digits_no_space h1), (all_digits_no_space m1),
        (all_digits_no_space h2), (all_digits_no_space m2) by assumption.
      reflexivity.
    + unfold W. destruct h1; [destruct L1; discriminate | discriminate].
    + explode_nocase u Hu; reflexivity.
    + destruct u; discriminate.
  - destruct L1 as [L1 | L1], L3 as [L3 | L3];
      text_shape h1 L1 D1; text_shape m1 L2 D2;
      text_shape h2 L3 D3; text_shape m2 L4 D4;
      explode_nocase u Hu; subst s; cbn [String.append];
      repeat match goal with
        | H : _ && _ = true |- _ => apply andb_true_iff in H; destruct H
        end.
    all: let vars := digit_vars in
         assert (Hvars : forallb is_digit vars = true)
           by (cbn [forallb];
               repeat match goal with
                 | H : is_digit ?x = true |- _ => rewrite H
                 end; reflexivity);
         split;
         [ sym_match vars Hvars; reflexivity
         | eexists; split;
           [ sym_match vars Hvars; reflexivity
           | split; reflexivity ] ].
Qed.

Lemma time_new_ok (h m : Z) :
  0 <= h <= 23 -> 0 <= m <= 59 -> time_new h m = Ok (Time h m).
Proof.
  intros Hh Hm. unfold time_new.
  destruct (Z.leb_spec 0 h); [ | lia]. destruct (Z.leb_spec h 23); [ | lia].
  destruct (Z.leb_spec 0 m); [ | lia]. destruct (Z.leb_spec m 59); [ | lia].
  reflexivity.
Qed.

Lemma hour_text_nonempty (h : string) : hour_text h -> h <> EmptyString.
Proof. intros ([L | L] & _) ->; discriminate. Qed.

Lemma minute_text_nonempty (m : string) : minute_text m -> m <> EmptyString.
Proof. intros (L & _) ->; discriminate. Qed.

Lemma in_case_variants (s : string) : In s (case_variants (slower s)).
Proof.
  induction s as [ | c s IH]; cbn [slower case_variants]; [now left | ].
  apply in_flat_map. exists c. split.
  - now apply lower_preimage.
  - now apply in_map.
Qed.

Lemma parse_all_day_text (s : string) :
  all_day_text s -> parse_time_range s = Ok (None, None, true).
Proof.
  unfold all_day_text, eq_nocase. intros H.
  assert (Hall : forallb (fun s => is_all_day (parse_time_range s))
                   (case_variants (slower "ganzer Tag")) = true)
    by (vm_compute; reflexivity).
  rewrite forallb_forall in Hall. specialize (Hall s).
  rewrite <- H in Hall. specialize (Hall (in_case_variants s)).
  destruct (parse_time_range s) as [[[[t1 | ] [t2 | ]] [ | ]] | e];
    try discriminate Hall. reflexivity.
Qed.


(** ** Texts of the range form *)

Lemma found_eq_dec (x y : option (mstate sym)) : {x = y} + {x <> y}.
Proof.
  repeat decide equality.
Defined.

Section Strptime.
Variable rho : nat -> ascii.
Hypothesis rho_digit : forall n, is_digit (rho n) = true.

Lemma strptime_pattern_check :
  forallb (fun a => forallb (fun b => forallb (fun c => forallb (fun d =>
    if found_eq_dec
         (hd_error (rmatch (symbols rho) true STRPTIME_DMY_RE
                      (MState None (strptime_syms a b c d) [])))
         (strptime_found a b c d)
    then true else false)
    digit_chars) digit_chars) digit_chars) digit_chars = true.
Proof. vm_compute. reflexivity. Qed.
End Strptime.

Ltac digit_rw :=
  repeat match goal with
    | H : is_digit ?x = true |- _ => rewrite H
    end.

Lemma days_in_month_le (y m : Z) :
  1 <= m <= 12 -> days_in_month y m <= 31.
Proof.
  intros Hm. unfold days_in_month.
  month_cases m; destruct (is_leap y); calc; lia.
Qed.

Lemma date_new_out_of_range (y m d : Z) :
  (1 <=? d) && (d <=? 31) && (1 <=? m) && (m <=? 12) = false ->
  date_new y m d = Raise ValueError.
Proof.
  intros H. unfold date_new.
  destruct (date_valid (Date y m d)) eqn:V; [ | reflexivity].
  apply date_valid_iff in V. cbn [year month day] in V.
  pose proof (days_in_month_le y m ltac:(lia)).
  destruct (Z.leb_spec 1 d); [ | lia]. destruct (Z.leb_spec d 31); [ | lia].
  destruct (Z.leb_spec 1 m); [ | lia]. destruct (Z.leb_spec m 12); [ | lia].
  discriminate H.
Qed.

(** [strptime] on a text [ab.cd.efgh] of digits: the date of its fields. *)
Lemma strptime_dmY_digits (a b c d e f g h : ascii) :
  forallb is_digit [a; b; c; d; e; f; g; h] = true ->
  strptime_dmY
    (String a (String b (String "." (String c (String d (String "."
       (String e (String f (String g (String h EmptyString))))))))))
  = date_new
      (digits_val (String e (String f (String g (String h EmptyString)))) 0)
      (digits_val (String c (String d EmptyString)) 0)
      (digits_val (String a (String b EmptyString)) 0).
Proof.
  intros H. cbn [forallb] in H.
  repeat (apply andb_true_iff in H; destruct H as [?H H]). clear H.
  set (vars := [e; f; g; h]).
  assert (Hvars : forallb is_digit vars = true)
    by (cbn [forallb vars]; digit_rw; reflexivity).
  pose proof (strptime_pattern_check (digits_env vars)) as Hc.
  rewrite forallb_forall in Hc.
  specialize (Hc a ltac:(now apply in_digit_chars)).
  rewrite forallb_forall in Hc.
  specialize (Hc b ltac:(now apply in_digit_chars)).
  rewrite forallb_forall in Hc.
  specialize (Hc c ltac:(now apply in_digit_chars)).
  rewrite forallb_forall in Hc.
  specialize (Hc d ltac:(now apply in_digit_chars)).
  destruct (found_eq_dec _ _) as [Hfound | ] in Hc; [clear Hc | discriminate].
  unfold strptime_dmY.
  change (String a (String b (String "." (String c (String d (String "."
            (String e (String f (String g (String h EmptyString))))))))))
    with (string_of_list_ascii
            (map (sym_val (digits_env vars)) (strptime_syms a b c d))).
  rewrite (re_match_symbolic _ _ _ _ (digits_env_digit vars Hvars)), Hfound.
  unfold strptime_found.
  destruct (day_month_ok a b c d) eqn:Hok; cbn [option_map].
  - cbv beta iota zeta delta
        [smap group lookup_group m_caps m_rest m_prev map fst snd sym_val
         digits_env vars nth Nat.eqb string_of_list_ascii].
    rewrite strip_word
      by (try discriminate; cbn [no_space];
          rewrite !digit_not_space by assumption; reflexivity).
    rewrite !int_digits
      by (try discriminate; cbn [all_digits]; digit_rw; reflexivity).
    reflexivity.
  - symmetry. apply date_new_out_of_range.
    cbn [digits_val]. rewrite !Z.mul_0_r, !Z.add_0_l. exact Hok.
Qed.

Lemma str_of_int_year (e f g h : ascii) :
  forallb is_digit [e; f; g; h] = true ->
  let Y := String e (String f (String g (String h EmptyString))) in
  1000 <= digits_val Y 0 -> str_of_int (digits_val Y 0) = Y.
Proof.
  intros H Y Hy. cbn [forallb] in H.
  repeat (apply andb_true_iff in H; destruct H as [?H H]). clear H.
  assert (Hc : forallb (fun e => forallb (fun f => forallb (fun g =>
            forallb (fun h =>
              let Y := String e (String f (String g (String h EmptyString))) in
              implb (1000 <=? digits_val Y 0)
                    (String.eqb (str_of_int (digits_val Y 0)) Y))
            digit_chars) digit_chars) digit_chars) digit_chars = true)
    by (vm_compute; reflexivity).
  rewrite forallb_forall in Hc.
  specialize (Hc e ltac:(now apply in_digit_chars)).
  rewrite forallb_forall in Hc.
  specialize (Hc f ltac:(now apply in_digit_chars)).
  rewrite forallb_forall in Hc.
  specialize (Hc g ltac:(now apply in_digit_chars)).
  rewrite forallb_forall in Hc.
  specialize (Hc h ltac:(now apply in_digit_chars)).
  cbv zeta in Hc. fold Y in Hc.
  destruct (Z.leb_spec 1000 (digits_val Y 0)); [ | lia].
  cbn [implb] in Hc. now apply String.eqb_eq.
Qed.

Lemma date_new_ok (y m d : Z) :
  date_valid (Date y m d) = true -> date_new y m d = Ok (Date y m d).
Proof. intros H. unfold date_new. now rewrite H. Qed.

Lemma range_text_match (D1 M1 D2 M2 Y : string) :
  digits_text 2 D1 -> digits_text 2 M1 -> digits_text 2 D2 ->
  digits_text 2 M2 -> digits_text 4 Y ->
  let s := D1 ++ "." ++ M1 ++ ".-" ++ D2 ++ "." ++ M2 ++ "." ++ Y in
  normalize_space s = s
  /\ re_match false DATE_SINGLE_RE s = None
  /\ exists m, re_match false DATE_RANGE_RE s = Some m
               /\ group m 1 = D1 ++ "." ++ M1
               /\ group m 2 = D2 ++ "." ++ M2 ++ "." ++ Y.
Proof.
  intros (L1 & H1) (L2 & H2) (L3 & H3) (L4 & H4) (L5 & H5) s.
  split.
  - apply normalize_space_word.
    + unfold s. rewrite !no_space_app.
      rewrite (all_digits_no_space D1), (all_digits_no_space M1),
        (all_digits_no_space D2), (all_digits_no_space M2),
        (all_digits_no_space Y) by assumption.
      reflexivity.
    + unfold s. destruct D1; discriminate.
  - text_shape D1 L1 H1; text_shape M1 L2 H2; text_shape D2 L3 H3;
      text_shape M2 L4 H4; text_shape Y L5 H5;
      subst s; cbn [String.append];
      repeat match goal with
        | H : _ && _ = true |- _ => apply andb_true_iff in H; destruct H
        end.
    let vars := digit_vars in
    assert (Hvars : forallb is_digit vars = true)
      by (cbn [forallb]; digit_rw; reflexivity);
    split;
    [ sym_match vars Hvars; reflexivity
    | eexists; split;
      [ sym_match vars Hvars; reflexivity
      | split; reflexivity ] ].
Qed.


(** ** The loop bounds suffice *)

Lemma bind_not_diverged {A B : Type} (m : result A) (k : A -> result B) :
  m <> Raise Diverged ->
  (forall a, m = Ok a -> k a <> Raise Diverged) ->
  bind m k <> Raise Diverged.
Proof.
  intros Hm Hk. destruct m as [a | e]; cbn [bind]; [now apply Hk | ].
  intros [= ->]. now apply Hm.
Qed.

Lemma timedelta_not_diverged (n : Z) : timedelta n <> Raise Diverged.
Proof. unfold timedelta. destruct (Z.abs n <=? 999999999); discriminate. Qed.

Lemma date_add_not_diverged (d : date) (k : Z) :
  date_add d k <> Raise Diverged.
Proof.
  unfold date_add.
  destruct ((0 <? toordinal d + k) && (toordinal d + k <=? MAXORDINAL));
    discriminate.
Qed.

Lemma date_add_days_not_diverged (d : date) (k : Z) :
  date_add_days d k <> Raise Diverged.
Proof.
  unfold date_add_days. apply bind_not_diverged.
  - apply timedelta_not_diverged.
  - intros a _. apply date_add_not_diverged.
Qed.

Lemma date_add_days_toordinal (d d' : date) (k : Z) :
  date_add_days d k = Ok d' -> toordinal d' = toordinal d + k.
Proof.
  unfold date_add_days, timedelta.
  destruct (Z.abs k <=? 999999999); cbn [bind]; [ | discriminate].
  unfold date_add.
  destruct (Z.ltb_spec 0 (toordinal d + k)); cbn [andb]; [ | discriminate].
  destruct (Z.leb_spec (toordinal d + k) MAXORDINAL); [ | discriminate].
  intros [= <-]. apply toordinal_fromordinal. lia.
Qed.

(** With the bound [weekly_fuel] the loop never runs out of turns. *)
Lemma weekly_while_not_diverged {S : Type} (body : date -> S -> S)
    (fuel : nat) :
  forall d end_ s,
    date_valid d = true -> date_valid end_ = true ->
    (weeks_upto (toordinal d) (toordinal end_) < fuel)%nat ->
    weekly_while fuel body d end_ s <> Raise Diverged.
Proof.
  induction fuel as [ | fuel IH]; intros d end_ s Vd Ve Hfuel; [lia | ].
  cbn [weekly_while]. rewrite date_leb_ord by assumption.
  destruct (Z.leb_spec (toordinal d) (toordinal end_)) as [Hle | Hgt];
    [ | discriminate].
  apply bind_not_diverged; [apply date_add_days_not_diverged | ].
  intros d' Hd'. apply IH.
  - now apply date_add_days_valid with d 7.
  - assumption.
  - rewrite (date_add_days_toordinal d d' 7 Hd').
    rewrite weeks_upto_S in Hfuel by assumption. lia.
Qed.

Lemma next_date_for_weekday_not_diverged (d : date) (w : Z) :
  next_date_for_weekday d w <> Raise Diverged.
Proof. apply date_add_days_not_diverged. Qed.

Lemma daterange_weekly_not_diverged (start end_ : date) (w : Z) :
  date_valid end_ = true -> daterange_weekly start end_ w <> Raise Diverged.
Proof.
  intros Ve. unfold daterange_weekly.
  apply bind_not_diverged; [apply next_date_for_weekday_not_diverged | ].
  intros f Hf. apply next_date_for_weekday_valid in Hf.
  apply bind_not_diverged.
  - destruct (date_ltb f start);
      [apply date_add_days_not_diverged | discriminate].
  - intros f' Hf'.
    assert (Vf' : date_valid f' = true).
    { destruct (date_ltb f start).
      - now apply date_add_days_valid with f 7.
      - now injection Hf' as <-. }
    apply weekly_while_not_diverged; try assumption.
    apply weekly_fuel_enough.
Qed.

Lemma int_raises (s : string) (e : exn) : int s = Raise e -> e = ValueError.
Proof.
  unfold int. destruct s; [now intros [= <-] | ].
  destruct (all_digits _); [discriminate | now intros [= <-]].
Qed.

Lemma bind_raises {A B : Type} (m : result A) (k : A -> result B)
    (P : exn -> Prop) :
  (forall e, m = Raise e -> P e) ->
  (forall a, m = Ok a -> forall e, k a = Raise e -> P e) ->
  forall e, bind m k = Raise e -> P e.
Proof.
  intros Hm Hk e. destruct m as [a | e']; cbn [bind].
  - now apply Hk.
  - intros [= <-]. now apply Hm.
Qed.

Lemma strptime_dmY_raises (s : string) (e : exn) :
  strptime_dmY s = Raise e -> e = ValueError.
Proof.
  unfold strptime_dmY. destruct (re_match true STRPTIME_DMY_RE s) as [m | ];
    [ | now intros [= <-]].
  destruct (m_rest m); [ | now intros [= <-]].
  revert e. apply bind_raises; [apply int_raises | intros d _].
  apply bind_raises; [apply int_raises | intros mo _].
  apply bind_raises; [apply int_raises | intros y _].
  intros e'. unfold date_new. destruct (date_valid _); [discriminate | ].
  now intros [= <-].
Qed.

Lemma unpack2_raises (l : list string) (e : exn) :
  unpack2 l = Raise e -> e = ValueError.
Proof.
  unfold unpack2. destruct l as [ | a [ | b [ | c l]]];
    try (now intros [= <-]).
  revert e. apply bind_raises; [apply int_raises | intros x _].
  apply bind_raises; [apply int_raises | intros y _]. discriminate.
Qed.

Lemma time_new_raises (h m : Z) (e : exn) :
  time_new h m = Raise e -> e = ValueError.
Proof.
  unfold time_new. destruct (_ && _); [discriminate | now intros [= <-]].
Qed.

(** The two parsers raise nothing but [ValueError]. *)
Lemma parse_time_range_raises_value_error (s : string) (e : exn) :
  parse_time_range s = Raise e -> e = ValueError.
Proof.
  unfold parse_time_range.
  destruct (re_match true ALLDAY_RE _); [discriminate | ].
  destruct (re_match true TIME_RE _) as [m | ]; [ | discriminate].
  cbv zeta. revert e.
  apply bind_raises; [apply unpack2_raises | intros [sh sm] _].
  apply bind_raises; [apply unpack2_raises | intros [eh em] _].
  apply bind_raises; [apply time_new_raises | intros t1 _].
  apply bind_raises; [apply time_new_raises | intros t2 _].
  discriminate.
Qed.

Lemma parse_dateinfo_raises_value_error (s : string) (e : exn) :
  parse_dateinfo s = Raise e -> e = ValueError.
Proof.
  unfold parse_dateinfo.
  destruct (re_match false DATE_SINGLE_RE _) as [m1 | ].
  - revert e. apply bind_raises; [apply strptime_dmY_raises | ].
    discriminate.
  - destruct (re_match false DATE_RANGE_RE _) as [m2 | ].
    + cbv zeta. revert e.
      apply bind_raises; [apply strptime_dmY_raises | intros b _].
      apply bind_raises; [apply strptime_dmY_raises | intros a _].
      discriminate.
    + destruct (re_match true PHASE_RE _); discriminate.
Qed.

Lemma process_row_not_diverged today la (evs : list Event) (r : RawRow) :
  process_row today la evs r <> Raise Diverged.
Proof.
  unfold process_row.
  destruct (dict_get DOW_MAP (dow r)) as [w | ]; [ | discriminate].
  apply bind_not_diverged.
  { intros H. apply parse_time_range_raises_value_error in H.
    discriminate. }
  intros [[st et] ad] _.
  apply bind_not_diverged.
  { intros H. apply parse_dateinfo_raises_value_error in H. discriminate. }
  intros [[k d1] d2] Hdi. apply parse_dateinfo_cases in Hdi.
  assert (Hphase :
    (delta <- timedelta la ;;
     horizon <- date_add today delta ;;
     first <- next_date_for_weekday today w ;;
     weekly_while (weekly_fuel first horizon) (add_event r st et ad)
       first horizon evs) <> Raise Diverged).
  { apply bind_not_diverged; [apply timedelta_not_diverged | ].
    intros delta _.
    apply bind_not_diverged; [apply date_add_not_diverged | ].
    intros horizon Hh. apply date_add_valid in Hh.
    apply bind_not_diverged; [apply next_date_for_weekday_not_diverged | ].
    intros first Hf. apply next_date_for_weekday_valid in Hf.
    apply weekly_while_not_diverged; try assumption.
    apply weekly_fuel_enough. }
  destruct Hdi as [(-> & -> & d & -> & Vd)
                  | [(-> & a & b & -> & -> & Va & Vb) | (-> & -> & ->)]].
  - discriminate.
  - apply bind_not_diverged;
      [now apply daterange_weekly_not_diverged | discriminate].
  - exact Hphase.
Qed.

(** The model is total: [build_events] returns or raises a Python
    exception; the loop bounds are never exhausted. *)
Lemma build_events_not_diverged today la (rows : list RawRow) :
  build_events today la rows <> Raise Diverged.
Proof.
  unfold build_events.
  apply bind_not_diverged; [ | discriminate].
  generalize (@nil Event).
  induction rows as [ | r rows IH]; intros evs; cbn [for_rows];
    [discriminate | ].
  apply bind_not_diverged; [apply process_row_not_diverged | ].
  intros evs' _. apply IH.
Qed.

(** ** The event invariant *)





(** ** The time parser on other texts *)

(** C2, the code at the failing input: "25:00-26:00 Uhr" is not of the form
    "<H:MM>-<H:MM> Uhr" with hours 0-23, nor "ganzer Tag", and
    [parse_time_range] raises [ValueError] on it instead of returning no
    clock times. *)
Theorem parse_time_range_raises :
  (forall t1 t2, ~ timed_text "25:00-26:00 Uhr" t1 t2)
  /\ ~ all_day_text "25:00-26:00 Uhr"
  /\ parse_time_range "25:00-26:00 Uhr" = Raise ValueError.
Proof.
  split; [ | split; [discriminate | reflexivity]].
  intros t1 t2 (h1 & m1 & h2 & m2 & u & (L1 & D1 & B1) & (L2 & D2 & B2)
                & (L3 & D3 & B3) & (L4 & D4 & B4) & Hu & E & _).
  destruct L1 as [L1 | L1]; text_shape h1 L1 D1; text_shape m1 L2 D2;
    cbn [String.append] in E.
  - injection E as E1 E. discriminate E.
  - injection E as E1 E2 E. subst. vm_compute in B1. now apply B1.
Qed.

(** Apart from such texts the parser does what C2 says: a text that matches
    neither pattern gives no clock times and no all-day flag. *)
Lemma parse_time_range_no_match (s : string) :
  re_match true ALLDAY_RE (normalize_space s) = None ->
  re_match true TIME_RE (normalize_space s) = None ->
  parse_time_range s = Ok (None, None, false).
Proof. intros H1 H2. unfold parse_time_range. now rewrite H1, H2. Qed.

(** ** Weekly expansion of a range *)

(** C4, amended: for every start date up to 9999-12-25, every end date up to
    9999-12-24 and every weekday index 0..6, [daterange_weekly] returns
    exactly the dates [d] with [start <= d <= end_] that fall on that
    weekday, in ascending order exactly seven days apart, both endpoints
    included when they fall on the weekday, and the first date returned is
    the first occurrence of the weekday on or after [start]. *)
Theorem daterange_weekly_expansion (start end_ : date) (w : Z) :
  date_valid start = true -> date_valid end_ = true -> 0 <= w <= 6 ->
  date_leb start (Date 9999 12 25) = true ->
  date_leb end_ (Date 9999 12 24) = true ->
  exists l, daterange_weekly start end_ w = Ok l
            /\ weekly_expansion start end_ w l.
Proof.
  intros Vs Ve Hw Hs He.
  rewrite date_leb_true in Hs, He by (assumption || reflexivity).
  change (toordinal (Date 9999 12 25)) with 3652053 in Hs.
  change (toordinal (Date 9999 12 24)) with 3652052 in He.
  assert (Hs6 : toordinal start + 6 <= MAXORDINAL)
    by (unfold MAXORDINAL; lia).
  assert (He7 : toordinal end_ + 7 <= MAXORDINAL)
    by (unfold MAXORDINAL; lia).
  exists (weekly_days start end_ w).
  split; [ | now apply weekly_days_expansion].
  unfold daterange_weekly.
  rewrite (weekly_first start end_ w Vs Hs6). cbn [bind].
  pose proof (weekly_first_range start end_ w Vs Hs6) as B1.
  pose proof (weekly_delta_range start end_ w) as Hd.
  rewrite date_ltb_ord by (assumption || now apply fromordinal_valid).
  rewrite toordinal_fromordinal by assumption.
  destruct (Z.ltb_spec (toordinal start + (w - weekday start) mod 7)
                       (toordinal start)) as [Hlt | _]; [lia | ].
  cbn [bind]. rewrite weekly_days_loop by assumption.
  now rewrite fold_left_snoc.
Qed.

Lemma daterange_weekly_expansion_witness :
  exists l, daterange_weekly (Date 2026 2 18) (Date 2026 5 27) 2 = Ok l
            /\ weekly_expansion (Date 2026 2 18) (Date 2026 5 27) 2 l.
Proof.
  apply daterange_weekly_expansion;
    [reflexivity | reflexivity | lia | reflexivity | reflexivity].
Defined.

(** C4 as stated fails at the end of the calendar: on the span that is the
    single day 9999-12-31, a Friday, the loop has appended that day when
    adding seven days to it raises [OverflowError]. *)
Lemma daterange_weekly_overflow :
  date_valid (Date 9999 12 31) = true
  /\ weekday (Date 9999 12 31) = 4
  /\ daterange_weekly (Date 9999 12 31) (Date 9999 12 31) 4
     = Raise OverflowError
  /\ ~ (exists l,
          daterange_weekly (Date 9999 12 31) (Date 9999 12 31) 4 = Ok l
          /\ weekly_expansion (Date 9999 12 31) (Date 9999 12 31) 4 l).
Proof.
  assert (E : daterange_weekly (Date 9999 12 31) (Date 9999 12 31) 4
              = Raise OverflowError) by (vm_compute; reflexivity).
  repeat split; try reflexivity; try exact E.
  intros (l & H & _). rewrite E in H. discriminate.
Qed.

(** ** Phase listings *)

(** C5, amended: when today plus 6 days and today plus the lookahead plus 7
    days are not after 9999-12-31 and today plus the lookahead is not before
    0001-01-01, a phase row with a recognised weekday code and a usable time
    range yields one event per week on that weekday, from the first such day
    on or after today up to and including today plus the lookahead; with
    today = 2026-01-05, lookahead 28 and the code "Mo" these are the five
    Mondays 2026-01-05 .. 2026-02-02. *)
Theorem phase_projection today la r w tr :
  date_valid today = true ->
  toordinal today + 6 <= MAXORDINAL ->
  1 <= toordinal today + la ->
  toordinal today + la + 7 <= MAXORDINAL ->
  dict_get DOW_MAP (dow r) = Some w ->
  parse_time_range (time_str r) = Ok tr ->
  usable tr ->
  parse_dateinfo (dateinfo r) = Ok (phase, None, None) ->
  (exists horizon,
      date_add today la = Ok horizon
      /\ weekly_expansion today horizon w (phase_days today la w))
  /\ (exists evs,
         build_events today la [r] = Ok evs
         /\ Permutation evs (map (occurrence r tr) (phase_days today la w)))
  /\ (forall evs,
        process_row today la evs r
        = Ok (evs ++ map (occurrence r tr) (phase_days today la w))%list)
  /\ (today = Date 2026 1 5 -> la = 28 -> dow r = "Mo" ->
      phase_days today la w
      = [Date 2026 1 5; Date 2026 1 12; Date 2026 1 19; Date 2026 1 26;
         Date 2026 2 2]).
Proof.
  intros Vt H6 H1 H7 Hw Ht Hu Hd.
  pose proof (DOW_MAP_range _ _ Hw) as Rw.
  pose proof (toordinal_bounds today Vt) as Bt.
  set (horizon := fromordinal (toordinal today + la)).
  assert (Bh : 1 <= toordinal today + la <= MAXORDINAL) by lia.
  assert (Hh : date_add today la = Ok horizon)
    by now apply date_add_in_range.
  assert (Vh : date_valid horizon = true) by now apply fromordinal_valid.
  assert (Th : toordinal horizon = toordinal today + la)
    by now apply toordinal_fromordinal.
  assert (Hrow : forall evs,
             process_row today la evs r
             = Ok (evs ++ map (occurrence r tr) (phase_days today la w))%list).
  { intros evs. unfold process_row. rewrite Hw, Ht. cbn [bind].
    destruct tr as [[st et] ad]. rewrite Hd. cbn [bind].
    unfold timedelta.
    destruct (Z.leb_spec (Z.abs la) 999999999) as [_ | Habs];
      [ | unfold MAXORDINAL in *; lia].
    cbn [bind]. rewrite Hh. cbn [bind].
    rewrite (weekly_first today horizon w Vt H6). cbn [bind].
    rewrite weekly_days_loop by (assumption || lia).
    fold horizon. unfold phase_days. fold horizon.
    generalize (weekly_days today horizon w). intros days. revert evs.
    induction days as [ | d days IH]; intros evs; cbn [fold_left map].
    - now rewrite app_nil_r.
    - rewrite IH, add_event_usable by assumption.
      now rewrite <- app_assoc. }
  split; [ | split; [ | split]].
  - exists horizon. split; [assumption | ].
    unfold phase_days. fold horizon.
    apply weekly_days_expansion; assumption || lia.
  - exists (sort_events (map (occurrence r tr) (phase_days today la w))).
    split; [ | apply sort_events_perm].
    unfold build_events. cbn [for_rows]. rewrite Hrow. reflexivity.
  - exact Hrow.
  - intros -> -> Hmo. rewrite Hmo in Hw. injection Hw as <-.
    vm_compute. reflexivity.
Qed.

Lemma phase_projection_witness :
  exists evs,
    build_events (Date 2026 1 5) 28 [monday_phase_row] = Ok evs
    /\ Permutation evs
         (map (occurrence monday_phase_row
                 (Some (Time 18 15), Some (Time 19 45), false))
              (phase_days (Date 2026 1 5) 28 0)).
Proof.
  apply (phase_projection (Date 2026 1 5) 28 monday_phase_row 0
           (Some (Time 18 15), Some (Time 19 45), false));
    try (vm_compute; reflexivity); try exact I.
  - vm_compute. discriminate.
  - vm_compute. discriminate.
  - vm_compute. discriminate.
Defined.

(** C5 as stated fails when the horizon is among the last days of the
    calendar: with today = 2026-01-05 and a lookahead of 2912438 days the
    horizon is 9999-12-31, and after the Monday 9999-12-27 the loop's step of
    seven days raises [OverflowError]. *)
Lemma phase_projection_overflow :
  date_add (Date 2026 1 5) 2912438 = Ok (Date 9999 12 31)
  /\ dict_get DOW_MAP (dow monday_phase_row) = Some 0
  /\ parse_time_range (time_str monday_phase_row)
     = Ok (Some (Time 18 15), Some (Time 19 45), false)
  /\ parse_dateinfo (dateinfo monday_phase_row) = Ok (phase, None, None)
  /\ build_events (Date 2026 1 5) 2912438 [monday_phase_row]
     = Raise OverflowError.
Proof.
  assert (Hh : date_add (Date 2026 1 5) 2912438 = Ok (Date 9999 12 31))
    by (vm_compute; reflexivity).
  assert (Ht : parse_time_range (time_str monday_phase_row)
               = Ok (Some (Time 18 15), Some (Time 19 45), false))
    by (vm_compute; reflexivity).
  assert (Hd : parse_dateinfo (dateinfo monday_phase_row)
               = Ok (phase, None, None))
    by (vm_compute; reflexivity).
  split; [exact Hh | ]. split; [reflexivity | ].
  split; [exact Ht | ]. split; [exact Hd | ].
  unfold build_events. cbn [for_rows]. unfold process_row.
  change (dict_get DOW_MAP (dow monday_phase_row)) with (Some 0).
  rewrite Ht, Hd. cbn [bind].
  change (timedelta 2912438) with (@Ok Z 2912438). cbn [bind].
  rewrite Hh. cbn [bind].
  change (next_date_for_weekday (Date 2026 1 5) 0)
    with (Ok (Date 2026 1 5)).
  cbn [bind].
  rewrite (weekly_while_overflow _
             (weeks_upto (toordinal (Date 2026 1 5))
                (toordinal (Date 9999 12 31)))).
  - reflexivity.
  - reflexivity.
  - reflexivity.
  - vm_compute. discriminate.
  - reflexivity.
  - vm_compute. reflexivity.
  - apply weekly_fuel_enough.
Qed.

(** ** The date parser on ranges *)

(** C6, amended: a date text of the form DD.MM.-DD.MM.YYYY whose year is at
    least 1000 and whose two day.month pairs are dates of that year parses
    to the range of these two dates, so the start has the year of the end;
    "18.02.-27.05.2026" gives 2026-02-18 and 2026-05-27. *)
Theorem parse_dateinfo_range s d1 m1 d2 m2 y :
  range_text s d1 m1 d2 m2 y ->
  1000 <= y ->
  date_valid (Date y m2 d2) = true ->
  date_valid (Date y m1 d1) = true ->
  parse_dateinfo s = Ok (range, Some (Date y m1 d1), Some (Date y m2 d2))
  /\ year (Date y m1 d1) = year (Date y m2 d2)
  /\ parse_dateinfo "18.02.-27.05.2026"
     = Ok (range, Some (Date 2026 2 18), Some (Date 2026 5 27)).
Proof.
  intros (D1 & M1 & D2 & M2 & Y & T1 & T2 & T3 & T4 & T5
          & -> & -> & -> & -> & -> & ->) Hy V2 V1.
  split; [ | split; reflexivity].
  destruct (range_text_match D1 M1 D2 M2 Y T1 T2 T3 T4 T5)
    as (Hn & Hs & m & Hm & G1 & G2).
  unfold parse_dateinfo. rewrite Hn, Hs, Hm. cbv zeta. rewrite G1, G2.
  destruct T1 as (L1 & H1), T2 as (L2 & H2), T3 as (L3 & H3),
           T4 as (L4 & H4), T5 as (L5 & H5).
  text_shape D1 L1 H1; text_shape M1 L2 H2; text_shape D2 L3 H3;
    text_shape M2 L4 H4; text_shape Y L5 H5.
  repeat match goal with
    | H : _ && _ = true |- _ => apply andb_true_iff in H; destruct H
    end.
  cbn [String.append].
  rewrite strptime_dmY_digits by (cbn [forallb]; digit_rw; reflexivity).
  rewrite date_new_ok by assumption. cbn [bind year].
  rewrite str_of_int_year
    by (assumption || (cbn [forallb]; digit_rw; reflexivity)).
  cbn [String.append].
  rewrite strptime_dmY_digits by (cbn [forallb]; digit_rw; reflexivity).
  rewrite date_new_ok by assumption. reflexivity.
Qed.

Lemma parse_dateinfo_range_witness :
  parse_dateinfo "29.02.-01.03.2024"
  = Ok (range, Some (Date 2024 2 29), Some (Date 2024 3 1)).
Proof.
  apply (parse_dateinfo_range "29.02.-01.03.2024" 29 2 1 3 2024).
  - exists "29", "02", "01", "03", "2024".
    repeat split; reflexivity.
  - lia.
  - reflexivity.
  - reflexivity.
Defined.

(** C6 as stated fails: "31.02.-27.05.2026" has the form DD.MM.-DD.MM.YYYY,
    and [parse_dateinfo] raises [ValueError] on it, as there is no 31st of
    February. *)
Lemma parse_dateinfo_range_invalid_day :
  range_text "31.02.-27.05.2026" 31 2 27 5 2026
  /\ parse_dateinfo "31.02.-27.05.2026" = Raise ValueError
  /\ ~ (exists a b,
          parse_dateinfo "31.02.-27.05.2026" = Ok (range, Some a, Some b)
          /\ year a = year b).
Proof.
  split; [ | split].
  - exists "31", "02", "27", "05", "2026". repeat split; reflexivity.
  - reflexivity.
  - intros (a & b & H & _). discriminate H.
Qed.

(** ** The time parser on the recognised forms *)

(** C7: a text of the form "<H:MM>-<H:MM> Uhr" (any case of the letters,
    hour 0-23, minute 0-59) parses to its two clock times with the all-day
    flag false; "ganzer Tag" (any case) parses to no clock times with the
    all-day flag true; "18:15-19:45 Uhr" gives 18:15, 19:45 and false. *)
Theorem parse_time_range_forms :
  (forall s t1 t2,
      timed_text s t1 t2 ->
      parse_time_range s = Ok (Some t1, Some t2, false))
  /\ (forall s,
        all_day_text s -> parse_time_range s = Ok (None, None, true))
  /\ parse_time_range "18:15-19:45 Uhr"
     = Ok (Some (Time 18 15), Some (Time 19 45), false)
  /\ parse_time_range "ganzer Tag" = Ok (None, None, true).
Proof.
  split; [ | split; [exact parse_all_day_text | split; reflexivity]].
  intros s t1 t2 (h1 & m1 & h2 & m2 & u & Hh1 & Hm1 & Hh2 & Hm2 & Hu
                  & -> & -> & ->).
  destruct (timed_text_match h1 m1 h2 m2 u Hh1 Hm1 Hh2 Hm2 Hu)
    as (Hn & Ha & m & Hm & G1 & G2).
  unfold parse_time_range. rewrite Hn, Ha, Hm. cbv zeta. rewrite G1, G2.
  pose proof (hour_text_nonempty _ Hh1). pose proof (hour_text_nonempty _ Hh2).
  pose proof (minute_text_nonempty _ Hm1).
  pose proof (minute_text_nonempty _ Hm2).
  destruct Hh1 as (_ & D1 & B1), Hm1 as (_ & D2 & B2),
           Hh2 as (_ & D3 & B3), Hm2 as (_ & D4 & B4).
  change (":" ++ m1) with (String ":" m1).
  change (":" ++ m2) with (String ":" m2).
  rewrite !unpack2_clock by assumption. cbn [bind].
  pose proof (digits_val_nonneg h1 0 ltac:(lia) D1).
  pose proof (digits_val_nonneg m1 0 ltac:(lia) D2).
  pose proof (digits_val_nonneg h2 0 ltac:(lia) D3).
  pose proof (digits_val_nonneg m2 0 ltac:(lia) D4).
  rewrite !time_new_ok by lia. reflexivity.
Qed.

Lemma parse_time_range_forms_witness :
  parse_time_range "8:05-21:30 uhr"
  = Ok (Some (Time 8 5), Some (Time 21 30), false)
  /\ parse_time_range "GANZER tag" = Ok (None, None, true).
Proof.
  split.
  - apply (proj1 parse_time_range_forms).
    exists "8", "05", "21", "30", "uhr".
    repeat split; try reflexivity; try (now left); try (now right);
      vm_compute; discriminate.
  - apply (proj1 (proj2 parse_time_range_forms)). reflexivity.
Defined.


(** ** Malformed rows *)

(** C8, the code at the failing inputs: the row "25:00-26:00 Uhr", whose
    time text is neither a clock-time range within 0-23 and 0-59 nor
    "ganzer Tag", makes [build_events] raise [ValueError] and so keeps the
    row next to it from producing its event; so does the row with the time
    text "nach Ansage" and the date text "31.02.2026". *)
Theorem malformed_row_blocks_the_rest :
  build_events (Date 2026 1 5) 28 [hall_row "A"] = Ok [hall_event "A"]
  /\ build_events (Date 2026 1 5) 28 [late_row; hall_row "A"]
     = Raise ValueError
  /\ parse_time_range (time_str odd_row) = Ok (None, None, false)
  /\ build_events (Date 2026 1 5) 28 [odd_row; hall_row "A"]
     = Raise ValueError.
Proof. repeat split; vm_compute; reflexivity. Qed.

Lemma unknown_weekday_skipped_example :
  build_events (Date 2026 1 5) 28 [someday_row; hall_row "A"]
  = Ok [hall_event "A"].
Proof. vm_compute. reflexivity. Qed.


(** ** The order of the result *)

(** C9, amended: the sequence [build_events] returns is sorted ascending by
    the pair (start, title), and events that tie on the pair keep the order
    of the rows; on a reordering of the rows it returns the same events,
    again sorted with the ties in the order of the reordered rows, and the
    very same sequence whenever no two events share the pair
    (start, title). *)
Theorem build_events_sorted today la rows evs :
  build_events today la rows = Ok evs ->
  StronglySorted key_le evs
  /\ ties_in_row_order today la rows evs
  /\ forall rows',
       Permutation rows rows' ->
       exists evs',
         build_events today la rows' = Ok evs'
         /\ Permutation evs evs'
         /\ StronglySorted key_le evs'
         /\ ties_in_row_order today la rows' evs'
         /\ (NoDup (map sort_key evs) -> evs' = evs).
Proof.
  intros H. apply build_events_inv in H. destruct H as (raw & Hraw & ->).
  split; [apply sort_events_sorted | ].
  split; [exists raw; split; [assumption | ];
          intros k; apply sort_events_ties | ].
  intros rows' HP.
  destruct (all_row_events_perm today la rows rows' HP raw Hraw)
    as (raw' & Hraw' & HP').
  exists (sort_events raw'). rewrite build_events_unfold, Hraw'. cbn [bind].
  assert (HPs : Permutation (sort_events raw) (sort_events raw')).
  { apply Permutation_trans with raw; [apply sort_events_perm | ].
    apply Permutation_trans with raw'; [assumption | ].
    apply Permutation_sym, sort_events_perm. }
  split; [reflexivity | ]. split; [assumption | ].
  split; [apply sort_events_sorted | ].
  split; [exists raw'; split; [exact Hraw' | ];
          intros k; apply sort_events_ties | ].
  intros Hnd. symmetry. apply strictly_sorted_unique; try assumption.
  - apply strictly_sorted; [apply sort_events_sorted | assumption].
  - apply strictly_sorted; [apply sort_events_sorted | ].
    apply (Permutation_NoDup (l := map sort_key (sort_events raw)));
      [now apply Permutation_map | assumption].
Qed.

Lemma build_events_sorted_witness :
  StronglySorted key_le [swim_event; hall_event "A"; hall_event "B"]
  /\ ties_in_row_order (Date 2026 1 5) 28
       [hall_row "A"; swim_row; hall_row "B"]
       [swim_event; hall_event "A"; hall_event "B"]
  /\ forall rows',
       Permutation [hall_row "A"; swim_row; hall_row "B"] rows' ->
       exists evs',
         build_events (Date 2026 1 5) 28 rows' = Ok evs'
         /\ Permutation [swim_event; hall_event "A"; hall_event "B"] evs'
         /\ StronglySorted key_le evs'
         /\ ties_in_row_order (Date 2026 1 5) 28 rows' evs'
         /\ (NoDup (map sort_key
                      [swim_event; hall_event "A"; hall_event "B"]) ->
             evs' = [swim_event; hall_event "A"; hall_event "B"]).
Proof.
  apply (build_events_sorted (Date 2026 1 5) 28
           [hall_row "A"; swim_row; hall_row "B"]).
  vm_compute. reflexivity.
Defined.

(** C9 as stated fails: two listings with the same start and title but
    different locations come out in the order of the rows. *)
Lemma build_events_order_dependent :
  Permutation [hall_row "A"; hall_row "B"] [hall_row "B"; hall_row "A"]
  /\ build_events (Date 2026 1 5) 28 [hall_row "A"; hall_row "B"]
     = Ok [hall_event "A"; hall_event "B"]
  /\ build_events (Date 2026 1 5) 28 [hall_row "B"; hall_row "A"]
     = Ok [hall_event "B"; hall_event "A"]
  /\ hall_event "A" <> hall_event "B".
Proof.
  repeat split; try (vm_compute; reflexivity); [apply perm_swap | ].
  intros H. discriminate H.
Qed.

(** ** Single dates *)

(** C10: a row with a recognised weekday code, a date text that parses as
    [Single(d)] and a usable time range yields exactly one event, dated [d],
    whatever the weekday of [d] is: the weekday code is not compared with
    the date. *)
Theorem single_date_one_event today la r w tr d :
  dict_get DOW_MAP (dow r) = Some w ->
  parse_dateinfo (dateinfo r) = Ok (single, Some d, None) ->
  parse_time_range (time_str r) = Ok tr ->
  usable tr ->
  event_on (occurrence r tr d) d
  /\ build_events today la [r] = Ok [occurrence r tr d]
  /\ forall evs,
       process_row today la evs r = Ok (evs ++ [occurrence r tr d])%list.
Proof.
  intros Hw Hd Ht Hu.
  assert (Hrow : forall evs,
             process_row today la evs r
             = Ok (evs ++ [occurrence r tr d])%list).
  { intros evs. unfold process_row. rewrite Hw, Ht. cbn [bind].
    destruct tr as [[st et] ad]. rewrite Hd. cbn [bind].
    now rewrite add_event_usable. }
  split; [apply occurrence_on | ]. split; [ | exact Hrow].
  unfold build_events. cbn [for_rows]. rewrite Hrow. reflexivity.
Qed.

Lemma single_date_one_event_witness :
  weekday (Date 2026 1 5) = 0
  /\ dict_get DOW_MAP (dow tuesday_row) = Some 1
  /\ build_events (Date 2026 3 1) 28 [tuesday_row]
     = Ok [occurrence tuesday_row
             (Some (Time 18 15), Some (Time 19 45), false) (Date 2026 1 5)].
Proof.
  split; [reflexivity | ]. split; [reflexivity | ].
  apply (single_date_one_event (Date 2026 3 1) 28 tuesday_row 1
           (Some (Time 18 15), Some (Time 19 45), false) (Date 2026 1 5));
    [reflexivity | vm_compute; reflexivity | vm_compute; reflexivity
    | exact I].
Defined.


(* ================================================================== *)
(** * The matcher is sound for the relations of the patterns *)

Lemma one_reaches (p : ascii -> bool) st st' :
  In st' (one p st) ->
  reaches (fun w cs => cs = [] /\ exists x, w = [x] /\ p x = true) st st'.
Proof.
  unfold one. destruct (m_rest st) as [ | x s'] eqn:E; [easy | ].
  destruct (p x) eqn:Hp; [ | easy].
  intros [<- | []]. exists [x], []. cbn. repeat split; eauto.
Qed.

Lemma consumed_app (st st' : mstate ascii) w :
  m_rest st = (w ++ m_rest st')%list -> consumed st st' = w.
Proof.
  intros E. unfold consumed. rewrite E, length_app.
  replace (List.length w + List.length (m_rest st') - List.length (m_rest st'))%nat
    with (List.length w + 0)%nat by lia.
  rewrite firstn_app_2. cbn. apply app_nil_r.
Qed.

Lemma turns_of_nil L hi : turns_of L 0 hi [] [].
Proof. exists []. cbn. repeat split; auto. intros. lia. Qed.

Lemma turns_of_cons L lo hi w1 c1 w c :
  hi <> Some 0%nat ->
  L w1 c1 -> turns_of L (Nat.pred lo) (option_map Nat.pred hi) w c ->
  turns_of L lo hi (w1 ++ w)%list (c ++ c1)%list.
Proof.
  intros Hhi H1 (turns & -> & -> & HF & Hlo & Hhi').
  exists ((w1, c1) :: turns). cbn. repeat split.
  - rewrite List.concat_app. cbn. now rewrite app_nil_r.
  - now constructor.
  - lia.
  - intros h ->. specialize (Hhi' (Nat.pred h) eq_refl).
    destruct h; [congruence | cbn in Hhi'; lia].
Qed.

Lemma reaches_refl (L : list ascii -> captures_t -> Prop) st :
  L [] [] -> reaches L st st.
Proof. intros H. now exists [], []. Qed.

Lemma reaches_trans (L1 L2 L : list ascii -> captures_t -> Prop) st1 st2 st3 :
  (forall w1 c1 w2 c2, L1 w1 c1 -> L2 w2 c2 -> L (w1 ++ w2)%list (c2 ++ c1)%list) ->
  reaches L1 st1 st2 -> reaches L2 st2 st3 -> reaches L st1 st3.
Proof.
  intros HL (w1 & c1 & E1 & F1 & H1) (w2 & c2 & E2 & F2 & H2).
  exists (w1 ++ w2)%list, (c2 ++ c1)%list. repeat split.
  - now rewrite E1, E2, app_assoc.
  - now rewrite F2, F1, app_assoc.
  - now apply HL.
Qed.

Lemma rep_loop_reaches (step : mstate ascii -> list (mstate ascii)) L
    (Hstep : forall st st', In st' (step st) -> reaches L st st') (fuel : nat) :
  forall lo hi st st',
    In st' (rep_loop step lo hi fuel st) ->
    reaches (turns_of L lo hi) st st'.
Proof.
  assert (Hstop : forall lo hi st st',
    In st' (if Nat.eqb lo 0 then [st] else []) ->
    reaches (turns_of L lo hi) st st').
  { intros lo hi st st'. destruct lo; [ | easy]. intros [<- | []].
    apply reaches_refl, turns_of_nil. }
  induction fuel as [ | fuel IH]; intros lo hi st st'; cbn [rep_loop].
  - apply Hstop.
  - destruct hi as [[ | h] | ]; [apply Hstop | | ].
    all: intros H; apply in_app_or in H; destruct H as [H | H];
      [ | now apply Hstop].
    all: apply in_flat_map in H; destruct H as (st1 & H1 & H);
      destruct (_ <? _)%nat; [ | easy];
      apply IH in H; apply Hstep in H1;
      eapply reaches_trans; [ | exact H1 | exact H];
      intros; apply turns_of_cons; try easy.
Qed.

Lemma rmatch_captures ic r :
  forall st st', In st' (rmatch chars ic r st) -> reaches (captures ic r) st st'.
Proof.
  induction r as [c | | | lo hi | | | | r1 IH1 r2 IH2 | r1 IH1 r2 IH2
                  | r IH lo hi | n r IH]; intros st st'; cbn [rmatch captures].
  - apply one_reaches.
  - apply one_reaches.
  - apply one_reaches.
  - apply one_reaches.
  - destruct (m_prev st); [easy | ]. intros [<- | []]. now apply reaches_refl.
  - destruct (m_rest st) as [ | c [ | ]]; [ | destruct (a_is _ _ _ _) | ];
      try easy; intros [<- | []]; now apply reaches_refl.
  - destruct (xorb _ _); [ | easy]. intros [<- | []]. now apply reaches_refl.
  - intros H. apply in_flat_map in H. destruct H as (st1 & H1 & H2).
    apply IH1 in H1. apply IH2 in H2.
    eapply reaches_trans; [ | exact H1 | exact H2].
    intros w1 c1 w2 c2 ? ?. now exists w1, w2, c1, c2.
  - intros H. apply in_app_or in H. destruct H as [H | H].
    + apply IH1 in H. destruct H as (w & cs & ? & ? & ?).
      exists w, cs. repeat split; auto.
    + apply IH2 in H. destruct H as (w & cs & ? & ? & ?).
      exists w, cs. repeat split; auto.
  - intros H. apply rep_loop_reaches with (L := captures ic r) in H; auto.
  - intros H. apply in_map_iff in H. destruct H as (st1 & <- & H).
    apply IH in H. destruct H as (w & cs & E & F & H).
    exists w, ((n, w) :: cs). cbn. repeat split; auto.
    + now rewrite (consumed_app _ _ _ E), F.
    + now exists cs.
Qed.

Lemma lazy_loop_reaches (step : mstate ascii -> list (mstate ascii)) L
    (Hstep : forall st st', In st' (step st) -> reaches L st st') (fuel : nat) :
  forall lo st st',
    In st' (lazy_loop step lo fuel st) ->
    reaches (turns_of L lo None) st st'.
Proof.
  assert (Hstop : forall lo st st',
    In st' (if Nat.eqb lo 0 then [st] else []) ->
    reaches (turns_of L lo None) st st').
  { intros lo st st'. destruct lo; [ | easy]. intros [<- | []].
    apply reaches_refl, turns_of_nil. }
  induction fuel as [ | fuel IH]; intros lo st st'; cbn [lazy_loop].
  - apply Hstop.
  - intros H; apply in_app_or in H; destruct H as [H | H];
      [now apply Hstop | ].
    apply in_flat_map in H; destruct H as (st1 & H1 & H);
      destruct (_ <? _)%nat; [ | easy];
      apply IH in H; apply Hstep in H1;
      eapply reaches_trans; [ | exact H1 | exact H];
      intros; apply turns_of_cons; try easy.
Qed.

Lemma line_rmatch_captures r :
  forall st st', In st' (line_rmatch r st) -> reaches (line_captures r) st st'.
Proof.
  induction r as [r | | r1 IH1 r2 IH2 | r IH | r IH | r IH | n r IH];
    intros st st'; cbn [line_rmatch line_captures].
  - apply rmatch_captures.
  - apply one_reaches.
  - intros H. apply in_flat_map in H. destruct H as (st1 & H1 & H2).
    apply IH1 in H1. apply IH2 in H2.
    eapply reaches_trans; [ | exact H1 | exact H2].
    intros w1 c1 w2 c2 ? ?. now exists w1, w2, c1, c2.
  - intros H. apply lazy_loop_reaches with (L := line_captures r) in H; auto.
  - intros H. apply rep_loop_reaches with (L := line_captures r) in H; auto.
  - intros H. apply in_app_or in H. destruct H as [H | [<- | []]].
    + apply IH in H. destruct H as (w & cs & ? & ? & ?).
      exists w, cs. repeat split; auto.
    + apply reaches_refl. now right.
  - intros H. apply in_map_iff in H. destruct H as (st1 & <- & H).
    apply IH in H. destruct H as (w & cs & E & F & H).
    exists w, ((n, w) :: cs). cbn. repeat split; auto.
    + now rewrite (consumed_app _ _ _ E), F.
    + now exists cs.
Qed.

(** What a match of a whole text gives. *)
Lemma re_match_captures ic r s m :
  re_match ic r s = Some m ->
  exists w cs, list_ascii_of_string s = (w ++ m_rest m)%list
               /\ m_caps m = cs /\ captures ic r w cs.
Proof.
  unfold re_match. intros H.
  destruct (rmatch chars ic r _) as [ | m' l] eqn:E; [discriminate | ].
  injection H as ->.
  assert (Hin : In m (rmatch chars ic r (MState None (list_ascii_of_string s) [])))
    by (rewrite E; now left).
  apply rmatch_captures in Hin. destruct Hin as (w & cs & E1 & E2 & H).
  cbn in E1, E2. rewrite app_nil_r in E2. now exists w, cs.
Qed.

Lemma line_match_captures r s m :
  line_match r s = Some m ->
  exists w cs, list_ascii_of_string s = (w ++ m_rest m)%list
               /\ m_caps m = cs /\ line_captures r w cs.
Proof.
  unfold line_match. intros H.
  destruct (line_rmatch r _) as [ | m' l] eqn:E; [discriminate | ].
  injection H as ->.
  assert (Hin : In m (line_rmatch r (MState None (list_ascii_of_string s) [])))
    by (rewrite E; now left).
  apply line_rmatch_captures in Hin. destruct Hin as (w & cs & E1 & E2 & H).
  cbn in E1, E2. rewrite app_nil_r in E2. now exists w, cs.
Qed.

(* ================================================================== *)
(** * [strip] and [normalize_space] *)

Lemma lstrip_app (x y : string) :
  lstrip (x ++ y) = if all_space x then lstrip y else lstrip x ++ y.
Proof.
  induction x as [ | c x IH]; cbn; [reflexivity | ].
  destruct (is_space c); cbn; [exact IH | reflexivity].
Qed.

Lemma all_space_app (x y : string) :
  all_space (x ++ y) = all_space x && all_space y.
Proof.
  induction x as [ | c x IH]; cbn; [reflexivity | ].
  now rewrite IH, andb_assoc.
Qed.

Lemma all_space_srev (s : string) : all_space (srev s) = all_space s.
Proof.
  induction s as [ | c s IH]; [reflexivity | ].
  rewrite srev_cons, all_space_app, IH. cbn.
  now rewrite andb_true_r, andb_comm.
Qed.

Lemma rstrip_empty (s : string) :
  rstrip s = EmptyString <-> all_space s = true.
Proof.
  induction s as [ | c s IH]; cbn; [easy | ].
  destruct (rstrip s) as [ | x t].
  - destruct (is_space c); cbn; [ | easy].
    split; [intros _; now apply IH | easy].
  - split; [easy | ]. intros H. apply andb_true_iff in H.
    destruct H as [_ H]. apply IH in H. discriminate.
Qed.

Lemma all_space_lstrip (s : string) :
  all_space s = true -> lstrip s = EmptyString.
Proof.
  induction s as [ | c s IH]; cbn; [easy | ].
  destruct (is_space c); cbn; [exact IH | easy].
Qed.

Lemma srev_lstrip_srev (s : string) : srev (lstrip (srev s)) = rstrip s.
Proof.
  induction s as [ | c s IH]; [reflexivity | ].
  rewrite srev_cons, lstrip_app, all_space_srev. cbn [rstrip].
  destruct (all_space s) eqn:E.
  - apply rstrip_empty in E. rewrite E. cbn. destruct (is_space c); reflexivity.
  - rewrite srev_app, IH. cbn.
    destruct (rstrip s) eqn:R; [ | reflexivity].
    apply rstrip_empty in R. congruence.
Qed.

(** [strip] strips the left end, then the right end. *)
Lemma strip_rstrip_lstrip (s : string) : strip s = rstrip (lstrip s).
Proof. unfold strip. apply srev_lstrip_srev. Qed.

Lemma blanks_sub_spaces (s : string) :
  forall b, blanks b (sub_spaces b s) = true.
Proof.
  induction s as [ | c s IH]; intros b; cbn; [reflexivity | ].
  destruct (is_space c) eqn:E.
  - destruct b; [apply IH | ].
    cbn. change (is_space " ") with true. cbn. apply IH.
  - cbn. rewrite E. apply IH.
Qed.

Lemma blanks_lstrip (s : string) :
  forall b, blanks b s = true -> blanks true (lstrip s) = true.
Proof.
  induction s as [ | c s IH]; intros b; cbn [blanks lstrip]; [easy | ].
  destruct (is_space c) eqn:E.
  - intros H. apply andb_true_iff in H. destruct H as [_ H]. now apply IH with true.
  - intros H. cbn. now rewrite E.
Qed.

Lemma blanks_rstrip (s : string) :
  forall b, blanks b s = true ->
            rstrip s = EmptyString \/ single_spaced b (rstrip s) = true.
Proof.
  induction s as [ | c s IH]; intros b; cbn [blanks rstrip]; [now left | ].
  destruct (is_space c) eqn:E.
  - intros H. apply andb_true_iff in H. destruct H as [H H2].
    destruct (IH true H2) as [-> | H3]; [now left | ].
    destruct (rstrip s) as [ | x t] eqn:R; [now left | right].
    cbn [single_spaced] in H3 |- *. rewrite E, H. exact H3.
  - intros H. right. destruct (IH false H) as [-> | H3].
    + cbn. now rewrite E.
    + destruct (rstrip s) as [ | x t] eqn:R; cbn [single_spaced]; now rewrite E.
Qed.

(** The result of [normalize_space] is tidy. *)
Lemma normalize_space_tidy (s : string) : tidy (normalize_space s) = true.
Proof.
  unfold normalize_space. rewrite strip_rstrip_lstrip.
  pose proof (blanks_lstrip _ _ (blanks_sub_spaces s false)) as H.
  apply blanks_rstrip in H. destruct H as [-> | H]; [reflexivity | ].
  unfold tidy. now destruct (rstrip _).
Qed.

Lemma single_spaced_sub_spaces (s : string) :
  forall b b', single_spaced b s = true -> (b' = true -> b = true) ->
               sub_spaces b' s = s.
Proof.
  induction s as [ | c s IH]; intros b b'; cbn; [reflexivity | ].
  destruct (is_space c) eqn:E.
  - intros H Hb. apply andb_true_iff in H. destruct H as [H H2].
    apply andb_true_iff in H. destruct H as [Hc Hn].
    apply Ascii.eqb_eq in Hc. subst c.
    destruct b; [discriminate | ]. destruct b'; [now specialize (Hb eq_refl) | ].
    f_equal. now apply IH with true.
  - intros H Hb. f_equal. now apply IH with false.
Qed.

Lemma single_spaced_rstrip (s : string) :
  forall b, single_spaced b s = true -> rstrip s = s.
Proof.
  induction s as [ | c s IH]; intros b; cbn; [reflexivity | ].
  destruct (is_space c) eqn:E.
  - intros H. apply andb_true_iff in H. destruct H as [_ H].
    rewrite (IH true H). destruct s; [discriminate | reflexivity].
  - intros H. rewrite (IH false H). now destruct s.
Qed.

Lemma single_spaced_lstrip (s : string) :
  single_spaced true s = true -> lstrip s = s.
Proof.
  destruct s as [ | c s]; cbn; [reflexivity | ].
  destruct (is_space c); [ | reflexivity].
  now rewrite andb_false_r.
Qed.

Lemma tidy_normalize_space (s : string) :
  tidy s = true -> normalize_space s = s.
Proof.
  destruct s as [ | c s]; [reflexivity | ]. unfold tidy. intros H.
  unfold normalize_space.
  rewrite (single_spaced_sub_spaces _ true false H) by easy.
  rewrite strip_rstrip_lstrip, single_spaced_lstrip by assumption.
  now apply single_spaced_rstrip with true.
Qed.

(* ================================================================== *)
(** * What the date patterns capture *)

Lemma rmatch_to_end ic r :
  to_end r = true ->
  forall st st', In st' (rmatch chars ic r st) ->
                 m_rest st' = [] \/ m_rest st' = ["010"%char].
Proof.
  induction r as [c | | | lo hi | | | | r1 IH1 r2 IH2 | r1 IH1 r2 IH2
                  | r IH lo hi | n r IH]; try discriminate; cbn [to_end rmatch].
  - intros _ st st'. destruct (m_rest st) as [ | c [ | ]] eqn:E; try easy.
    + intros [<- | []]. now left.
    + change (a_is chars false "010" c) with (Ascii.eqb "010" c).
      destruct (Ascii.eqb_spec "010" c) as [<- | ]; [ | easy].
      intros [<- | []]. now right.
  - intros H st st' Hin. apply in_flat_map in Hin.
    destruct Hin as (st1 & _ & Hin). now apply IH2 with st1.
Qed.

(** Repetitions of a test of one character. *)
Lemma turns_of_class (p : ascii -> bool) lo hi w cs :
  turns_of (fun w cs => cs = [] /\ exists x, w = [x] /\ p x = true)
           lo hi w cs ->
  cs = [] /\ forallb p w = true /\ (lo <= List.length w)%nat
  /\ forall h, hi = Some h -> (List.length w <= h)%nat.
Proof.
  intros (turns & -> & -> & HF & Hlo & Hhi).
  assert (H : List.concat (rev (map snd turns)) = []
              /\ forallb p (List.concat (map fst turns)) = true
              /\ List.length (List.concat (map fst turns)) = List.length turns).
  { clear Hlo Hhi. induction HF as [ | [w c] turns (Hc & x & Hw & Hp) HF IH].
    - easy.
    - cbn in Hc, Hw. subst w c. destruct IH as (IH1 & IH2 & IH3). cbn.
      rewrite List.concat_app, IH1, Hp, IH2, IH3. easy. }
  destruct H as (H1 & H2 & H3). rewrite H3. easy.
Qed.

Lemma captures_chr ic c w cs :
  captures ic (Chr c) w cs ->
  cs = [] /\ exists x, w = [x] /\ char_eqb ic c x = true.
Proof. easy. Qed.

Ltac class_inv H :=
  apply turns_of_class in H;
  let Hc := fresh "Hc" in let Hp := fresh "Hp" in
  let Hlo := fresh "Hlo" in let Hhi := fresh "Hhi" in
  destruct H as (Hc & Hp & Hlo & Hhi).




Lemma spaces_captures ic w cs :
  captures ic (star s_) w cs -> cs = [] /\ forallb is_space w = true.
Proof.
  unfold star, s_. cbn [captures]. intros H. class_inv H. easy.
Qed.






(* ================================================================== *)
(** * Date texts, read and written *)

Lemma re_match_to_end ic r s m :
  to_end r = true -> re_match ic r s = Some m ->
  m_rest m = [] \/ m_rest m = ["010"%char].
Proof.
  unfold re_match. intros Hr H.
  destruct (rmatch chars ic r _) as [ | m' l] eqn:E; [discriminate | ].
  injection H as ->.
  apply (rmatch_to_end ic r Hr (MState None (list_ascii_of_string s) [])).
  rewrite E. now left.
Qed.

Lemma string_of_list_app (a b : list ascii) :
  string_of_list_ascii (a ++ b)
  = string_of_list_ascii a ++ string_of_list_ascii b.
Proof. induction a as [ | c a IH]; cbn; [reflexivity | now rewrite IH]. Qed.

Lemma all_space_of_list (l : list ascii) :
  all_space (string_of_list_ascii l) = forallb is_space l.
Proof. induction l as [ | c l IH]; cbn; [reflexivity | now rewrite IH]. Qed.

Lemma rstrip_app_spaces (u v : string) :
  all_space v = true -> rstrip (u ++ v) = rstrip u.
Proof.
  intros H. induction u as [ | c u IH]; cbn.
  - now apply rstrip_empty.
  - now rewrite IH.
Qed.

Lemma rstrip_length (u : string) :
  (String.length (rstrip u) <= String.length u)%nat.
Proof.
  induction u as [ | c u IH]; cbn; [lia | ].
  destruct (rstrip u); [destruct (is_space c) | ]; cbn in *; lia.
Qed.

Lemma append_length (a b : string) :
  String.length (a ++ b) = (String.length a + String.length b)%nat.
Proof. induction a as [ | c a IH]; cbn; [reflexivity | now rewrite IH]. Qed.





Lemma zfill4_shape (n : Z) :
  0 <= n < 10000 ->
  exists e f g h,
    zfill 4 n = String e (String f (String g (String h EmptyString)))
    /\ forallb is_digit [e; f; g; h] = true
    /\ digits_val (zfill 4 n) 0 = n.
Proof.
  intros Hn.
  pose (P := fun n => match zfill 4 n with
                      | String e (String f (String g (String h EmptyString))) =>
                          forallb is_digit [e; f; g; h]
                          && (digits_val (zfill 4 n) 0 =? n)
                      | _ => false
                      end).
  assert (H : P n = true)
    by (apply (check_below P 10000); [vm_compute; reflexivity | exact Hn]).
  unfold P in H. clear P.
  destruct (zfill 4 n) as [ | e [ | f [ | g [ | h [ | ]]]]]; try discriminate.
  apply andb_true_iff in H. destruct H as [H1 H3].
  apply Z.eqb_eq in H3. exists e, f, g, h. easy.
Qed.


Section ShortYear.
Variable rho : nat -> ascii.

End ShortYear.







Lemma date_valid_fields (d : date) :
  date_valid d = true ->
  1 <= year d <= 9999 /\ 1 <= month d <= 12 /\ 1 <= day d <= 31.
Proof.
  intros V. apply date_valid_iff in V.
  pose proof (days_in_month_le (year d) (month d) ltac:(lia)). lia.
Qed.



(* ================================================================== *)
(** * Time texts, read back *)


Lemma letter_captures (c : ascii) w cs :
  captures true (Chr c) w cs ->
  cs = [] /\ exists x, w = [x] /\ lower x = lower c.
Proof.
  intros (-> & x & -> & H). split; [reflexivity | ].
  cbn [char_eqb] in H. apply Ascii.eqb_eq in H. now exists x.
Qed.


Lemma length_string_of_list (l : list ascii) :
  String.length (string_of_list_ascii l) = List.length l.
Proof. induction l as [ | c l IH]; cbn; [reflexivity | now rewrite IH]. Qed.



(* ================================================================== *)
(** * The parsers on every text *)



Lemma tidy_no_lead (a x : string) :
  tidy (a ++ x) = true -> all_space a = true -> a = EmptyString.
Proof.
  destruct a as [ | c a]; [reflexivity | ]. cbn. intros Ht Ha.
  apply andb_true_iff in Ha. destruct Ha as [Hc _]. rewrite Hc in Ht.
  now rewrite andb_false_r in Ht.
Qed.

Lemma tidy_no_trail (x b : string) :
  tidy (x ++ b) = true -> all_space b = true -> b = EmptyString.
Proof.
  intros Ht Hb.
  assert (Hr : rstrip (x ++ b) = x ++ b).
  { destruct (x ++ b) eqn:E; [reflexivity | ].
    now apply single_spaced_rstrip with true. }
  rewrite rstrip_app_spaces in Hr by assumption.
  pose proof (rstrip_length x) as Hl. rewrite Hr, append_length in Hl.
  destruct b; [reflexivity | cbn in Hl; lia].
Qed.

Lemma single_spaced_suffix (x z : string) :
  forall b, single_spaced b (x ++ z) = true ->
            exists b', single_spaced b' z = true.
Proof.
  induction x as [ | c x IH]; intros b; cbn; [now exists b | ].
  destruct (is_space c).
  - intros H. apply andb_true_iff in H. destruct H as [_ H]. now apply IH in H.
  - apply IH.
Qed.

(** Inside a tidy text, white space is a single blank. *)
Lemma tidy_inner (x ws y : string) :
  tidy (x ++ ws ++ y) = true -> all_space ws = true ->
  ws = EmptyString \/ ws = " ".
Proof.
  intros Ht Hw. destruct ws as [ | c ws]; [now left | right].
  assert (H : exists b, single_spaced b (String c ws ++ y) = true).
  { unfold tidy in Ht. destruct (x ++ String c ws ++ y) eqn:E.
    - destruct x; discriminate.
    - rewrite <- E in Ht. now apply single_spaced_suffix in Ht. }
  destruct H as (b & H). cbn in H, Hw.
  apply andb_true_iff in Hw. destruct Hw as [Hc Hw]. rewrite Hc in H.
  apply andb_true_iff in H. destruct H as [H H2].
  apply andb_true_iff in H. destruct H as [H _].
  apply Ascii.eqb_eq in H. subst c. f_equal.
  destruct ws as [ | c' ws]; [reflexivity | ]. cbn in H2, Hw.
  apply andb_true_iff in Hw. destruct Hw as [Hc' _]. rewrite Hc' in H2.
  now rewrite andb_false_r in H2.
Qed.




(** X1: [normalize_space] returns a text whose words are separated by
    single blanks, without white space at its ends; it leaves exactly the
    texts of this form as they are, so applying it twice is applying it
    once. *)
Theorem normalize_space_normal_form (s : string) :
  tidy (normalize_space s) = true
  /\ (normalize_space s = s <-> tidy s = true)
  /\ normalize_space (normalize_space s) = normalize_space s.
Proof.
  split; [apply normalize_space_tidy | ]. split.
  - split; [intros E; rewrite <- E; apply normalize_space_tidy | ].
    apply tidy_normalize_space.
  - apply tidy_normalize_space, normalize_space_tidy.
Qed.

(** X2: what [parse_time_range] can do on a text, whatever the text: return
    no time, all day or not; return two clock times with hours 0..23 and
    minutes 0..59, not all day; or raise [ValueError].  It never returns
    one time without the other, nor times with the all-day mark. *)
Theorem parse_time_range_outcome (s : string) :
  match parse_time_range s with
  | Ok (None, None, _) => True
  | Ok (Some t1, Some t2, false) => time_valid t1 /\ time_valid t2
  | Ok _ => False
  | Raise e => e = ValueError
  end.
Proof.
  destruct (parse_time_range s) as [[[st et] ad] | e] eqn:E.
  - apply parse_time_range_cases in E.
    destruct E as [[-> ->] | (-> & t1 & t2 & -> & -> & V1 & V2)]; easy.
  - now apply parse_time_range_raises_value_error with s.
Qed.

(** X6: what [parse_dateinfo] can do on a text, whatever the text: return a
    single date of the calendar; return a range of two dates of the
    calendar; return a phase, without dates; or raise [ValueError]. *)
Theorem parse_dateinfo_outcome (s : string) :
  match parse_dateinfo s with
  | Ok (single, Some d, None) => date_valid d = true
  | Ok (range, Some a, Some b) => date_valid a = true /\ date_valid b = true
  | Ok (phase, None, None) => True
  | Ok _ => False
  | Raise e => e = ValueError
  end.
Proof.
  destruct (parse_dateinfo s) as [[[k d1] d2] | e] eqn:E.
  - apply parse_dateinfo_cases in E.
    destruct E as [(-> & -> & d & -> & Vd)
                  | [(-> & a & b & -> & -> & Va & Vb) | (-> & -> & ->)]];
      easy.
  - now apply parse_dateinfo_raises_value_error with s.
Qed.

Lemma unknown_time_skipped_witness :
  build_events (Date 2026 1 1) 28 ([swim_row] ++ quiet_row :: [hall_row "A"])
  = build_events (Date 2026 1 1) 28 ([swim_row] ++ [hall_row "A"]).
Proof.
  apply (unknown_time_skipped (Date 2026 1 1) 28 [swim_row] quiet_row
           [hall_row "A"] []);
    vm_compute; reflexivity.
Defined.

(* ================================================================== *)
(** * The date helpers on every date *)

(** X16: for a date of the calendar and a weekday index 0..6,
    [next_date_for_weekday] returns the first date on or after the given
    one that falls on that weekday, at most six days later; it raises only
    [OverflowError], and only from one of the last six days of the year
    9999. *)
Theorem next_date_for_weekday_first (d : date) (w : Z) :
  date_valid d = true -> 0 <= w <= 6 ->
  match next_date_for_weekday d w with
  | Ok f =>
      date_valid f = true /\ weekday f = w
      /\ 0 <= toordinal f - toordinal d <= 6
      /\ forall x, date_valid x = true ->
                   toordinal d <= toordinal x < toordinal f ->
                   weekday x <> w
  | Raise e => e = OverflowError /\ MAXORDINAL < toordinal d + 6
  end.
Proof.
  intros V Hw.
  pose proof (toordinal_bounds d V) as B.
  pose proof (Z.mod_pos_bound (w - weekday d) 7 ltac:(lia)) as Hd.
  destruct (Z.le_gt_cases (toordinal d + (w - weekday d) mod 7) MAXORDINAL)
    as [Hle | Hgt].
  - rewrite next_date_for_weekday_spec by assumption.
    assert (Bo : 1 <= toordinal d + (w - weekday d) mod 7 <= MAXORDINAL)
      by lia.
    rewrite toordinal_fromordinal by exact Bo.
    split; [now apply fromordinal_valid | ].
    split; [rewrite weekday_fromordinal by exact Bo; unfold weekday;
            Z.div_mod_to_equations; lia | ].
    split; [lia | ].
    intros x Vx Hx. unfold weekday in *. Z.div_mod_to_equations. lia.
  - unfold next_date_for_weekday.
    rewrite date_add_days_out_of_range by lia. split; [reflexivity | lia].
Qed.

Lemma next_date_for_weekday_first_witness :
  next_date_for_weekday (Date 2026 1 5) 2 = Ok (Date 2026 1 7)
  /\ weekday (Date 2026 1 7) = 2.
Proof.
  pose proof (next_date_for_weekday_first (Date 2026 1 5) 2
                ltac:(reflexivity) ltac:(lia)) as H.
  change (next_date_for_weekday (Date 2026 1 5) 2)
    with (Ok (Date 2026 1 7)) in H.
  split; [reflexivity | apply H].
Defined.

(** X17: the date [next_date_for_weekday] returns is never before the date
    it is given, whatever the weekday index: the correction
    [if first < start] of [daterange_weekly] never applies. *)
Theorem daterange_weekly_first_not_before (start f : date) (w : Z) :
  date_valid start = true ->
  next_date_for_weekday start w = Ok f ->
  date_ltb f start = false.
Proof.
  intros V H.
  pose proof (next_date_for_weekday_valid _ _ _ H) as Vf.
  unfold next_date_for_weekday in H. apply date_add_days_toordinal in H.
  pose proof (Z.mod_pos_bound (w - weekday start) 7 ltac:(lia)).
  rewrite date_ltb_ord by assumption. apply Z.ltb_ge. lia.
Qed.

Lemma daterange_weekly_first_not_before_witness :
  date_ltb (Date 2026 1 7) (Date 2026 1 5) = false.
Proof.
  apply (daterange_weekly_first_not_before (Date 2026 1 5) (Date 2026 1 7) 2);
    reflexivity.
Defined.

(** X18: the outcome of [daterange_weekly] on two dates of the calendar, for
    every weekday index: with [o1] the ordinal of the first occurrence of
    the weekday on or after [start] and [k] the number of weekly steps from
    [o1] that do not pass [end_], the result is the list of these [k]
    dates, unless the date after the last of them, [o1 + 7k], lies beyond
    9999-12-31; then the call raises [OverflowError]. *)
Theorem daterange_weekly_outcome (start end_ : date) (w : Z) :
  date_valid start = true -> date_valid end_ = true ->
  let o1 := toordinal start + (w - weekday start) mod 7 in
  let k := weeks_upto o1 (toordinal end_) in
  daterange_weekly start end_ w
  = if o1 + 7 * Z.of_nat k <=? MAXORDINAL
    then Ok (map fromordinal (ord_seq o1 k))
    else Raise OverflowError.
Proof.
  intros Vs Ve o1 k.
  pose proof (toordinal_bounds start Vs) as Bs.
  pose proof (toordinal_bounds end_ Ve) as Be.
  pose proof (Z.mod_pos_bound (w - weekday start) 7 ltac:(lia)) as Hd.
  unfold daterange_weekly.
  destruct (Z.le_gt_cases o1 MAXORDINAL) as [Hle | Hgt].
  - rewrite next_date_for_weekday_spec by assumption. fold o1. cbn [bind].
    assert (B1 : 1 <= o1 <= MAXORDINAL) by (unfold o1; lia).
    pose proof (fromordinal_valid o1 B1) as V1.
    pose proof (toordinal_fromordinal o1 B1) as T1.
    rewrite date_ltb_ord, T1 by assumption.
    destruct (Z.ltb_spec o1 (toordinal start)) as [Hlt | _];
      [unfold o1 in Hlt; lia | ].
    cbn [bind].
    assert (Hfuel : (k < weekly_fuel (fromordinal o1) end_)%nat)
      by (unfold k; rewrite <- T1 at 1; apply weekly_fuel_enough).
    destruct (Z.leb_spec (o1 + 7 * Z.of_nat k) MAXORDINAL) as [Hk | Hk].
    + rewrite (weekly_while_spec _ k); try assumption;
        try (now rewrite T1).
      now rewrite T1, fold_left_snoc.
    + apply (weekly_while_overflow _ k); try assumption;
        try (now rewrite T1).
      rewrite T1. destruct (Z.le_gt_cases o1 (toordinal end_)); [assumption | ].
      unfold k in Hk. rewrite weeks_upto_0 in Hk by lia. lia.
  - unfold next_date_for_weekday.
    rewrite date_add_days_out_of_range by (fold o1; lia). cbn [bind].
    destruct (Z.leb_spec (o1 + 7 * Z.of_nat k) MAXORDINAL); [lia | reflexivity].
Qed.

Lemma daterange_weekly_outcome_witness :
  daterange_weekly (Date 2026 2 18) (Date 2026 3 4) 2
  = Ok [Date 2026 2 18; Date 2026 2 25; Date 2026 3 4].
Proof.
  rewrite (daterange_weekly_outcome (Date 2026 2 18) (Date 2026 3 4) 2);
    reflexivity.
Defined.

(* ================================================================== *)
(** * [build_events] on every list of rows *)

Lemma add_event_of_row r st et ad d (evs : list Event) :
  known_weekday r = true ->
  parse_time_range (time_str r) = Ok (st, et, ad) ->
  date_valid d = true ->
  Forall (event_of_row r) evs ->
  Forall (event_of_row r) (add_event r st et ad d evs).
Proof.
  intros Hk Ht Vd Hevs.
  assert (Hu : usable (st, et, ad) ->
               Forall (event_of_row r)
                      (evs ++ [occurrence r (st, et, ad) d])%list).
  { intros Hu. apply Forall_app. split; [assumption | ].
    constructor; [ | constructor]. split; [assumption | ].
    now exists (st, et, ad), d. }
  destruct st as [t1 | ], et as [t2 | ], ad;
    try (rewrite add_event_usable by exact I; apply Hu; exact I);
    exact Hevs.
Qed.

Lemma row_events_of_row today la (r : RawRow) (new : list Event) :
  row_events today la r = Ok new -> Forall (event_of_row r) new.
Proof.
  unfold row_events, process_row.
  destruct (dict_get DOW_MAP (dow r)) as [w | ] eqn:Ew;
    [ | intros [= <-]; constructor].
  assert (Hk : known_weekday r = true) by (unfold known_weekday; now rewrite Ew).
  destruct (parse_time_range (time_str r)) as [[[st et] ad] | ] eqn:Etr;
    cbn [bind]; [ | discriminate].
  destruct (parse_dateinfo (dateinfo r)) as [[[k d1] d2] | ] eqn:Edi;
    cbn [bind]; [ | discriminate].
  apply parse_dateinfo_cases in Edi.
  destruct Edi as [(-> & -> & d & -> & Vd)
                  | [(-> & a & b & -> & -> & Va & Vb) | (-> & -> & ->)]].
  - intros [= <-]. apply add_event_of_row; try assumption. constructor.
  - destruct (daterange_weekly a b w) as [days | ] eqn:Edays; cbn [bind];
      [ | discriminate].
    apply daterange_weekly_valid in Edays. intros [= <-].
    rewrite fold_add_event_app. cbn [app].
    induction Edays as [ | d days Vd _ IH]; cbn [flat_map]; [constructor | ].
    apply Forall_app. split; [ | exact IH].
    apply add_event_of_row; try assumption. constructor.
  - destruct (timedelta la) as [delta | ]; cbn [bind]; [ | discriminate].
    destruct (date_add today delta) as [horizon | ]; cbn [bind];
      [ | discriminate].
    destruct (next_date_for_weekday today w) as [first | ] eqn:E; cbn [bind];
      [ | discriminate].
    apply next_date_for_weekday_valid in E.
    apply (weekly_while_invariant (Forall (event_of_row r)));
      try assumption; [ | constructor].
    intros d s Vd Hs. now apply add_event_of_row.
Qed.

Lemma all_row_events_of_rows today la (rows : list RawRow) :
  forall evs, all_row_events today la rows = Ok evs ->
              Forall (fun ev => exists r, In r rows /\ event_of_row r ev) evs.
Proof.
  induction rows as [ | r rows IH]; intros evs; cbn [all_row_events].
  - intros [= <-]. constructor.
  - destruct (row_events today la r) as [new | ] eqn:E; cbn [bind];
      [ | discriminate].
    destruct (all_row_events today la rows) as [more | ]; cbn [bind];
      [ | discriminate].
    intros [= <-]. apply Forall_app. split.
    + apply row_events_of_row in E. revert E. apply Forall_impl.
      intros ev H. exists r. split; [now left | assumption].
    + specialize (IH more eq_refl). revert IH. apply Forall_impl.
      intros ev (r' & Hin & H). exists r'. split; [now right | assumption].
Qed.

(** X19: every event [build_events] returns is made from one of the rows: it
    has the title, the link and the descriptive fields of that row, whose
    weekday code is known and whose time text gives the times of the
    event, and it is dated on a day of the calendar. *)
Theorem build_events_provenance today la rows evs :
  build_events today la rows = Ok evs ->
  forall ev, In ev evs ->
    exists r, In r rows /\ event_of_row r ev
              /\ ev_title ev = title r /\ ev_url ev = href r
              /\ ev_extendedProps ev = base_props r.
Proof.
  intros H ev Hin. apply build_events_inv in H.
  destruct H as (raw & Hraw & ->).
  apply (Permutation_in _ (sort_events_perm raw)) in Hin.
  apply all_row_events_of_rows in Hraw. rewrite Forall_forall in Hraw.
  destruct (Hraw ev Hin) as (r & Hr & He). exists r.
  split; [assumption | ]. split; [assumption | ].
  destruct He as (_ & tr & d & _ & _ & _ & ->).
  destruct tr as [[[st | ] [et | ]] [ | ]]; repeat split.
Qed.

Lemma build_events_provenance_witness :
  exists r, In r [swim_row; hall_row "A"]
            /\ event_of_row r swim_event
            /\ ev_title swim_event = title r /\ ev_url swim_event = href r
            /\ ev_extendedProps swim_event = base_props r.
Proof.
  apply (build_events_provenance (Date 2026 1 1) 28 [swim_row; hall_row "A"]
           [swim_event; hall_event "A"]);
    [vm_compute; reflexivity | now left].
Defined.

(** X20: the result of [build_events] is a reordering of the events the rows
    give one by one, in the order of the rows: the sort drops no event and
    adds none. *)
Theorem build_events_reorders today la rows evs :
  build_events today la rows = Ok evs ->
  exists raw,
    all_row_events today la rows = Ok raw
    /\ Permutation raw evs
    /\ List.length evs = List.length raw.
Proof.
  intros H. apply build_events_inv in H. destruct H as (raw & Hraw & ->).
  exists raw. split; [assumption | ].
  pose proof (sort_events_perm raw) as HP.
  split; [now apply Permutation_sym | now apply Permutation_length].
Qed.

Lemma build_events_reorders_witness :
  exists raw,
    all_row_events (Date 2026 1 1) 28 [hall_row "A"; swim_row] = Ok raw
    /\ Permutation raw [swim_event; hall_event "A"]
    /\ List.length [swim_event; hall_event "A"] = List.length raw.
Proof.
  apply (build_events_reorders (Date 2026 1 1) 28 [hall_row "A"; swim_row]).
  vm_compute. reflexivity.
Defined.

(** X21: [build_events] on two lists of rows one after the other: when both
    lists give events, the result holds the events of both; when one of
    them raises, the whole raises, and it raises what the first list
    raises if that one does. *)
Theorem build_events_app today la rows1 rows2 :
  match build_events today la rows1, build_events today la rows2 with
  | Ok evs1, Ok evs2 =>
      exists evs, build_events today la (rows1 ++ rows2) = Ok evs
                  /\ Permutation evs (evs1 ++ evs2)
                  /\ StronglySorted key_le evs
  | Raise e, _ => build_events today la (rows1 ++ rows2) = Raise e
  | Ok _, Raise e => build_events today la (rows1 ++ rows2) = Raise e
  end.
Proof.
  rewrite !build_events_unfold, all_row_events_app.
  destruct (all_row_events today la rows1) as [a | e]; cbn [bind];
    [ | reflexivity].
  destruct (all_row_events today la rows2) as [b | e]; cbn [bind];
    [ | reflexivity].
  exists (sort_events (a ++ b)). split; [reflexivity | ].
  split; [ | apply sort_events_sorted].
  apply Permutation_trans with (a ++ b)%list; [apply sort_events_perm | ].
  apply Permutation_app; apply Permutation_sym, sort_events_perm.
Qed.

Lemma all_row_events_filter_known today la (rows : list RawRow) :
  all_row_events today la (filter known_weekday rows)
  = all_row_events today la rows.
Proof.
  induction rows as [ | r rows IH]; [reflexivity | ]. cbn [filter].
  unfold known_weekday at 1.
  destruct (dict_get DOW_MAP (dow r)) as [w | ] eqn:E.
  - cbn [all_row_events]. now rewrite IH.
  - cbn [all_row_events]. rewrite IH. unfold row_events at 1, process_row.
    rewrite E. cbn [bind].
    destruct (all_row_events today la rows); reflexivity.
Qed.

(** X22: rows whose weekday code is not a key of [DOW_MAP] are ignored
    altogether, whatever else they hold: the result, be it a list or an
    exception, is that of the other rows. *)
Theorem build_events_ignores_unknown_weekdays today la rows :
  build_events today la rows
  = build_events today la (filter known_weekday rows).
Proof.
  rewrite !build_events_unfold. now rewrite all_row_events_filter_known.
Qed.

(** X24: both loops of [build_events] end on every input: the call returns a
    list, or it raises [ValueError] or [OverflowError]. *)
Theorem build_events_terminates today la rows :
  (exists evs, build_events today la rows = Ok evs)
  \/ build_events today la rows = Raise ValueError
  \/ build_events today la rows = Raise OverflowError.
Proof.
  pose proof (build_events_not_diverged today la rows) as H.
  destruct (build_events today la rows) as [evs | [ | | ]];
    [left; now exists evs | now right; left | now right; right | easy].
Qed.

Lemma all_row_events_raises today la (rows : list RawRow) (e : exn) :
  all_row_events today la rows = Raise e <->
  exists rows1 r rows2 evs1,
    rows = (rows1 ++ r :: rows2)%list
    /\ all_row_events today la rows1 = Ok evs1
    /\ row_events today la r = Raise e.
Proof.
  split.
  - induction rows as [ | r rows IH]; cbn [all_row_events]; [discriminate | ].
    destruct (row_events today la r) as [new | e'] eqn:E; cbn [bind].
    + destruct (all_row_events today la rows) as [more | e''] eqn:Em;
        cbn [bind]; [discriminate | ].
      intros [= ->]. destruct (IH eq_refl) as (rows1 & r' & rows2 & evs1 & -> & H1 & H2).
      exists (r :: rows1), r', rows2, (new ++ evs1)%list.
      split; [reflexivity | ]. split; [ | assumption].
      cbn [all_row_events]. now rewrite E, H1.
    + intros [= ->]. exists [], r, rows, []. repeat split. assumption.
  - intros (rows1 & r & rows2 & evs1 & -> & H1 & H2).
    rewrite all_row_events_app, H1. cbn [bind all_row_events].
    now rewrite H2.
Qed.

(** X25: [build_events] raises exactly when some row raises by itself, and
    then it raises what the first such row raises: no later row is looked
    at, and no event of the earlier rows is returned. *)
Theorem build_events_raises_first today la rows e :
  build_events today la rows = Raise e <->
  exists rows1 r rows2 evs1,
    rows = (rows1 ++ r :: rows2)%list
    /\ build_events today la rows1 = Ok evs1
    /\ process_row today la [] r = Raise e.
Proof.
  rewrite build_events_unfold. split.
  - destruct (all_row_events today la rows) as [evs | e'] eqn:E; cbn [bind];
      [discriminate | ].
    intros [= ->]. apply all_row_events_raises in E.
    destruct E as (rows1 & r & rows2 & evs1 & -> & H1 & H2).
    exists rows1, r, rows2, (sort_events evs1). split; [reflexivity | ].
    split; [ | exact H2]. now rewrite build_events_unfold, H1.
  - intros (rows1 & r & rows2 & evs1 & -> & H1 & H2).
    rewrite build_events_unfold in H1.
    destruct (all_row_events today la rows1) as [a | ] eqn:Ea; cbn [bind] in H1;
      [ | discriminate].
    assert (H : all_row_events today la (rows1 ++ r :: rows2) = Raise e)
      by (apply all_row_events_raises; now exists rows1, r, rows2, a).
    now rewrite H.
Qed.

Lemma build_events_raises_first_witness :
  build_events (Date 2026 1 1) 28 [swim_row; late_row; hall_row "A"]
  = Raise ValueError.
Proof.
  apply (build_events_raises_first (Date 2026 1 1) 28
           [swim_row; late_row; hall_row "A"] ValueError).
  exists [swim_row], late_row, [hall_row "A"], [swim_event].
  repeat split; vm_compute; reflexivity.
Defined.

(* ================================================================== *)
(** * The rows of the page *)

Lemma lazy_any_captures w cs :
  line_captures (LazyPlus AnyChar) w cs -> cs = [] /\ w <> [].
Proof.
  cbn [line_captures]. intros H.
  apply (turns_of_class (fun c => negb (Ascii.eqb c "010"))) in H.
  destruct H as (-> & _ & Hlo & _). split; [reflexivity | ].
  destruct w; [cbn in Hlo; lia | discriminate].
Qed.

Lemma many_any_captures w cs : line_captures (Many AnyChar) w cs -> cs = [].
Proof.
  cbn [line_captures]. intros H.
  apply (turns_of_class (fun c => negb (Ascii.eqb c "010"))) in H.
  now destruct H as (-> & _).
Qed.

Lemma comma_captures w cs :
  line_captures comma_ w cs ->
  cs = [] /\ exists ws, w = ","%char :: ws /\ forallb is_space ws = true.
Proof.
  unfold comma_. cbn [line_captures]. cbn [captures].
  intros (w1 & w2 & c1 & c2 & -> & -> & (-> & x & -> & Hx) & H).
  apply spaces_captures in H. destruct H as (-> & H).
  cbn [char_eqb] in Hx. apply Ascii.eqb_eq in Hx. subst x.
  split; [reflexivity | ]. now exists w2.
Qed.

Lemma lit2_captures (a b : ascii) w cs :
  captures false (seq_re (lit (String a (String b EmptyString)))) w cs ->
  cs = [] /\ string_of_list_ascii w = String a (String b EmptyString).
Proof.
  cbn [lit seq_re captures char_eqb].
  intros (w1 & w2 & c1 & c2 & -> & -> & (-> & x & -> & Hx) & (-> & y & -> & Hy)).
  apply Ascii.eqb_eq in Hx, Hy. now subst.
Qed.

Lemma dow_captures w cs :
  captures false (alt_re (map (fun s => seq_re (lit s)) DOW_CODES)) w cs ->
  cs = [] /\ In (string_of_list_ascii w) DOW_CODES.
Proof.
  unfold DOW_CODES. cbn [map alt_re]. cbn [captures].
  intros H.
  repeat (destruct H as [H | H];
          [apply lit2_captures in H; destruct H as [-> ->]; cbn; auto 10 | ]).
  apply lit2_captures in H. destruct H as [-> ->]. cbn; auto 10.
Qed.

(** What a match of [LINE_RE] consumes and captures. *)
Lemma line_re_captures w cs :
  line_captures LINE_RE w cs ->
  exists t ws1 code ws2 tm ws3 di ws4 loc tail ctail,
    w = (t ++ ","%char :: ws1 ++ code ++ ","%char :: ws2 ++ tm
           ++ ","%char :: ws3 ++ di ++ ","%char :: ws4 ++ loc ++ tail)%list
    /\ cs = (ctail ++ [(5, loc); (4, di); (3, tm); (2, code); (1, t)])%nat%list
    /\ In (string_of_list_ascii code) DOW_CODES
    /\ t <> [] /\ tm <> [] /\ di <> [] /\ loc <> []
    /\ ((tail = [] /\ ctail = [])
        \/ exists ws5 rest,
             tail = (","%char :: ws5 ++ rest)%list
             /\ ctail = [(6%nat, rest)]).
Proof.
  unfold LINE_RE. cbn [seq_line].
  cbn [line_captures].
  intros (w0 & w0' & c0 & c0' & -> & -> & H0
          & w1 & w1' & c1 & c1' & -> & -> & (k1 & H1 & ->)
          & w2 & w2' & c2 & c2' & -> & -> & H2
          & w3 & w3' & c3 & c3' & -> & -> & (k3 & H3 & ->)
          & w4 & w4' & c4 & c4' & -> & -> & H4
          & w5 & w5' & c5 & c5' & -> & -> & (k5 & H5 & ->)
          & w6 & w6' & c6 & c6' & -> & -> & H6
          & w7 & w7' & c7 & c7' & -> & -> & (k7 & H7 & ->)
          & w8 & w8' & c8 & c8' & -> & -> & H8
          & w9 & w9' & c9 & c9' & -> & -> & (k9 & H9 & ->)
          & w10 & w10' & c10 & c10' & -> & -> & H10 & H11).
  cbn [captures] in H0, H11. destruct H0 as (-> & ->). destruct H11 as (-> & ->).
  apply (lazy_any_captures w1 k1) in H1. destruct H1 as (-> & N1).
  apply (lazy_any_captures w5 k5) in H5. destruct H5 as (-> & N5).
  apply (lazy_any_captures w7 k7) in H7. destruct H7 as (-> & N7).
  apply (lazy_any_captures w9 k9) in H9. destruct H9 as (-> & N9).
  apply dow_captures in H3. destruct H3 as (-> & H3).
  apply comma_captures in H2, H4, H6, H8.
  destruct H2 as (-> & ws1 & -> & S1). destruct H4 as (-> & ws2 & -> & S2).
  destruct H6 as (-> & ws3 & -> & S3). destruct H8 as (-> & ws4 & -> & S4).
  exists w1, ws1, w3, ws2, w5, ws3, w7, ws4, w9, w10, c10.
  cbn [app]. rewrite ?app_nil_r. rewrite <- ?app_assoc. cbn [app].
  repeat split; try assumption.
  destruct H10 as [H10 | [-> ->]]; [right | now left].
  destruct H10 as (x & y & cx & cy & -> & -> & Hx & (k & Hy & ->)).
  apply comma_captures in Hx. destruct Hx as (-> & ws5 & -> & S5).
  apply many_any_captures in Hy. subst k.
  exists ws5, y. cbn [app]. now rewrite ?app_nil_r.
Qed.

Lemma commas_app (a b : list ascii) :
  commas (a ++ b) = (commas a + commas b)%nat.
Proof.
  unfold commas. induction a as [ | c a IH]; cbn; [reflexivity | ].
  rewrite IH. lia.
Qed.

Lemma commas_cons (l : list ascii) : commas (","%char :: l) = S (commas l).
Proof. reflexivity. Qed.

(** A line that [LINE_RE] matches: its weekday group is one of the codes,
    and it has four commas or more. *)
Lemma line_match_fields (s : string) m :
  line_match LINE_RE s = Some m ->
  In (group m 2) DOW_CODES /\ (4 <= str_count "," s)%nat.
Proof.
  intros H. apply line_match_captures in H.
  destruct H as (w & cs & E & F & H). apply line_re_captures in H.
  destruct H as (t & ws1 & code & ws2 & tm & ws3 & di & ws4 & loc & tail
                 & ctail & -> & -> & Hcode & _ & _ & _ & _ & Htail).
  split.
  - unfold group. rewrite F.
    destruct Htail as [[_ ->] | (ws5 & rest & _ & ->)]; exact Hcode.
  - rewrite <- (string_of_list_ascii_of_string s), E.
    change (str_count "," (string_of_list_ascii ?l)) with (commas l).
    repeat (rewrite ?commas_app, ?commas_cons).
    lia.
Qed.

Lemma dow_code_known (c : string) :
  In c DOW_CODES -> strip c = c /\ dict_get DOW_MAP c <> None.
Proof.
  unfold DOW_CODES. cbn [In].
  intros [<- | [<- | [<- | [<- | [<- | [<- | [<- | []]]]]]]];
    split; (reflexivity || discriminate).
Qed.

(** X9: every row [extract_rows] returns has one of the seven weekday codes
    of [DOW_MAP], so [build_events] processes every one of them: its test
    for an unknown weekday never turns an extracted row away. *)
Theorem row_of_anchor_weekday (a : Anchor) (r : RawRow) :
  row_of_anchor a = Some r ->
  In (dow r) DOW_CODES /\ known_weekday r = true.
Proof.
  unfold row_of_anchor.
  destruct (String.eqb _ _); [discriminate | ].
  destruct (an_parent a) as [p | ]; [ | discriminate].
  destruct (_ <? _)%nat; [discriminate | ].
  destruct (line_match LINE_RE (normalize_space p)) as [m | ] eqn:M;
    [ | discriminate].
  intros [= <-]. apply line_match_fields in M.
  destruct M as [M _]. destruct (dow_code_known _ M) as [E K].
  unfold known_weekday. cbn [dow]. rewrite E.
  split; [exact M | ]. destruct (dict_get DOW_MAP (group m 2)); easy.
Qed.

Lemma row_of_anchor_weekday_witness :
  In (dow yoga_row) DOW_CODES /\ known_weekday yoga_row = true.
Proof.
  apply (row_of_anchor_weekday yoga_anchor yoga_row).
  vm_compute. reflexivity.
Defined.

(** X10: a line that [LINE_RE] matches has at least four commas, so the test
    [line_text.count(",") < 3] of [extract_rows] never turns away a line
    that the pattern would accept. *)
Theorem comma_filter_redundant (s : string) m :
  line_match LINE_RE s = Some m -> (str_count "," s <? 3)%nat = false.
Proof.
  intros H. apply line_match_fields in H. apply Nat.ltb_ge. lia.
Qed.

Lemma comma_filter_redundant_witness :
  (str_count "," "Yoga, Mo, 18:15-19:45 Uhr, Phase 1, Halle" <? 3)%nat = false.
Proof.
  destruct (line_match LINE_RE "Yoga, Mo, 18:15-19:45 Uhr, Phase 1, Halle")
    as [m | ] eqn:M; [ | vm_compute in M; discriminate].
  exact (comma_filter_redundant _ m M).
Defined.

Lemma opt_eqb_eq (a b : option string) : opt_eqb a b = true <-> a = b.
Proof.
  destruct a as [x | ], b as [y | ]; cbn; try easy.
  rewrite String.eqb_eq. split; congruence.
Qed.

Lemma row_key_eqb_eq (a b : RowKey) : row_key_eqb a b = true <-> a = b.
Proof.
  destruct a as [[[[[[t1 d1] ti1] di1] l1] r1] h1].
  destruct b as [[[[[[t2 d2] ti2] di2] l2] r2] h2].
  unfold row_key_eqb. rewrite !andb_true_iff, !String.eqb_eq, opt_eqb_eq.
  split; [intros [[[[[[-> ->] ->] ->] ->] ->] ->]; reflexivity | ].
  intros [= -> -> -> -> -> -> ->]. repeat split.
Qed.

(** The key of a row holds every field of it. *)
Lemma row_key_inj (r1 r2 : RawRow) : row_key r1 = row_key r2 -> r1 = r2.
Proof.
  destruct r1, r2. unfold row_key. cbn. intros [= -> -> -> -> -> -> ->].
  reflexivity.
Qed.

Lemma seen_spec (k : RowKey) (seen : list RowKey) :
  existsb (row_key_eqb k) seen = true <-> In k seen.
Proof.
  rewrite existsb_exists. split.
  - intros (x & Hx & E). apply row_key_eqb_eq in E. now subst.
  - intros H. exists k. split; [assumption | now apply row_key_eqb_eq].
Qed.

(** The loop that drops repeated rows, started in a state where [seen]
    holds the keys of [uniq]. *)
Lemma dedup_spec (rows : list RawRow) :
  forall seen uniq,
    (forall r, In (row_key r) seen <-> In r uniq) -> NoDup uniq ->
    NoDup (dedup rows seen uniq)
    /\ (forall r, In r (dedup rows seen uniq) <-> In r uniq \/ In r rows)
    /\ exists more, dedup rows seen uniq = (uniq ++ more)%list.
Proof.
  induction rows as [ | r rows IH]; intros seen uniq Hseen Hnd; cbn [dedup].
  - split; [assumption | ]. split; [intros r; cbn; tauto | ].
    exists []. now rewrite app_nil_r.
  - destruct (existsb (row_key_eqb (row_key r)) seen) eqn:E.
    + apply seen_spec, Hseen in E.
      destruct (IH seen uniq Hseen Hnd) as (H1 & H2 & H3).
      split; [assumption | ]. split; [ | assumption].
      intros x. rewrite H2. cbn [In]. split; [tauto | ].
      intros [H | [<- | H]]; auto.
    + assert (Hr : ~ In r uniq).
      { intros H. apply Hseen, seen_spec in H. congruence. }
      destruct (IH (row_key r :: seen) (uniq ++ [r])%list) as (H1 & H2 & H3).
      * intros x. cbn [In]. rewrite in_app_iff, Hseen. cbn [In].
        split; [intros [H | H]; [apply row_key_inj in H | ]; auto | ].
        intros [H | [<- | []]]; auto.
      * apply NoDup_app; [assumption | repeat constructor; easy | ].
        intros x Hx [<- | []]. contradiction.
      * split; [assumption | ]. split.
        -- intros x. rewrite H2, in_app_iff. cbn [In]. tauto.
        -- destruct H3 as (more & ->). exists (r :: more).
           now rewrite <- app_assoc.
Qed.

Lemma anchor_rows_spec (anchors : list Anchor) :
  forall rows, anchor_rows anchors rows = (rows ++ matched_rows anchors)%list.
Proof.
  unfold matched_rows.
  induction anchors as [ | a anchors IH]; intros rows;
    cbn [anchor_rows flat_map]; [now rewrite app_nil_r | ].
  destruct (row_of_anchor a) as [r | ]; rewrite IH;
    [now rewrite <- app_assoc | reflexivity].
Qed.

Lemma in_matched_rows (anchors : list Anchor) (r : RawRow) :
  In r (matched_rows anchors) <->
  exists a, In a anchors /\ row_of_anchor a = Some r.
Proof.
  unfold matched_rows. rewrite in_flat_map. split.
  - intros (a & Ha & H). exists a. split; [assumption | ].
    destruct (row_of_anchor a) as [r' | ]; [ | easy].
    destruct H as [-> | []]. reflexivity.
  - intros (a & Ha & H). exists a. split; [assumption | ].
    rewrite H. now left.
Qed.

(** X13: [extract_rows] returns every row that some anchor gives, and each
    such row once: two rows are taken for the same only when all their
    seven fields agree. *)
Theorem extract_rows_unique (anchors : list Anchor) :
  NoDup (extract_rows anchors)
  /\ forall r, In r (extract_rows anchors) <->
               exists a, In a anchors /\ row_of_anchor a = Some r.
Proof.
  unfold extract_rows. rewrite anchor_rows_spec. cbn [app].
  destruct (dedup_spec (matched_rows anchors) [] [])
    as (H1 & H2 & _); [easy | constructor | ].
  split; [assumption | ].
  intros r. rewrite H2, <- in_matched_rows. cbn [In]. tauto.
Qed.

Lemma dedup_acc (rows : list RawRow) :
  forall seen uniq,
    dedup rows seen uniq = (uniq ++ dedup rows seen [])%list.
Proof.
  induction rows as [ | r rows IH]; intros seen uniq; cbn [dedup].
  - now rewrite app_nil_r.
  - destruct (existsb _ seen); [apply IH | ].
    rewrite (IH _ (uniq ++ [r])%list), (IH _ ([] ++ [r])%list).
    now rewrite <- app_assoc.
Qed.

Lemma dedup_app (rows1 rows2 : list RawRow) :
  forall seen uniq,
    dedup (rows1 ++ rows2) seen uniq
    = dedup rows2 (dedup_seen rows1 seen) (dedup rows1 seen uniq).
Proof.
  induction rows1 as [ | r rows1 IH]; intros seen uniq;
    cbn [app dedup dedup_seen]; [reflexivity | ].
  destruct (existsb _ seen); apply IH.
Qed.

Lemma in_dedup_seen (rows : list RawRow) (k : RowKey) :
  forall seen,
    In k (dedup_seen rows seen) <-> In k seen \/ In k (map row_key rows).
Proof.
  induction rows as [ | r rows IH]; intros seen; cbn [dedup_seen map In];
    [tauto | ].
  destruct (existsb _ seen) eqn:E; rewrite IH; cbn [In].
  - apply seen_spec in E. split; [tauto | ].
    intros [H | [<- | H]]; auto.
  - tauto.
Qed.

Lemma dedup_all_seen (rows : list RawRow) (seen : list RowKey) :
  (forall r, In r rows -> In (row_key r) seen) -> dedup rows seen [] = [].
Proof.
  induction rows as [ | r rows IH]; intros H; cbn [dedup]; [reflexivity | ].
  assert (E : existsb (row_key_eqb (row_key r)) seen = true)
    by (apply seen_spec, H; now left).
  rewrite E. apply IH. intros x Hx. apply H. now right.
Qed.

Lemma matched_rows_app (a b : list Anchor) :
  matched_rows (a ++ b) = (matched_rows a ++ matched_rows b)%list.
Proof. unfold matched_rows. apply flat_map_app. Qed.

(** X14: anchors that give no row but rows that earlier anchors gave change
    nothing: rows keep the place of their first occurrence, and a
    repetition later in the page is dropped. *)
Theorem extract_rows_repeats (anchors more : list Anchor) :
  (forall b r, In b more -> row_of_anchor b = Some r ->
               exists a, In a anchors /\ row_of_anchor a = Some r) ->
  extract_rows (anchors ++ more) = extract_rows anchors.
Proof.
  intros H. unfold extract_rows. rewrite !anchor_rows_spec. cbn [app].
  rewrite matched_rows_app, dedup_app, (dedup_acc (matched_rows more)).
  rewrite (dedup_all_seen (matched_rows more)); [apply app_nil_r | ].
  intros r Hr. apply in_dedup_seen. right. apply in_map.
  apply in_matched_rows in Hr. destruct Hr as (b & Hb & E).
  apply in_matched_rows. now apply H with b.
Qed.

Lemma extract_rows_repeats_witness :
  extract_rows ([yoga_anchor] ++ [yoga_anchor]) = extract_rows [yoga_anchor].
Proof.
  apply (extract_rows_repeats [yoga_anchor] [yoga_anchor]).
  intros b r [<- | []] E. exists yoga_anchor. split; [now left | exact E].
Defined.

(** X15: adding anchors at the end of the page only adds rows at the end of
    the result. *)
Theorem extract_rows_extends (anchors more : list Anchor) :
  exists new,
    extract_rows (anchors ++ more) = (extract_rows anchors ++ new)%list.
Proof.
  unfold extract_rows. rewrite !anchor_rows_spec. cbn [app].
  rewrite matched_rows_app, dedup_app, (dedup_acc (matched_rows more)).
  eauto.
Qed.

(** X11: the link of an extracted row is that of its anchor, with the
    address of the site put before it when it begins with a slash; so no
    extracted link begins with a slash, and the test that the link is not
    empty decides nothing. *)
Theorem row_of_anchor_href (a : Anchor) (r : RawRow) :
  row_of_anchor a = Some r ->
  href r = match an_href a with
           | Some h => if prefix "/" h then Some (SITE ++ h) else Some h
           | None => None
           end
  /\ forall h, href r = Some h -> prefix "/" h = false.
Proof.
  unfold row_of_anchor.
  destruct (String.eqb _ _); [discriminate | ].
  destruct (an_parent a) as [p | ]; [ | discriminate].
  destruct (_ <? _)%nat; [discriminate | ].
  destruct (line_match LINE_RE (normalize_space p)) as [m | ];
    [ | discriminate].
  intros [= <-]. cbn [href].
  destruct (an_href a) as [h | ]; [ | easy].
  destruct h as [ | c h]; [split; [reflexivity | now intros ? [= <-]] | ].
  cbn [String.eqb negb andb].
  destruct (prefix "/" (String c h)) eqn:E;
    (split; [reflexivity | now intros ? [= <-]]).
Qed.

Lemma row_of_anchor_href_witness :
  href yoga_row = Some (SITE ++ "/usp/x.php?id=1")
  /\ forall h, href yoga_row = Some h -> prefix "/" h = false.
Proof.
  apply (row_of_anchor_href yoga_anchor yoga_row). vm_compute. reflexivity.
Defined.

Lemma single_spaced_blanks (s : string) :
  forall b, single_spaced b s = true -> blanks b s = true.
Proof.
  induction s as [ | c s IH]; intros b; cbn; [reflexivity | ].
  destruct (is_space c); [ | apply IH].
  intros H. apply andb_true_iff in H. destruct H as [H H2].
  rewrite H. now apply IH.
Qed.

Lemma tidy_blanks (s : string) : tidy s = true -> blanks true s = true.
Proof.
  destruct s as [ | c s]; [reflexivity | ]. apply single_spaced_blanks.
Qed.

Lemma blanks_suffix (x z : string) :
  forall b, blanks b (x ++ z) = true -> exists b', blanks b' z = true.
Proof.
  induction x as [ | c x IH]; intros b; cbn; [now exists b | ].
  destruct (is_space c).
  - intros H. apply andb_true_iff in H. destruct H as [_ H]. now apply IH in H.
  - apply IH.
Qed.

Lemma blanks_prefix (x y : string) :
  forall b, blanks b (x ++ y) = true -> blanks b x = true.
Proof.
  induction x as [ | c x IH]; intros b; cbn; [reflexivity | ].
  destruct (is_space c).
  - intros H. apply andb_true_iff in H. destruct H as [H H2].
    rewrite H. now apply IH.
  - apply IH.
Qed.

(** A stripped part of a tidy text is tidy. *)
Lemma tidy_strip_part (g s : string) :
  tidy s = true -> part_of g s -> tidy (strip g) = true.
Proof.
  intros Ht (pre & post & ->). apply tidy_blanks in Ht.
  apply blanks_suffix in Ht. destruct Ht as (b & Ht).
  apply blanks_prefix in Ht.
  rewrite strip_rstrip_lstrip.
  apply blanks_lstrip in Ht. apply blanks_rstrip in Ht.
  destruct Ht as [-> | Ht]; [reflexivity | ].
  unfold tidy. now destruct (rstrip _).
Qed.

Lemma part_of_list (v pre post : list ascii) (s : string) :
  list_ascii_of_string s = (pre ++ v ++ post)%list ->
  part_of (string_of_list_ascii v) s.
Proof.
  intros E. exists (string_of_list_ascii pre), (string_of_list_ascii post).
  rewrite <- !string_of_list_app, <- E.
  symmetry. apply string_of_list_ascii_of_string.
Qed.

Lemma part_of_empty (s : string) : part_of EmptyString s.
Proof. now exists EmptyString, s. Qed.

Ltac part_at pre post :=
  apply (part_of_list _ pre post);
  match goal with E : list_ascii_of_string _ = _ |- _ => rewrite E end;
  repeat (progress (rewrite <- ?app_assoc; cbn [app])); reflexivity.

(** Every group of a match of [LINE_RE] is a part of the line. *)
Lemma line_match_parts (s : string) m (n : nat) :
  line_match LINE_RE s = Some m -> part_of (group m n) s.
Proof.
  intros H. apply line_match_captures in H.
  destruct H as (w & cs & E & F & H). apply line_re_captures in H.
  destruct H as (t & ws1 & code & ws2 & tm & ws3 & di & ws4 & loc & tail
                 & ctail & -> & -> & _ & _ & _ & _ & _ & Htail).
  unfold group. rewrite F.
  assert (H5 : forall k, part_of
            (string_of_list_ascii
               (lookup_group k [(5, loc); (4, di); (3, tm); (2, code);
                                (1, t)]%nat)) s).
  { intros k. cbn [lookup_group].
    destruct (Nat.eqb 5 k);
      [part_at (t ++ ","%char :: ws1 ++ code ++ ","%char :: ws2 ++ tm
                  ++ ","%char :: ws3 ++ di ++ ","%char :: ws4)%list
               (tail ++ m_rest m)%list | ].
    destruct (Nat.eqb 4 k);
      [part_at (t ++ ","%char :: ws1 ++ code ++ ","%char :: ws2 ++ tm
                  ++ ","%char :: ws3)%list
               (","%char :: ws4 ++ loc ++ tail ++ m_rest m)%list | ].
    destruct (Nat.eqb 3 k);
      [part_at (t ++ ","%char :: ws1 ++ code ++ ","%char :: ws2)%list
               (","%char :: ws3 ++ di ++ ","%char :: ws4 ++ loc ++ tail
                  ++ m_rest m)%list | ].
    destruct (Nat.eqb 2 k);
      [part_at (t ++ ","%char :: ws1)%list
               (","%char :: ws2 ++ tm ++ ","%char :: ws3 ++ di
                  ++ ","%char :: ws4 ++ loc ++ tail ++ m_rest m)%list | ].
    destruct (Nat.eqb 1 k);
      [part_at (@nil ascii)
               (","%char :: ws1 ++ code ++ ","%char :: ws2 ++ tm
                  ++ ","%char :: ws3 ++ di ++ ","%char :: ws4 ++ loc ++ tail
                  ++ m_rest m)%list | ].
    apply part_of_empty. }
  destruct Htail as [[-> ->] | (ws5 & rest & -> & ->)]; [apply H5 | ].
  cbn [app lookup_group].
  destruct (Nat.eqb 6 n); [ | apply H5].
  part_at (t ++ ","%char :: ws1 ++ code ++ ","%char :: ws2 ++ tm
             ++ ","%char :: ws3 ++ di ++ ","%char :: ws4 ++ loc
             ++ ","%char :: ws5)%list
          (m_rest m).
Qed.

(** X12: every text field of an extracted row is normalised: its words are
    separated by single blanks, it has no white space at its ends, and
    [normalize_space] leaves it as it is. *)
Theorem row_of_anchor_fields_tidy (a : Anchor) (r : RawRow) :
  row_of_anchor a = Some r ->
  Forall (fun f => tidy f = true /\ normalize_space f = f)
         [title r; dow r; time_str r; dateinfo r; location r; rest r].
Proof.
  unfold row_of_anchor.
  destruct (String.eqb _ _); [discriminate | ].
  destruct (an_parent a) as [p | ]; [ | discriminate].
  destruct (_ <? _)%nat; [discriminate | ].
  destruct (line_match LINE_RE (normalize_space p)) as [m | ] eqn:M;
    [ | discriminate].
  intros [= <-]. cbn [title dow time_str dateinfo location rest].
  assert (H : forall n, tidy (strip (group m n)) = true
                        /\ normalize_space (strip (group m n))
                           = strip (group m n)).
  { intros n.
    assert (Ht : tidy (strip (group m n)) = true).
    { apply tidy_strip_part with (normalize_space p);
        [apply normalize_space_tidy | now apply line_match_parts]. }
    split; [exact Ht | now apply tidy_normalize_space]. }
  repeat (constructor; [apply H | ]). constructor.
Qed.

Lemma row_of_anchor_fields_tidy_witness :
  Forall (fun f => tidy f = true /\ normalize_space f = f)
         ["Yoga"; "Mo"; "18:15-19:45 Uhr"; "05.01.2026"; "Halle 3";
          "ZSSw, frei"].
Proof.
  apply (row_of_anchor_fields_tidy yoga_anchor yoga_row).
  vm_compute. reflexivity.
Defined.

(* ================================================================== *)
(** * The order of the events in time *)

Lemma digit_val_range (c : ascii) : is_digit c = true -> 0 <= digit_val c <= 9.
Proof.
  intros H.
  pose proof (check_digits
                (fun c => (0 <=? digit_val c) && (digit_val c <=? 9))
                eq_refl c H) as Hc.
  cbv beta in Hc. apply andb_true_iff in Hc. lia.
Qed.

Lemma digit_compare (c c' : ascii) :
  is_digit c = true -> is_digit c' = true ->
  Ascii.compare c c' = (digit_val c ?= digit_val c').
Proof.
  intros H H'. apply cmp_eqb_eq.
  pose proof (check_digits
    (fun c => forallb (fun c' => cmp_eqb (Ascii.compare c c')
                                         (digit_val c ?= digit_val c'))
                      digit_chars) eq_refl c H) as Hc.
  cbv beta in Hc. rewrite forallb_forall in Hc.
  apply Hc. now apply in_digit_chars.
Qed.

(** Texts of digits of one length compare as the numbers they write. *)
Lemma digits_compare (x : string) :
  forall y acc1 acc2,
    all_digits x = true -> all_digits y = true ->
    String.length x = String.length y ->
    (digits_val x acc1 ?= digits_val y acc2)
    = match acc1 ?= acc2 with
      | Eq => String.compare x y
      | c => c
      end.
Proof.
  induction x as [ | c x IH]; intros [ | c' y] acc1 acc2 Hx Hy Hl;
    cbn in Hl; try discriminate.
  - cbn. now destruct (acc1 ?= acc2).
  - cbn [all_digits] in Hx, Hy.
    apply andb_true_iff in Hx. destruct Hx as [Hc Hx].
    apply andb_true_iff in Hy. destruct Hy as [Hc' Hy].
    cbn [digits_val String.compare].
    rewrite IH by (assumption || congruence).
    rewrite (digit_compare c c') by assumption.
    pose proof (digit_val_range c Hc). pose proof (digit_val_range c' Hc').
    destruct (Z.compare_spec acc1 acc2) as [-> | Hlt | Hgt].
    + destruct (Z.compare_spec (digit_val c) (digit_val c')) as [E | E | E].
      * rewrite E, Z.compare_refl. reflexivity.
      * assert (E' : (10 * acc2 + digit_val c ?= 10 * acc2 + digit_val c') = Lt)
          by (apply Z.compare_lt_iff; lia).
        now rewrite E'.
      * assert (E' : (10 * acc2 + digit_val c ?= 10 * acc2 + digit_val c') = Gt)
          by (apply Z.compare_gt_iff; lia).
        now rewrite E'.
    + assert (E' : (10 * acc1 + digit_val c ?= 10 * acc2 + digit_val c') = Lt)
        by (apply Z.compare_lt_iff; lia).
      now rewrite E'.
    + assert (E' : (10 * acc1 + digit_val c ?= 10 * acc2 + digit_val c') = Gt)
        by (apply Z.compare_gt_iff; lia).
      now rewrite E'.
Qed.

Lemma zfill4_compare (a b : Z) :
  0 <= a < 10000 -> 0 <= b < 10000 ->
  String.compare (zfill 4 a) (zfill 4 b) = (a ?= b)
  /\ String.length (zfill 4 a) = 4%nat.
Proof.
  intros Ha Hb.
  destruct (zfill4_shape a Ha) as (e & f & g & h & Ea & Da & Va).
  destruct (zfill4_shape b Hb) as (e' & f' & g' & h' & Eb & Db & Vb).
  rewrite <- Va at 2. rewrite <- Vb at 2.
  rewrite (digits_compare (zfill 4 a) (zfill 4 b) 0 0).
  - rewrite Ea. now split.
  - rewrite Ea. cbn [forallb all_digits] in *. now rewrite Da.
  - rewrite Eb. cbn [forallb all_digits] in *. now rewrite Db.
  - now rewrite Ea, Eb.
Qed.

Lemma date_isoformat_length (d : date) :
  date_valid d = true -> String.length (date_isoformat d) = 10%nat.
Proof.
  intros V. destruct (date_valid_fields d V) as (Hy & Hm & Hd).
  unfold date_isoformat. rewrite !append_length.
  destruct (zfill4_compare (year d) (year d)) as [_ ->]; try lia.
  rewrite !zfill2_length by lia. reflexivity.
Qed.

(** ISO dates compare as the dates. *)
Lemma date_isoformat_compare (d1 d2 : date) :
  date_valid d1 = true -> date_valid d2 = true ->
  String.compare (date_isoformat d1) (date_isoformat d2) = date_cmp d1 d2.
Proof.
  intros V1 V2.
  destruct (date_valid_fields d1 V1) as (Hy1 & Hm1 & Hd1).
  destruct (date_valid_fields d2 V2) as (Hy2 & Hm2 & Hd2).
  unfold date_isoformat, date_cmp.
  destruct (zfill4_compare (year d1) (year d2)) as [Ey L1]; try lia.
  destruct (zfill4_compare (year d2) (year d2)) as [_ L2]; try lia.
  rewrite string_compare_app_len by congruence. rewrite Ey.
  destruct (year d1 ?= year d2); try reflexivity.
  cbn [String.append String.compare]. rewrite ascii_compare_refl.
  rewrite string_compare_app_len by (rewrite !zfill2_length; lia).
  rewrite zfill2_compare by lia.
  destruct (month d1 ?= month d2); try reflexivity.
  cbn [String.append String.compare]. rewrite ascii_compare_refl.
  apply zfill2_compare; lia.
Qed.

Lemma start_text_split (d : date) (t : option time) :
  start_text d t
  = date_isoformat d ++ match t with
                        | Some t => "T" ++ time_isoformat t
                        | None => EmptyString
                        end.
Proof.
  destruct t as [t | ]; cbn [start_text]; [reflexivity | ].
  now rewrite append_nil_r.
Qed.

Lemma start_text_compare (d1 d2 : date) (t1 t2 : option time) :
  date_valid d1 = true -> date_valid d2 = true ->
  (forall t, t1 = Some t -> time_valid t) ->
  (forall t, t2 = Some t -> time_valid t) ->
  String.compare (start_text d1 t1) (start_text d2 t2)
  = moment_cmp d1 t1 d2 t2.
Proof.
  intros V1 V2 H1 H2. rewrite !start_text_split.
  rewrite string_compare_app_len
    by (rewrite !date_isoformat_length by assumption; reflexivity).
  rewrite date_isoformat_compare by assumption. unfold moment_cmp.
  destruct (date_cmp d1 d2); try reflexivity.
  destruct t1 as [a | ], t2 as [b | ]; try reflexivity.
  cbn [String.append String.compare]. rewrite ascii_compare_refl.
  apply time_isoformat_compare; auto.
Qed.

Lemma ev_start_occurrence r tr d :
  ev_start (occurrence r tr d) = start_text d (clock tr).
Proof. now destruct tr as [[[st | ] [et | ]] [ | ]]. Qed.

(** X26: the sort by the start text is a sort by time: the starts of two
    events that [add_event] writes for days of the calendar compare, as
    texts, as their days do, the all-day event of a day before its timed
    events, and the timed events of one day by the clock. *)
Theorem sort_key_chronological r1 tr1 d1 r2 tr2 d2 :
  date_valid d1 = true -> date_valid d2 = true ->
  (forall t, clock tr1 = Some t -> time_valid t) ->
  (forall t, clock tr2 = Some t -> time_valid t) ->
  String.compare (ev_start (occurrence r1 tr1 d1))
                 (ev_start (occurrence r2 tr2 d2))
  = moment_cmp d1 (clock tr1) d2 (clock tr2).
Proof.
  intros V1 V2 H1 H2. rewrite !ev_start_occurrence.
  now apply start_text_compare.
Qed.

Lemma sort_key_chronological_witness :
  String.compare (ev_start swim_event) (ev_start (hall_event "A")) = Lt.
Proof.
  apply (sort_key_chronological
           swim_row (None, None, true) (Date 2026 1 5)
           (hall_row "A") (Some (Time 18 15), Some (Time 19 45), false)
           (Date 2026 1 5));
    [reflexivity | reflexivity | discriminate | ].
  intros t [= <-]. unfold time_valid. cbn. lia.
Defined.

(* ================================================================== *)
(** * Time texts: what a parsed time says about the text *)






Lemma slower_app (a b : string) : slower (a ++ b) = slower a ++ slower b.
Proof. induction a as [ | c a IH]; cbn; [reflexivity | now rewrite IH]. Qed.

Lemma gaps_captures ic w cs :
  captures ic (plus s_) w cs ->
  cs = [] /\ forallb is_space w = true /\ (1 <= List.length w)%nat.
Proof.
  unfold plus, s_. cbn [captures]. intros H. class_inv H. easy.
Qed.

(** What a match of [ALLDAY_RE] consumes. *)
Lemma allday_re_captures w cs :
  captures true ALLDAY_RE w cs ->
  exists ws1 u ws2 v ws3,
    w = (ws1 ++ u ++ ws2 ++ v ++ ws3)%list
    /\ forallb is_space ws1 = true /\ forallb is_space ws2 = true
    /\ forallb is_space ws3 = true /\ (1 <= List.length ws2)%nat
    /\ slower (string_of_list_ascii u) = "ganzer"
    /\ slower (string_of_list_ascii v) = "tag".
Proof.
  unfold ALLDAY_RE. cbn [app lit].
  change (captures true (seq_re ?l) w cs)
    with (captures true
            (Cat Bol (Cat (star s_)
              (Cat (Chr "g") (Cat (Chr "a") (Cat (Chr "n") (Cat (Chr "z")
              (Cat (Chr "e") (Cat (Chr "r") (Cat (plus s_)
              (Cat (Chr "T") (Cat (Chr "a") (Cat (Chr "g")
              (Cat (star s_) Eol))))))))))))) w cs).
  cbn [captures].
  intros (w0 & w0' & c0 & c0' & -> & -> & (-> & ->)
          & w1 & w1' & c1 & c1' & -> & -> & H1
          & w2 & w2' & c2 & c2' & -> & -> & H2
          & w3 & w3' & c3 & c3' & -> & -> & H3
          & w4 & w4' & c4 & c4' & -> & -> & H4
          & w5 & w5' & c5 & c5' & -> & -> & H5
          & w6 & w6' & c6 & c6' & -> & -> & H6
          & w7 & w7' & c7 & c7' & -> & -> & H7
          & w8 & w8' & c8 & c8' & -> & -> & H8
          & w9 & w9' & c9 & c9' & -> & -> & H9
          & w10 & w10' & c10 & c10' & -> & -> & H10
          & w11 & w11' & c11 & c11' & -> & -> & H11
          & w12 & w12' & c12 & c12' & -> & -> & H12 & (-> & ->)).
  apply spaces_captures in H1, H12. apply gaps_captures in H8.
  destruct H1 as (-> & S1). destruct H12 as (-> & S12).
  destruct H8 as (-> & S8 & L8).
  apply letter_captures in H2, H3, H4, H5, H6, H7, H9, H10, H11.
  destruct H2 as (-> & x2 & -> & E2). destruct H3 as (-> & x3 & -> & E3).
  destruct H4 as (-> & x4 & -> & E4). destruct H5 as (-> & x5 & -> & E5).
  destruct H6 as (-> & x6 & -> & E6). destruct H7 as (-> & x7 & -> & E7).
  destruct H9 as (-> & x9 & -> & E9). destruct H10 as (-> & x10 & -> & E10).
  destruct H11 as (-> & x11 & -> & E11).
  exists w1, [x2; x3; x4; x5; x6; x7], w8, [x9; x10; x11], w12.
  cbn [app]. rewrite ?app_nil_r.
  repeat split; try assumption.
  - cbn [string_of_list_ascii slower]. now rewrite E2, E3, E4, E5, E6, E7.
  - cbn [string_of_list_ascii slower]. now rewrite E9, E10, E11.
Qed.

(** A match of [ALLDAY_RE] on a tidy text. *)
Lemma allday_tidy (t : string) m :
  tidy t = true -> re_match true ALLDAY_RE t = Some m -> all_day_text t.
Proof.
  intros Ht Hm.
  pose proof (re_match_to_end true ALLDAY_RE t m eq_refl Hm) as Hr.
  apply re_match_captures in Hm. destruct Hm as (w & cs & E & F & H).
  apply allday_re_captures in H.
  destruct H as (ws1 & u & ws2 & v & ws3 & -> & S1 & S2 & S3 & L2 & Hu & Hv).
  apply (f_equal string_of_list_ascii) in E.
  rewrite string_of_list_ascii_of_string in E.
  rewrite <- ?app_assoc in E. rewrite !string_of_list_app in E.
  pose proof (length_string_of_list ws2) as LW2.
  set (A1 := string_of_list_ascii ws1) in *.
  set (W2 := string_of_list_ascii ws2) in *.
  set (W3 := string_of_list_ascii ws3) in *.
  set (R := string_of_list_ascii (m_rest m)) in *.
  set (U := string_of_list_ascii u) in *.
  set (V := string_of_list_ascii v) in *.
  assert (HA1 : all_space A1 = true) by (unfold A1; now rewrite all_space_of_list).
  assert (HW2 : all_space W2 = true) by (unfold W2; now rewrite all_space_of_list).
  assert (HW3 : all_space (W3 ++ R) = true).
  { rewrite all_space_app. unfold W3, R. rewrite !all_space_of_list, S3.
    destruct Hr as [-> | ->]; reflexivity. }
  assert (EA : A1 = EmptyString).
  { apply tidy_no_lead with (x := U ++ W2 ++ V ++ W3 ++ R); [ | exact HA1].
    now rewrite <- E. }
  assert (EW : W3 ++ R = EmptyString).
  { apply tidy_no_trail with (x := A1 ++ U ++ W2 ++ V); [ | exact HW3].
    rewrite !append_assoc. now rewrite <- E. }
  assert (E2 : W2 = EmptyString \/ W2 = " ").
  { apply tidy_inner with (x := A1 ++ U) (y := V ++ W3 ++ R); [ | exact HW2].
    rewrite !append_assoc. now rewrite <- E. }
  destruct E2 as [E2 | E2]; [rewrite E2 in LW2; cbn in LW2; lia | ].
  rewrite EA, EW, E2 in E. cbn [String.append] in E.
  unfold all_day_text, eq_nocase. rewrite E, append_nil_r.
  rewrite slower_app. cbn [slower]. rewrite Hu, Hv. reflexivity.
Qed.

(** X4: [parse_time_range] reports an all-day entry exactly for the texts
    whose normalised form is [ganzer Tag] in any case of letters. *)
Theorem parse_time_range_all_day_iff (s : string) :
  parse_time_range s = Ok (None, None, true)
  <-> all_day_text (normalize_space s).
Proof.
  split.
  - unfold parse_time_range.
    destruct (re_match true ALLDAY_RE (normalize_space s)) as [m | ] eqn:M.
    + intros _. exact (allday_tidy _ _ (normalize_space_tidy s) M).
    + destruct (re_match true TIME_RE (normalize_space s)) as [m | ];
        [ | discriminate].
      destruct (unpack2 _) as [[sh sm] | ]; cbn [bind]; [ | discriminate].
      destruct (unpack2 _) as [[eh em] | ]; cbn [bind]; [ | discriminate].
      destruct (time_new sh sm); cbn [bind]; [ | discriminate].
      destruct (time_new eh em); cbn [bind]; discriminate.
  - intros H. apply parse_all_day_text in H.
    unfold parse_time_range in H |- *.
    now rewrite (tidy_normalize_space _ (normalize_space_tidy s)) in H.
Qed.



Lemma parse_time_range_all_day_iff_witness :
  parse_time_range " GANZER   tag " = Ok (None, None, true).
Proof.
  apply (parse_time_range_all_day_iff " GANZER   tag ").
  vm_compute. reflexivity.
Defined.

(* ================================================================== *)
(** * The fallback of the date parser *)










